(** * report_runtimes: HLS runtime extraction from catapult.log files

    A shallow embedding of [bin/report_runtimes.py] and the properties of
    its log locator, step-runtime parser, text report and CSV export.

    Conventions of the embedding.
    - A Python [str] is a [string], a character being a code point below
      256 (the type [ascii] has eight bits): the model covers text made
      of such characters, as are the fixed markers, the step names and
      the regular expression of the script.
    - A Python [float] is an IEEE-754 binary64 value, [spec_float] at
      precision 53 and maximal exponent 1024, with the operations of
      [SpecFloat]; [float(str)], the format [.2f] and [round(x, 2)] are
      the correctly rounded conversions of CPython.
    - A Python [dict] is an association list with distinct keys kept in
      insertion order: the order is observable through [sum(d.values())].
    - The file system is the tree of directories and regular files
      under the root directory, with the working directory somewhere in
      it; there are no symbolic links and every directory can be searched
      and listed. A path is followed as Linux follows it: [".."] leads to
      the parent, a name longer than [NAME_MAX] bytes or a path of
      [PATH_MAX] bytes or more is refused. A regular file is what reading
      it gives, the error included when the read fails.
    - [pathlib] is that of CPython 3.11: [Path], [str], [name], [parent],
      [exists] and [rglob], whose walk is recursive and stops with a
      [RecursionError] on a tree deeper than the interpreter allows.
    - [print] appends one entry to the standard output carried by the
      state, a written file is a list of rows in the state, and an
      exception is an explicit [Raise] outcome.

    The definitions come first: the script, function by function, then
    the notions the statements use and sample inputs. The properties
    follow, then the claims C1 to C10, and further properties of the
    script, X1 to X14, close the file. *)

From Stdlib Require Import Bool Arith ZArith NArith Lia List.
From Stdlib Require Import Ascii String DecimalString DecimalN.
From Stdlib Require Import Permutation Sorted.
From Stdlib Require Import SpecFloat.
Import ListNotations.

Local Open Scope string_scope.
Local Open Scope list_scope.

(* ================================================================= *)
(** ** Text *)

(** The upper-case letters below 256: [A-Z], and the letters from
    [U+00C0] to [U+00DE], the sign [U+00D7] apart. *)
Definition is_upper (c : ascii) : bool :=
  let n := nat_of_ascii c in
  (((65 <=? n) && (n <=? 90))
   || ((192 <=? n) && (n <=? 222) && negb (n =? 215)))%nat.

(** [str.lower()] on one character. *)
Definition lower_char (c : ascii) : ascii :=
  if is_upper c then ascii_of_nat (nat_of_ascii c + 32) else c.

(** [s.lower()] *)
Fixpoint lower (s : string) : string :=
  match s with
  | EmptyString => EmptyString
  | String c s' => String (lower_char c) (lower s')
  end.

(** [s.startswith(p)] *)
Fixpoint starts_with (p s : string) : bool :=
  match p with
  | EmptyString => true
  | String a p' =>
      match s with
      | EmptyString => false
      | String b s' => Ascii.eqb a b && starts_with p' s'
      end
  end.

(** [sub in s] *)
Fixpoint contains (sub s : string) : bool :=
  if starts_with sub s then true
  else match s with
       | EmptyString => false
       | String _ s' => contains sub s'
       end.

(** [sep.join(parts)] *)
Fixpoint join (sep : string) (parts : list string) : string :=
  match parts with
  | [] => ""
  | [p] => p
  | p :: rest => p ++ sep ++ join sep rest
  end.

Fixpoint spaces (n : nat) : string :=
  match n with
  | O => ""
  | S n' => String " " (spaces n')
  end.

(** Format specification [{s:<w}]: pad on the right up to [w] characters,
    never truncate. *)
Definition ljust (w : nat) (s : string) : string :=
  s ++ spaces (w - String.length s).

(** Format specification [{s:>w}]: pad on the left up to [w] characters,
    never truncate. *)
Definition rjust (w : nat) (s : string) : string :=
  spaces (w - String.length s) ++ s.

(** [str(n)] for a non-negative integer. *)
Definition str_of_nat (n : nat) : string :=
  NilEmpty.string_of_uint (Nat.to_uint n).

(** The number of bytes of [s] in UTF-8, the encoding in which a name is
    handed to the operating system: one byte for a character below 128,
    two for the others below 256. *)
Fixpoint byte_length (s : string) : nat :=
  match s with
  | EmptyString => 0
  | String c s' => (if (nat_of_ascii c <? 128)%nat then 1 else 2) + byte_length s'
  end.

(** [chr(0) in s] *)
Fixpoint has_nul (s : string) : bool :=
  match s with
  | EmptyString => false
  | String c s' => (nat_of_ascii c =? 0)%nat || has_nul s'
  end.

Definition hex_digit (n : nat) : ascii :=
  ascii_of_nat (if (n <? 10)%nat then 48 + n else 87 + n).

(** The characters [repr] writes as they are: the printable ones, which
    below 256 are [U+0020] to [U+007E] and [U+00A1] to [U+00FF], the soft
    hyphen [U+00AD] apart. *)
Definition is_printable (c : ascii) : bool :=
  let n := nat_of_ascii c in
  (((32 <=? n) && (n <=? 126)) || ((161 <=? n) && negb (n =? 173)))%nat.

Fixpoint repr_body (quote : ascii) (s : string) : string :=
  match s with
  | EmptyString => EmptyString
  | String c s' =>
      (if Ascii.eqb c quote || Ascii.eqb c (ascii_of_nat 92)
       then String (ascii_of_nat 92) (String c EmptyString)
       else if Ascii.eqb c (ascii_of_nat 10) then "\n"
       else if Ascii.eqb c (ascii_of_nat 13) then "\r"
       else if Ascii.eqb c (ascii_of_nat 9) then "\t"
       else if is_printable c then String c EmptyString
       else String (ascii_of_nat 92) (String "x"
              (String (hex_digit (nat_of_ascii c / 16))
                 (String (hex_digit (nat_of_ascii c mod 16)) EmptyString))))
      ++ repr_body quote s'
  end.

Fixpoint has_char (c : ascii) (s : string) : bool :=
  match s with
  | EmptyString => false
  | String x s' => Ascii.eqb x c || has_char c s'
  end.

(** [repr(s)]: between single quotes, or between double quotes when [s]
    has a single quote and no double quote; the quote in use and the
    backslash are escaped, and so is what is not printable. *)
Definition py_repr (s : string) : string :=
  let quote :=
    if has_char "'" s && negb (has_char (ascii_of_nat 34) s)
    then ascii_of_nat 34 else "'"%char in
  String quote (repr_body quote s ++ String quote EmptyString).

(* ================================================================= *)
(** ** Exceptions *)

(** The exception classes the script can meet; all derive from
    [Exception]. *)
Inductive exn_class : Type :=
  | FileNotFoundError
  | IsADirectoryError
  | NotADirectoryError
  | PermissionError
  | UnicodeDecodeError
  | OSError
  | ValueError
  | RecursionError.

Record exn : Type := mkExn { e_class : exn_class; e_msg : string }.

Inductive outcome (A : Type) : Type :=
  | Ok (a : A)
  | Raise (e : exn).
Arguments Ok {A} a.
Arguments Raise {A} e.

(* ================================================================= *)
(** ** Floating point: [float], [float(str)], [+], [format], [round] *)

Definition float : Type := spec_float.

Definition fadd : float -> float -> float := SFadd 53 1024.
Definition fdiv : float -> float -> float := SFdiv 53 1024.

(** [0.0] *)
Definition fzero : float := S754_zero false.

Definition is_digit (c : ascii) : bool :=
  ((48 <=? nat_of_ascii c) && (nat_of_ascii c <=? 57))%nat.

Definition digit_val (c : ascii) : N := N.of_nat (nat_of_ascii c - 48).

(** Value of a string of decimal digits, most significant first. *)
Fixpoint digits_val (acc : N) (s : string) : N :=
  match s with
  | EmptyString => acc
  | String c s' => digits_val (10 * acc + digit_val c) s'
  end.

Fixpoint all_chars (f : ascii -> bool) (s : string) : bool :=
  match s with
  | EmptyString => true
  | String c s' => f c && all_chars f s'
  end.

(** Split at the first ['.']: the text before it, and the text after it
    when there is one. *)
Fixpoint split_dot (s : string) : string * option string :=
  match s with
  | EmptyString => ("", None)
  | String c s' =>
      if Ascii.eqb c "." then ("", Some s')
      else let '(i, f) := split_dot s' in (String c i, f)
  end.

(** The binary64 value nearest to [m / 10^k] (ties to even, overflow to
    infinity), which is what the correctly rounded string conversion of
    CPython returns. *)
Definition float_of_decimal (m : N) (k : nat) : float :=
  match m with
  | N0 => fzero
  | Npos p => fdiv (S754_finite false p 0)
                   (S754_finite false (Z.to_pos (10 ^ Z.of_nat k)) 0)
  end.

(** [float(tok)] for a string [tok] over the characters [0-9.], the only
    strings the script passes to it: digits with at most one decimal
    point and at least one digit; anything else raises [ValueError]. *)
Definition py_float (tok : string) : outcome float :=
  let '(ip, fp) := split_dot tok in
  let fp' := match fp with Some f => f | None => "" end in
  if all_chars is_digit ip && all_chars is_digit fp'
     && negb (String.eqb (ip ++ fp') "")
  then Ok (float_of_decimal (digits_val 0 (ip ++ fp')) (String.length fp'))
  else Raise (mkExn ValueError ("could not convert string to float: '" ++ tok ++ "'")).

(** Decimal digits of a non-negative integer, [str(n)]. *)
Definition str_of_N (n : N) : string :=
  NilEmpty.string_of_uint (N.to_uint n).

(** The integer nearest to [m * 2^e * 100], ties to even. *)
Definition scaled_hundredths (m : positive) (e : Z) : N :=
  match e with
  | Zneg pe =>
      let num := (Z.pos m * 100)%Z in
      let den := Z.pow 2 (Z.pos pe) in
      let q := (num / den)%Z in
      let r := (num mod den)%Z in
      Z.to_N (match (2 * r ?= den)%Z with
              | Lt => q
              | Gt => q + 1
              | Eq => if Z.even q then q else q + 1
              end)%Z
  | _ => Z.to_N (Z.pos m * 2 ^ e * 100)
  end.

Definition two_digits (n : N) : string :=
  (if (n <? 10)%N then "0" else "") ++ str_of_N n.

Definition sign_str (s : bool) : string := if s then "-" else "".

(** Format specification [.2f]: the exact value rounded to two decimals. *)
Definition format_2f (x : float) : string :=
  match x with
  | S754_zero s => sign_str s ++ "0.00"
  | S754_infinity s => sign_str s ++ "inf"
  | S754_nan => "nan"
  | S754_finite s m e =>
      let h := scaled_hundredths m e in
      sign_str s ++ str_of_N (h / 100) ++ "." ++ two_digits (h mod 100)
  end.

(** Format specification [8.2f]. *)
Definition format_8_2f (x : float) : string := rjust 8 (format_2f x).

(** [round(x, 2)]: the decimal string of [x] with two decimals, converted
    back to the nearest float; infinities and NaN round to themselves. *)
Definition round2 (x : float) : float :=
  match x with
  | S754_finite s m e =>
      let r := float_of_decimal (scaled_hundredths m e) 2 in
      if s then SFopp r else r
  | _ => x
  end.

(* ================================================================= *)
(** ** Regular expressions: the fragment used by the script

    A pattern is a sequence of items, each a character class with a
    quantifier.  Matching is the backtracking search of [re]: greedy
    quantifiers, first success in priority order.  The result lists the
    text consumed by each item, so a group is read off by position. *)

Inductive quant : Type :=
  | One      (* exactly one character *)
  | Many     (* [+], greedy *)
  | Opt.     (* [?], greedy *)

Record item : Type := mkItem { cls : ascii -> bool; qnt : quant }.

Definition pattern : Type := list item.

Definition str1 (c : ascii) : string := String c EmptyString.

Fixpoint match_here (p : pattern) (s : string) : option (list string) :=
  match p with
  | [] => Some []
  | a :: p' =>
      match qnt a with
      | One =>
          match s with
          | String c s' =>
              if cls a c then option_map (cons (str1 c)) (match_here p' s')
              else None
          | EmptyString => None
          end
      | Opt =>
          let skip := option_map (cons "") (match_here p' s) in
          match s with
          | String c s' =>
              if cls a c then
                match match_here p' s' with
                | Some r => Some (str1 c :: r)
                | None => skip
                end
              else skip
          | EmptyString => skip
          end
      | Many =>
          option_map (fun tr => fst tr :: snd tr)
            ((fix many (s : string) : option (string * list string) :=
                match s with
                | String c s' =>
                    if cls a c then
                      match many s' with
                      | Some (t, r) => Some (String c t, r)
                      | None =>
                          option_map (fun r => (str1 c, r)) (match_here p' s')
                      end
                    else None
                | EmptyString => None
                end) s)
      end
  end.

(** [re.search]: the match at the leftmost position that has one. *)
Fixpoint re_search (p : pattern) (s : string) : option (list string) :=
  match match_here p s with
  | Some r => Some r
  | None =>
      match s with
      | EmptyString => None
      | String _ s' => re_search p s'
      end
  end.

(** A literal character under [re.IGNORECASE]. *)
Definition ci (c : ascii) : ascii -> bool :=
  fun x => Ascii.eqb (lower_char x) (lower_char c).

(** [\s] below 256: space, [\t \n \v \f \r], the separators
    [\x1c]..[\x1f], [\x85] and [\xa0]. *)
Definition is_space (c : ascii) : bool :=
  let n := nat_of_ascii c in
  ((n =? 32) || ((9 <=? n) && (n <=? 13)) || ((28 <=? n) && (n <=? 31))
   || (n =? 133) || (n =? 160))%nat.

(** [[\d.]]: below 256 the decimal digits are [0-9]. *)
Definition is_digit_or_dot (c : ascii) : bool :=
  is_digit c || Ascii.eqb c ".".

(** A literal word under [re.IGNORECASE]. *)
Fixpoint lit_ci (s : string) : pattern :=
  match s with
  | EmptyString => []
  | String c s' => mkItem (ci c) One :: lit_ci s'
  end.

(** [r"elapsed time\s+([\d.]+)\s+seconds?"] with [re.IGNORECASE]. *)
Definition runtime_pattern : pattern :=
  lit_ci "elapsed time"
  ++ [mkItem is_space Many; mkItem is_digit_or_dot Many; mkItem is_space Many]
  ++ lit_ci "second"
  ++ [mkItem (ci "s") Opt].

(** Position of group 1 among the items of [runtime_pattern]. *)
Definition group1 : nat := 13.

(** [match.group(1)] *)
Definition group_1 (m : list string) : string := nth group1 m "".

(* ================================================================= *)
(** ** [parse_runtime_from_line] *)

Definition parse_runtime_from_line (line : string) : outcome (option float) :=
  match re_search runtime_pattern line with
  | Some m =>
      match py_float (group_1 m) with
      | Ok v => Ok (Some v)
      | Raise e =>
          match e_class e with
          | ValueError => Ok None
          | _ => Raise e
          end
      end
  | None => Ok None
  end.

(* ================================================================= *)
(** ** Dictionaries *)

Definition dict (V : Type) : Type := list (string * V).

(** [d.get(k)] *)
Fixpoint dict_get {V : Type} (d : dict V) (k : string) : option V :=
  match d with
  | [] => None
  | (k', v) :: d' => if String.eqb k' k then Some v else dict_get d' k
  end.

(** [d[k] = v]: an existing key keeps its position, a new one goes last. *)
Fixpoint dict_set {V : Type} (d : dict V) (k : string) (v : V) : dict V :=
  match d with
  | [] => [(k, v)]
  | (k', v') :: d' =>
      if String.eqb k' k then (k', v) :: d' else (k', v') :: dict_set d' k v
  end.

(** [k in d] *)
Definition dict_mem {V : Type} (d : dict V) (k : string) : bool :=
  match dict_get d k with Some _ => true | None => false end.

Definition dict_keys {V : Type} (d : dict V) : list string := map fst d.
Definition dict_values {V : Type} (d : dict V) : list V := map snd d.

(** Truth value of a container: [if d:] *)
Definition truthy {A : Type} (l : list A) : bool :=
  match l with [] => false | _ => true end.

Fixpoint insert_sorted {V : Type} (x : string * V) (l : list (string * V))
  : list (string * V) :=
  match l with
  | [] => [x]
  | y :: l' =>
      if String.leb (fst x) (fst y) then x :: l else y :: insert_sorted x l'
  end.

(** [sorted(d.items())]: the keys of a dict are distinct, so the order of
    the pairs is the order of their names. *)
Definition sorted_items {V : Type} (d : dict V) : list (string * V) :=
  fold_right insert_sorted [] d.

(* ================================================================= *)
(** ** Paths and the file system *)

(** A [pathlib.Path], as its parts (the [_parts] of [pathlib]): the names
    between the slashes, and before them, for an absolute path, the
    anchor ["/"] or ["//"]. *)
Definition path : Type := list string.

Fixpoint split_on (sep : ascii) (s : string) : list string :=
  match s with
  | EmptyString => [""]
  | String c s' =>
      if Ascii.eqb c sep then "" :: split_on sep s'
      else match split_on sep s' with
           | [] => [str1 c]
           | h :: t => String c h :: t
           end
  end.

(** The first part of an absolute path. No other part begins with a
    slash. *)
Definition is_anchor (part : string) : bool := starts_with "/" part.

(** [Path(s)]: empty parts and ["."] are dropped, [".."] is kept; a
    leading slash is the root, and exactly two leading slashes are the
    root ["//"]. *)
Definition Path (s : string) : path :=
  let rel := filter (fun part => negb (String.eqb part "" || String.eqb part "."))
                    (split_on "/" s) in
  if starts_with "/" s then
    (if starts_with "//" s && negb (starts_with "///" s) then "//" else "/") :: rel
  else rel.

(** [str(p)] *)
Definition path_str (p : path) : string :=
  match p with
  | [] => "."
  | a :: rest => if is_anchor a then a ++ join "/" rest else join "/" p
  end.

(** [p.name]: the last part, the anchor not being one. *)
Definition path_name (p : path) : string :=
  match p with
  | [a] => if is_anchor a then "" else a
  | _ => last p ""
  end.

(** [p.parent]: the path without its last part; the anchor stays. *)
Definition path_parent (p : path) : path :=
  match p with
  | [a] => if is_anchor a then p else []
  | _ => removelast p
  end.

(** [p / name] *)
Definition path_child (p : path) (name : string) : path := p ++ [name].

(** What reading a regular file gives: its lines, then the end of the
    file or an error. A file that cannot even be opened has no lines and
    the error of [open]. *)
Record file_data : Type :=
  mkFile { f_lines : list string; f_error : option exn }.

#[local] Set Warnings "-register-all".

Inductive node : Type :=
  | File (d : file_data)
  | Dir (entries : list (string * node)).

Fixpoint find_entry (k : string) (es : list (string * node)) : option node :=
  match es with
  | [] => None
  | (k', n) :: es' => if String.eqb k' k then Some n else find_entry k es'
  end.

(** The entry reached from a node by a list of entry names. *)
Inductive resolved : Type :=
  | Found (n : node)
  | Missing          (* ENOENT: a name is no entry *)
  | NotDir           (* ENOTDIR: a name is looked up in a regular file *)
  | TooLong.         (* ENAMETOOLONG: a name or the path is too long *)

Fixpoint descend (n : node) (names : list string) : resolved :=
  match names with
  | [] => Found n
  | k :: names' =>
      match n with
      | File _ => NotDir
      | Dir es =>
          match find_entry k es with
          | Some c => descend c names'
          | None => Missing
          end
      end
  end.

(** How writing to a path fails: at [open], the file being left as it
    was, or later, after [n] rows went to the file, at the next row or,
    when there is none, at the close. What part of a row reaches the file
    when its write fails is not modelled: the row is not in the file. *)
Inductive write_fault : Type :=
  | FailOpen (e : exn)
  | FailAfter (n : nat) (e : exn).

(** The environment of one run: the tree of the root directory ["/"];
    the working directory, as the names that lead to it from the root;
    the longest name and the length no path reaches, in bytes ([NAME_MAX]
    and [PATH_MAX], 255 and 4096 on Linux); the depth of directories under
    its starting point that [rglob] can walk before the recursion limit of
    the interpreter stops it, if there is one; and how, if at all, writing
    to a path fails. *)
Record world : Type :=
  mkWorld { w_root : node;
            w_cwd : list string;
            w_name_max : nat;
            w_path_max : nat;
            w_depth_max : option nat;
            w_write_error : string -> option write_fault }.

(** The operating system follows the components of a path one by one
    from a directory, here given by the names [loc] that lead to it from
    the root: an empty component or ["."] stays, [".."] goes to the
    parent (the root is its own parent), a name is looked up; a component
    is only followed from a directory. *)
Fixpoint os_walk (w : world) (loc : list string) (comps : list string)
  : resolved * list string :=
  match comps with
  | [] => (descend (w_root w) loc, loc)
  | c :: comps' =>
      match descend (w_root w) loc with
      | Found (Dir es) =>
          if String.eqb c "" || String.eqb c "." then os_walk w loc comps'
          else if String.eqb c ".." then os_walk w (removelast loc) comps'
          else if (w_name_max w <? byte_length c)%nat then (TooLong, loc)
          else match find_entry c es with
               | Some _ => os_walk w (loc ++ [c]) comps'
               | None => (Missing, loc)
               end
      | Found (File _) => (NotDir, loc)
      | r => (r, loc)
      end
  end.

(** What a path string names: the answer of [stat]. *)
Definition os_resolve (w : world) (s : string) : resolved :=
  if String.eqb s "" then Missing
  else if (w_path_max w <=? byte_length s)%nat then TooLong
  else fst (os_walk w (if starts_with "/" s then [] else w_cwd w)
                    (split_on "/" s)).

Definition too_long (s : string) : exn :=
  mkExn OSError ("[Errno 36] File name too long: " ++ py_repr s).

(** [open(s, 'r')] *)
Definition open_read (w : world) (s : string) : outcome file_data :=
  if has_nul s then Raise (mkExn ValueError "embedded null byte")
  else
  match os_resolve w s with
  | Found (File d) => Ok d
  | Found (Dir _) =>
      Raise (mkExn IsADirectoryError
               ("[Errno 21] Is a directory: " ++ py_repr s))
  | Missing =>
      Raise (mkExn FileNotFoundError
               ("[Errno 2] No such file or directory: " ++ py_repr s))
  | NotDir =>
      Raise (mkExn NotADirectoryError
               ("[Errno 20] Not a directory: " ++ py_repr s))
  | TooLong => Raise (too_long s)
  end.

(** [p.exists()]: [stat] on [str(p)]; a missing entry, a regular file in
    the way and a null character are the answer [False], any other error
    is raised. *)
Definition path_exists (w : world) (p : path) : outcome bool :=
  let s := path_str p in
  if has_nul s then Ok false
  else match os_resolve w s with
       | Found _ => Ok true
       | Missing | NotDir => Ok false
       | TooLong => Raise (too_long s)
       end.

(** The paths [here.rglob(name)] selects, for a name without wildcards,
    [n] being the node at [here]: a directory is visited before its
    sub-directories, and in each directory the entry called [name] is
    selected when it exists. *)
Fixpoint rglob (name : string) (here : path) (n : node) : list path :=
  match n with
  | File _ => []
  | Dir es =>
      (match find_entry name es with
       | Some _ => [path_child here name]
       | None => []
       end)
      ++ (fix sub (l : list (string * node)) : list path :=
            match l with
            | [] => []
            | (k, c) :: l' => rglob name (path_child here k) c ++ sub l'
            end) es
  end.

Definition recursion_error : exn :=
  mkExn RecursionError "maximum recursion depth exceeded while calling a Python object".

(** The first error the walk of [rglob] meets, in the order of the walk:
    a directory deeper than the recursion limit allows is not entered,
    and in a directory that is entered the path of the entry called
    [name] is handed to [stat], which refuses a path or a name that is
    too long. *)
Fixpoint walk_error (w : world) (name : string) (depth : nat) (here : path)
    (n : node) : option exn :=
  match n with
  | File _ => None
  | Dir es =>
      if match w_depth_max w with
         | Some limit => (limit <? depth)%nat
         | None => false
         end
      then Some recursion_error
      else if (w_path_max w <=? byte_length (path_str (path_child here name)))%nat
              || (w_name_max w <? byte_length name)%nat
      then Some (too_long (path_str (path_child here name)))
      else (fix sub (l : list (string * node)) : option exn :=
              match l with
              | [] => None
              | (k, c) :: l' =>
                  match walk_error w name (S depth) (path_child here k) c with
                  | Some e => Some e
                  | None => sub l'
                  end
              end) es
  end.

(** [list(p.rglob(name))]: nothing when [p] is no directory; the walk
    raises what it meets, whatever it had selected. *)
Definition path_rglob (w : world) (p : path) (name : string)
  : outcome (list path) :=
  if has_nul (path_str p) then Ok []
  else
  match os_resolve w (path_str p) with
  | Found n =>
      match walk_error w name 0 p n with
      | Some e => Raise e
      | None => Ok (rglob name p n)
      end
  | TooLong => Raise (too_long (path_str p))
  | _ => Ok []
  end.

(* ================================================================= *)
(** ** Effects: standard output, written files, exceptions *)

(** A value handed to the [csv] writer: [None], which it writes as an
    empty field, a string, or a float, which it writes as [repr] does. *)
Inductive cell : Type :=
  | CNone
  | CStr (s : string)
  | CFloat (x : float).

Record state : Type :=
  mkState { stdout : list string; files : dict (list (list cell)) }.

Definition M (A : Type) : Type := state -> outcome A * state.

Definition ret {A : Type} (a : A) : M A := fun st => (Ok a, st).

Definition bind {A B : Type} (m : M A) (k : A -> M B) : M B :=
  fun st =>
    match m st with
    | (Ok a, st') => k a st'
    | (Raise e, st') => (Raise e, st')
    end.

Definition lift {A : Type} (o : outcome A) : M A := fun st => (o, st).

Definition try_except {A : Type} (body : M A) (handler : exn -> M A) : M A :=
  fun st =>
    match body st with
    | (Ok a, st') => (Ok a, st')
    | (Raise e, st') => handler e st'
    end.

Definition print (s : string) : M unit :=
  fun st => (Ok tt, mkState (stdout st ++ [s]) (files st)).

Notation "x <- m ;; k" := (bind m (fun x => k))
  (at level 61, m at next level, right associativity).
Notation "m ;; k" := (bind m (fun _ => k))
  (at level 61, right associativity).

(** A block either returns from the function or falls through. *)
Inductive flow (R A : Type) : Type :=
  | Return (r : R)
  | Next (a : A).
Arguments Return {R A} r.
Arguments Next {R A} a.

(* ================================================================= *)
(** ** [parse_hls_runtimes] *)

Definition marker : string := "Info: Completed transformation".

Definition expected_steps_parse : list string :=
  [ "analyze"; "compile"; "libraries"; "assembly"; "loops";
    "memories"; "cluster"; "architect"; "allocate"; "schedule";
    "dpfsm"; "instance"; "extract" ].

(** [for step in expected_steps: if step in line.lower(): ...; break] *)
Fixpoint step_loop (steps : list string) (line : string)
    (step_runtimes : dict float) : outcome (dict float) :=
  match steps with
  | [] => Ok step_runtimes
  | step :: rest =>
      if contains step (lower line) then
        match parse_runtime_from_line line with
        | Raise e => Raise e
        | Ok (Some runtime) => Ok (dict_set step_runtimes step runtime)
        | Ok None => Ok step_runtimes
        end
      else step_loop rest line step_runtimes
  end.

(** The body of [for line in f]. *)
Definition process_line (step_runtimes : dict float) (line : string)
  : outcome (dict float) :=
  if contains marker line
  then step_loop expected_steps_parse line step_runtimes
  else Ok step_runtimes.

Fixpoint scan_lines (lines : list string) (step_runtimes : dict float)
  : outcome (dict float) :=
  match lines with
  | [] => Ok step_runtimes
  | line :: rest =>
      match process_line step_runtimes line with
      | Ok d => scan_lines rest d
      | Raise e => Raise e
      end
  end.

(** [with open(logfile_path, 'r') as f: for line in f: ...] *)
Definition scan_file (w : world) (logfile_path : string)
  : outcome (dict float) :=
  match open_read w logfile_path with
  | Raise e => Raise e
  | Ok f =>
      match scan_lines (f_lines f) [] with
      | Raise e => Raise e
      | Ok d => match f_error f with
                | Some e => Raise e
                | None => Ok d
                end
      end
  end.

Definition parse_hls_runtimes (w : world) (logfile_path : string)
  : M (dict float) :=
  let expected_steps := expected_steps_parse in
  r <- try_except
         (step_runtimes <- lift (scan_file w logfile_path) ;;
          ret (Next step_runtimes))
         (fun e =>
            match e_class e with
            | FileNotFoundError =>
                print ("Warning: Could not read logfile " ++ logfile_path) ;;
                ret (Return [])
            | _ =>
                print ("Warning: Error reading " ++ logfile_path ++ ": "
                       ++ e_msg e) ;;
                ret (Return [])
            end) ;;
  match r with
  | Return d => ret d
  | Next step_runtimes =>
      let missing_steps :=
        filter (fun step => negb (dict_mem step_runtimes step)) expected_steps in
      (if truthy missing_steps then
         let design_name := path_name (path_parent (Path logfile_path)) in
         print ("Warning: Design '" ++ design_name ++ "' is missing steps: "
                ++ join ", " missing_steps)
       else ret tt) ;;
      ret step_runtimes
  end.

(* ================================================================= *)
(** ** [find_catapult_logs] *)

Definition find_catapult_logs (w : world) (hls_dir : string)
  : M (list (string * string)) :=
  let hls_path := Path hls_dir in
  there <- lift (path_exists w hls_path) ;;
  if negb there then
    print ("Warning: HLS directory '" ++ hls_dir ++ "' does not exist") ;;
    ret []
  else
    logfiles <- lift (path_rglob w hls_path "catapult.log") ;;
    ret (map (fun logfile =>
                (path_name (path_parent logfile), path_str logfile))
             logfiles).

(* ================================================================= *)
(** ** The builtin [sum] *)

(** [sum] up to Python 3.11: [0 + x1 + x2 + ...], left to right. *)
Definition py_sum_plain (xs : list float) : float :=
  fold_left fadd xs fzero.

Definition fsub : float -> float -> float := SFsub 53 1024.

Definition is_finite (x : float) : bool :=
  match x with
  | S754_zero _ | S754_finite _ _ _ => true
  | _ => false
  end.

Definition is_zero (x : float) : bool :=
  match x with S754_zero _ => true | _ => false end.

(** The float loop of [sum] from Python 3.12 on (Neumaier's compensated
    summation): [f_result] is the running sum, [c] the compensation. *)
Fixpoint sum_compensated (xs : list float) (f_result c : float) : float :=
  match xs with
  | [] =>
      if negb (is_zero c) && is_finite c then fadd f_result c else f_result
  | x :: xs' =>
      let t := fadd f_result x in
      let c' :=
        if SFleb (SFabs x) (SFabs f_result)
        then fadd c (fadd (fsub f_result t) x)
        else fadd c (fadd (fsub x t) f_result) in
      sum_compensated xs' t c'
  end.

(** [sum] from Python 3.12 on; the first float is added to the integer
    start value [0] before the float loop begins. *)
Definition py_sum_compensated (xs : list float) : float :=
  match xs with
  | [] => fzero
  | x :: xs' => sum_compensated xs' (fadd fzero x) fzero
  end.

(** The builtin [sum] belongs to the interpreter: a plain left-to-right
    sum up to Python 3.11, a compensated one from 3.12 on. *)
Inductive py_version : Type :=
  | Py311     (* Python 3.11 and before *)
  | Py312.    (* Python 3.12 and after *)

(** [sum(xs)] for a list of floats. The sum of no value is the integer
    [0], which [8.2f] prints as it prints [0.0]. *)
Definition py_sum (version : py_version) (xs : list float) : float :=
  match version with
  | Py311 => py_sum_plain xs
  | Py312 => py_sum_compensated xs
  end.

(* ================================================================= *)
(** ** [generate_report] *)

Definition report_row (design_name : string) (total_runtime : float) : string :=
  ljust 30 design_name ++ " " ++ format_8_2f total_runtime ++ " seconds".

Fixpoint report_loop (version : py_version)
    (items : list (string * dict float)) : M unit :=
  match items with
  | [] => ret tt
  | (design_name, step_runtimes) :: rest =>
      let total_runtime := py_sum version (dict_values step_runtimes) in
      print (report_row design_name total_runtime) ;;
      report_loop version rest
  end.

Definition newline : string := String (ascii_of_nat 10) "".

Fixpoint repeat_str (s : string) (n : nat) : string :=
  match n with
  | O => ""
  | S n' => s ++ repeat_str s n'
  end.

Definition generate_report (version : py_version)
    (design_runtimes : dict (dict float)) : M unit :=
  print (newline ++ "HLS Runtime Summary:") ;;
  print (repeat_str "-" 60) ;;
  report_loop version (sorted_items design_runtimes).

(* ================================================================= *)
(** ** [export_to_csv] *)

Definition expected_steps_export : list string :=
  [ "analyze"; "compile"; "libraries"; "assembly"; "loops";
    "memories"; "cluster"; "architect"; "allocate"; "schedule";
    "dpfsm"; "instance"; "extract" ].

(** [open(csv_path, 'w')]: the file is created empty, or the call raises. *)
Definition open_write (w : world) (csv_path : string) : M unit :=
  fun st =>
    match w_write_error w csv_path with
    | Some (FailOpen e) => (Raise e, st)
    | _ => (Ok tt, mkState (stdout st) (dict_set (files st) csv_path []))
    end.

(** The rows a file holds. *)
Definition rows_of (st : state) (csv_path : string) : list (list cell) :=
  match dict_get (files st) csv_path with
  | Some rows => rows
  | None => []
  end.

(** The error of the next operation on the open file, if it fails. *)
Definition write_fails (w : world) (csv_path : string) (st : state)
  : option exn :=
  match w_write_error w csv_path with
  | Some (FailAfter n e) =>
      if (n <=? List.length (rows_of st csv_path))%nat then Some e else None
  | _ => None
  end.

(** One more row at the end of the file. *)
Definition write_row (w : world) (csv_path : string) (row : list cell)
  : M unit :=
  fun st =>
    match write_fails w csv_path st with
    | Some e => (Raise e, st)
    | None =>
        (Ok tt, mkState (stdout st)
                  (dict_set (files st) csv_path (rows_of st csv_path ++ [row])))
    end.

(** The end of the [with] block: the file is closed. *)
Definition close_file (w : world) (csv_path : string) : M unit :=
  fun st =>
    match write_fails w csv_path st with
    | Some e => (Raise e, st)
    | None => (Ok tt, st)
    end.

(** [DictWriter._dict_to_list]: a key outside [fieldnames] raises, a
    field without a value is written as the empty string. *)
Definition dict_to_list (fieldnames : list string) (rowdict : dict cell)
  : outcome (list cell) :=
  if forallb (fun k => existsb (String.eqb k) fieldnames) (dict_keys rowdict)
  then Ok (map (fun key => match dict_get rowdict key with
                           | Some c => c
                           | None => CStr ""
                           end) fieldnames)
  else Raise (mkExn ValueError "dict contains fields not in fieldnames").
(* The text of the real message goes on with the offending fields. *)

(** [writer.writerow(row)] *)
Definition writerow (w : world) (csv_path : string) (fieldnames : list string)
    (rowdict : dict cell) : M unit :=
  cells <- lift (dict_to_list fieldnames rowdict) ;;
  write_row w csv_path cells.

(** [writer.writeheader()] *)
Definition writeheader (w : world) (csv_path : string)
    (fieldnames : list string) : M unit :=
  write_row w csv_path (map CStr fieldnames).

(** [for step in expected_steps: ...] inside the row loop; the state of
    the loop is the row and the running total. *)
Fixpoint row_steps (steps : list string) (step_runtimes : dict float)
    (row : dict cell) (total_runtime : float) : dict cell * float :=
  match steps with
  | [] => (row, total_runtime)
  | step :: rest =>
      match dict_get step_runtimes step with
      | Some v =>
          row_steps rest step_runtimes (dict_set row step (CFloat v))
                    (fadd total_runtime v)
      | None =>
          row_steps rest step_runtimes (dict_set row step CNone) total_runtime
      end
  end.

Definition make_row (expected_steps : list string) (design_name : string)
    (step_runtimes : dict float) : dict cell :=
  let row := [("design", CStr design_name)] in
  let total_runtime := fzero in
  let '(row, total_runtime) :=
    row_steps expected_steps step_runtimes row total_runtime in
  dict_set row "total_runtime" (CFloat (round2 total_runtime)).

Fixpoint export_loop (w : world) (csv_path : string)
    (fieldnames expected_steps : list string)
    (items : list (string * dict float)) : M unit :=
  match items with
  | [] => ret tt
  | (design_name, step_runtimes) :: rest =>
      writerow w csv_path fieldnames
               (make_row expected_steps design_name step_runtimes) ;;
      export_loop w csv_path fieldnames expected_steps rest
  end.

Definition export_to_csv (w : world) (design_runtimes : dict (dict float))
    (csv_path : string) : M unit :=
  let expected_steps := expected_steps_export in
  try_except
    (open_write w csv_path ;;
     let fieldnames := ["design"; "total_runtime"] ++ expected_steps in
     writeheader w csv_path fieldnames ;;
     export_loop w csv_path fieldnames expected_steps
                 (sorted_items design_runtimes) ;;
     close_file w csv_path ;;
     print (newline ++ "CSV report exported to: " ++ csv_path))
    (fun e =>
       print ("Error writing CSV file " ++ csv_path ++ ": " ++ e_msg e)).

(* ================================================================= *)
(** ** [main] *)

(** The loop of [main] over the located log files. *)
Fixpoint collect (w : world) (logfiles : list (string * string))
    (design_runtimes : dict (dict float)) : M (dict (dict float)) :=
  match logfiles with
  | [] => ret design_runtimes
  | (design_name, logfile_path) :: rest =>
      print ("Parsing: " ++ design_name ++ " (" ++ logfile_path ++ ")") ;;
      step_runtimes <- parse_hls_runtimes w logfile_path ;;
      collect w rest
        (if truthy step_runtimes
         then dict_set design_runtimes design_name step_runtimes
         else design_runtimes)
  end.

(** [main], the two command-line arguments being [--hls-dir] and [--csv]. *)
Definition main (version : py_version) (w : world)
    (hls_dir : string) (csv : option string) : M unit :=
  print ("Searching for catapult.log files in: " ++ hls_dir) ;;
  logfiles <- find_catapult_logs w hls_dir ;;
  if negb (truthy logfiles) then print "No catapult.log files found!"
  else
    print ("Found " ++ str_of_nat (List.length logfiles) ++ " catapult.log files") ;;
    design_runtimes <- collect w logfiles [] ;;
    if negb (truthy design_runtimes) then print "No valid runtime data found!"
    else
      generate_report version design_runtimes ;;
      match csv with
      | Some csv_path =>
          if negb (String.eqb csv_path "")
          then export_to_csv w design_runtimes csv_path
          else ret tt
      | None => ret tt
      end.

Definition initial_state : state := mkState [] [].

(* ================================================================= *)
(** ** Notions used in the statements *)

(** The step a line is attributed to: the first expected step, in list
    order, whose name occurs in the lower-cased line. *)
Definition first_step (line : string) : option string :=
  find (fun step => contains step (lower line)) expected_steps_parse.

(** [line] is a completion line of [step] with the extractable runtime
    [v]. *)
Definition marks (line step : string) (v : float) : Prop :=
  contains marker line = true /\
  first_step line = Some step /\
  parse_runtime_from_line line = Ok (Some v).

(** [sub] occurs in [s] up to case. *)
Definition occurs_ci (sub s : string) : Prop :=
  exists a b c : string, s = (a ++ b ++ c)%string /\ lower b = sub.

(** [line] holds the words "elapsed time", white space, the token [tok]
    made of digits and points, white space and the word "second", the
    words being read up to case. *)
Definition elapsed_shape (line tok : string) : Prop :=
  exists pre e w1 w2 sec rest : string,
    line = (pre ++ e ++ w1 ++ tok ++ w2 ++ sec ++ rest)%string /\
    lower e = "elapsed time" /\
    w1 <> "" /\ all_chars is_space w1 = true /\
    tok <> "" /\ all_chars is_digit_or_dot tok = true /\
    w2 <> "" /\ all_chars is_space w2 = true /\
    lower sec = "second".

(** "Case-insensitive", said without [lower]: two characters are the
    same letter when they are equal, or when one is an upper-case letter
    and the other the character 32 places after it. The upper-case
    letters are [A-Z] and, below 256, [U+00C0] to [U+00DE], the sign
    [U+00D7] apart. *)
Definition capital (n : nat) : bool :=
  (((65 <=? n) && (n <=? 90))
   || ((192 <=? n) && (n <=? 222) && negb (n =? 215)))%nat.

Definition same_letter (x y : ascii) : bool :=
  let a := nat_of_ascii x in
  let b := nat_of_ascii y in
  ((a =? b) || (capital a && (b =? a + 32)) || (capital b && (a =? b + 32)))%nat.

(** [u] is [word] up to the case of its letters. *)
Fixpoint same_word (u word : string) : bool :=
  match u, word with
  | EmptyString, EmptyString => true
  | String a u', String b word' => same_letter a b && same_word u' word'
  | _, _ => false
  end.

(** [word] occurs in [s], in any case. *)
Definition occurs_any_case (word s : string) : Prop :=
  exists a b c : string, s = (a ++ b ++ c)%string /\ same_word b word = true.

(** White space, by code point: the blank, [\t \n \v \f \r], the
    separators [\x1c] to [\x1f], [\x85] and [\xa0]. *)
Definition white_space (c : ascii) : Prop :=
  In (nat_of_ascii c) [9; 10; 11; 12; 13; 28; 29; 30; 31; 32; 133; 160].

(** A decimal digit or the point. *)
Definition digit_or_point (c : ascii) : Prop :=
  48 <= nat_of_ascii c <= 57 \/ nat_of_ascii c = 46.

Definition every_char (P : ascii -> Prop) (s : string) : Prop :=
  forall a c b, s = (a ++ String c b)%string -> P c.

(** [line] holds the words "elapsed time" in any case, white space, the
    token [tok] made of digits and points, white space and the word
    "second" in any case. *)
Definition elapsed_words (line tok : string) : Prop :=
  exists pre e w1 w2 sec rest : string,
    line = (pre ++ e ++ w1 ++ tok ++ w2 ++ sec ++ rest)%string /\
    same_word e "elapsed time" = true /\
    w1 <> "" /\ every_char white_space w1 /\
    tok <> "" /\ every_char digit_or_point tok /\
    w2 <> "" /\ every_char white_space w2 /\
    same_word sec "second" = true.

(** All the characters, for a check of each. *)
Definition all_ascii : list ascii := map ascii_of_nat (seq 0 256).

(** What a read of [logfile_path] fails with, at [open] or while the
    lines are read. *)
Definition read_failure (w : world) (logfile_path : string) (e : exn) : Prop :=
  open_read w logfile_path = Raise e \/
  exists f, open_read w logfile_path = Ok f /\ f_error f = Some e.

(** The warning [parse_hls_runtimes] prints for a failed read. *)
Definition read_warning (logfile_path : string) (e : exn) : string :=
  match e_class e with
  | FileNotFoundError => "Warning: Could not read logfile " ++ logfile_path
  | _ => "Warning: Error reading " ++ logfile_path ++ ": " ++ e_msg e
  end.

(** The cell of a step in an exported row. *)
Definition step_cell (step_runtimes : dict float) (step : string) : cell :=
  match dict_get step_runtimes step with
  | Some v => CFloat v
  | None => CNone
  end.

(** The sum of the values present for the given steps, in their order,
    from [0.0]. *)
Definition present_total (steps : list string) (step_runtimes : dict float)
  : float :=
  fold_left fadd
    (flat_map (fun step => match dict_get step_runtimes step with
                           | Some v => [v]
                           | None => []
                           end) steps)
    fzero.

(** Names are distinct in every directory of the tree. *)
Fixpoint distinct (l : list string) : bool :=
  match l with
  | [] => true
  | x :: l' => negb (existsb (String.eqb x) l') && distinct l'
  end.

Fixpoint wf_node (n : node) : bool :=
  match n with
  | File _ => true
  | Dir es =>
      distinct (map fst es)
      && (fix all (l : list (string * node)) : bool :=
            match l with
            | [] => true
            | (_, c) :: l' => wf_node c && all l'
            end) es
  end.

(** The steps [parse_hls_runtimes] reports as missing. *)
Definition missing_steps_of (step_runtimes : dict float) : list string :=
  filter (fun step => negb (dict_mem step_runtimes step)) expected_steps_parse.

(** The mapping [parse_hls_runtimes] returns for a path, and what it
    prints on the way. *)
Definition parse_result (w : world) (logfile_path : string) : dict float :=
  match scan_file w logfile_path with
  | Ok d => d
  | Raise _ => []
  end.

Definition parse_output (w : world) (logfile_path : string) : list string :=
  match scan_file w logfile_path with
  | Ok d =>
      if truthy (missing_steps_of d)
      then [("Warning: Design '"
             ++ path_name (path_parent (Path logfile_path))
             ++ "' is missing steps: " ++ join ", " (missing_steps_of d))%string]
      else []
  | Raise e => [read_warning logfile_path e]
  end.

(** The mapping the loop of [main] builds, and what it prints. *)
Definition collected (w : world) (logfiles : list (string * string))
    (design_runtimes : dict (dict float)) : dict (dict float) :=
  fold_left
    (fun dr (l : string * string) =>
       if truthy (parse_result w (snd l))
       then dict_set dr (fst l) (parse_result w (snd l))
       else dr)
    logfiles design_runtimes.

Definition collect_output (w : world) (logfiles : list (string * string))
  : list string :=
  flat_map
    (fun l : string * string =>
       ("Parsing: " ++ fst l ++ " (" ++ snd l ++ ")")%string
       :: parse_output w (snd l))
    logfiles.

(** A text in a field: the text and then blanks, or blanks and then the
    text, up to the width of the field; a longer text is the field. *)
Definition blanks (pad : string) : Prop := every_char (fun c => c = " "%char) pad.

Definition left_in_field (width : nat) (text field : string) : Prop :=
  exists pad : string,
    field = (text ++ pad)%string /\ blanks pad /\
    String.length field = Nat.max width (String.length text).

Definition right_in_field (width : nat) (text field : string) : Prop :=
  exists pad : string,
    field = (pad ++ text)%string /\ blanks pad /\
    String.length field = Nat.max width (String.length text).

(** [h] is an integer nearest to [100 * m * 2^e], the even one of two
    that are as near: [h / 100] is the number [m * 2^e] rounded to two
    decimals. *)
Definition nearest_hundredths (m : positive) (e : Z) (h : N) : Prop :=
  ((0 <= e)%Z -> Z.of_N h = (100 * Z.pos m * 2 ^ e)%Z) /\
  ((e < 0)%Z ->
   (2 * Z.abs (100 * Z.pos m - Z.of_N h * 2 ^ (- e)) <= 2 ^ (- e))%Z /\
   ((2 * Z.abs (100 * Z.pos m - Z.of_N h * 2 ^ (- e)) = 2 ^ (- e))%Z ->
    Z.even (Z.of_N h) = true)).

(** [text] is the integer [h] written in decimal with a point before its
    last two digits: the number [h / 100] with two decimals. *)
Definition hundredths_text (text : string) (h : N) : Prop :=
  exists (ip : string) (f1 f2 : ascii),
    text = (ip ++ "." ++ String f1 (String f2 ""))%string /\
    ip <> "" /\ every_char (fun c => 48 <= nat_of_ascii c <= 57) ip /\
    48 <= nat_of_ascii f1 <= 57 /\ 48 <= nat_of_ascii f2 <= 57 /\
    digits_val 0 (ip ++ String f1 (String f2 "")) = h.

(** The order of the rows: names ascending. *)
Definition name_le {V : Type} (a b : string * V) : Prop :=
  String.leb (fst a) (fst b) = true.

(** The row of the text report for one design. *)
Definition report_line (version : py_version)
    (item : string * dict float) : string :=
  (ljust 30 (fst item) ++ " "
   ++ rjust 8 (format_2f (py_sum version (dict_values (snd item))))
   ++ " seconds")%string.

(** The header and the data row of the export for one design. *)
Definition csv_header : list cell :=
  map CStr
    [ "design"; "total_runtime";
      "analyze"; "compile"; "libraries"; "assembly"; "loops";
      "memories"; "cluster"; "architect"; "allocate"; "schedule";
      "dpfsm"; "instance"; "extract" ].

Definition csv_row (item : string * dict float) : list cell :=
  CStr (fst item)
  :: CFloat (round2 (present_total expected_steps_export (snd item)))
  :: map (step_cell (snd item)) expected_steps_export.

(** The pairs [find_catapult_logs] returns. *)
Definition located (w : world) (hls_dir : string) : list (string * string) :=
  match fst (find_catapult_logs w hls_dir (mkState [] [])) with
  | Ok logfiles => logfiles
  | Raise _ => []
  end.

(** What [main] does once the mapping is built and is not empty. *)
Definition report_and_export (version : py_version) (w : world)
    (csv : option string) (design_runtimes : dict (dict float)) : M unit :=
  generate_report version design_runtimes ;;
  match csv with
  | Some csv_path =>
      if negb (String.eqb csv_path "")
      then export_to_csv w design_runtimes csv_path
      else ret tt
  | None => ret tt
  end.

(** The characters of a word, one string each: what the items of a
    literal of the pattern consume. *)
Fixpoint chars (s : string) : list string :=
  match s with
  | EmptyString => []
  | String c s' => str1 c :: chars s'
  end.

(** One more key in a list of distinct keys. *)
Definition add_key (ks : list string) (k : string) : list string :=
  if existsb (String.eqb k) ks then ks else ks ++ [k].

(** The state in which the file at [p] holds [rows]. *)
Definition with_file (st : state) (p : string) (rows : list (list cell)) : state :=
  mkState (stdout st) (dict_set (files st) p rows).

(** A string that ends with a point and two digits. *)
Definition two_decimals (s : string) : Prop :=
  exists (ip : string) (f1 f2 : ascii),
    s = (ip ++ "." ++ String f1 (String f2 ""))%string /\
    is_digit f1 = true /\ is_digit f2 = true.

(* ================================================================= *)
(** ** Sample logs and a sample tree *)

Definition log_designA : file_data :=
  mkFile
    [ "# Info: Completed transformation 'analyze' on solution 'top.v1': elapsed time 3.50 seconds, memory usage 1511420kB";
      "# Info: Starting transformation 'compile' on solution 'top.v1'";
      "# Info: Completed transformation 'compile' on solution 'top.v1': elapsed time 10.0 seconds, memory usage 1511420kB" ]
    None.

Definition log_twice : file_data :=
  mkFile
    [ "# Info: Completed transformation 'compile' on solution 'top.v1': elapsed time 4.0 seconds";
      "# Info: Completed transformation 'compile' on solution 'top.v2': elapsed time 7.25 seconds" ]
    None.

(** A log whose read fails after two lines. *)
Definition log_broken : file_data :=
  mkFile
    [ "# Info: Completed transformation 'analyze' on solution 'top.v1': elapsed time 3.50 seconds";
      "# Info: Completed transformation 'compile' on solution 'top.v1': elapsed time 10.0 seconds" ]
    (Some (mkExn UnicodeDecodeError
             "'utf-8' codec can't decode byte 0xff in position 200: invalid start byte")).

(** A log with a completion line whose number is not one. *)
Definition log_malformed : file_data :=
  mkFile
    [ "# Info: Completed transformation 'loops' on solution 'top.v1': elapsed time 1.2.3 seconds" ]
    None.

(** A world on Linux under CPython 3.11: the given root directory, the
    working directory [/work], names of at most 255 bytes, paths of less
    than 4096, a walk of [rglob] that stops below 988 nested directories
    (what the interpreter allows when the script is run as a program),
    and files that can be written. *)
Definition linux (root : node) : world :=
  mkWorld root ["work"] 255 4096 (Some 988) (fun _ => None).

Definition sample_root : node :=
  Dir [ ("work",
    Dir [ ("hls",
         Dir [ ("designA", Dir [ ("catapult.log", File log_designA) ]);
               ("twice", Dir [ ("catapult.log", File log_twice);
                               ("notes.txt", File (mkFile [] None)) ]);
               ("broken", Dir [ ("catapult.log", File log_broken) ]);
               ("x", Dir [ ("A", Dir [ ("catapult.log", File log_designA) ]) ]);
               ("y", Dir [ ("A", Dir [ ("catapult.log", File log_malformed) ]) ]) ]) ]) ].

Definition sample_world : world := linux sample_root.

(** A tree with two logs under directories of the same name. *)
Definition collision_world : world :=
  linux
    (Dir [ ("work",
      Dir [ ("hls",
            Dir [ ("x", Dir [ ("A", Dir [ ("catapult.log", File log_designA) ]) ]);
                  ("y", Dir [ ("A", Dir [ ("catapult.log", File log_malformed) ]) ]) ]) ]) ]).

(** A completion line in capitals. *)
Definition line_in_capitals : string :=
  "# Info: Completed transformation 'COMPILE' on solution 'TOP.V1': ELAPSED TIME 4.0 SECONDS".

(** A log with a recorded zero and a total that needs rounding, a log
    whose only runtime lies halfway between two hundredths, and a log
    with a runtime of 310 digits, beyond the largest float. *)
Definition log_fine : file_data :=
  mkFile
    [ "# Info: Completed transformation 'analyze' on solution 'top.v1': elapsed time 0.0 seconds";
      "# Info: Completed transformation 'compile' on solution 'top.v1': elapsed time 1.005 seconds";
      "# Info: Completed transformation 'schedule' on solution 'top.v1': elapsed time 2.001 seconds" ]
    None.

Definition log_tie : file_data :=
  mkFile
    [ "# Info: Completed transformation 'loops' on solution 'top.v1': elapsed time 0.125 seconds" ]
    None.

Definition log_huge : file_data :=
  mkFile
    [ ("# Info: Completed transformation 'compile' on solution 'top.v1': elapsed time "
       ++ repeat_str "9" 310 ++ " seconds")%string ]
    None.

Definition precise_world : world :=
  linux
    (Dir [ ("work",
      Dir [ ("hls",
            Dir [ ("fine", Dir [ ("catapult.log", File log_fine) ]);
                  ("tie", Dir [ ("catapult.log", File log_tie) ]);
                  ("big", Dir [ ("catapult.log", File log_huge) ]) ]) ]) ]).




(** [two_digits] gives two digits. *)
Definition two_digits_ok (n : N) : bool :=
  match two_digits n with
  | String f1 (String f2 EmptyString) => is_digit f1 && is_digit f2
  | _ => false
  end.

(* ================================================================= *)
(** ** Further notions used in the statements *)

(** What [find_catapult_logs] prints. *)
Definition locate_output (w : world) (hls_dir : string) : list string :=
  stdout (snd (find_catapult_logs w hls_dir (mkState [] []))).

(** What [generate_report] prints. *)
Definition report_output (version : py_version)
    (design_runtimes : dict (dict float)) : list string :=
  [(newline ++ "HLS Runtime Summary:")%string;
   "------------------------------------------------------------"]
  ++ map (report_line version) (sorted_items design_runtimes).

(** A float that is a runtime: zero, a positive number or the positive
    infinity; not a negative number, not [-0.0], not a NaN. *)
Definition nonneg_float (x : float) : bool :=
  match x with
  | S754_zero false | S754_infinity false | S754_finite false _ _ => true
  | _ => false
  end.

(** Every value of a mapping is a runtime in that sense. *)
Definition all_nonneg (d : dict float) : Prop :=
  Forall (fun x => nonneg_float x = true) (dict_values d).

(** [two_digits] writes its number: the two digits, read back, give it. *)
Definition two_digits_reads_back (n : N) : bool :=
  match two_digits n with
  | String a (String b EmptyString) =>
      is_digit a && is_digit b && (10 * digit_val a + digit_val b =? n)%N
  | _ => false
  end.

(** [ks] is [steps] with some steps left out, the order kept. *)
Fixpoint subseq (ks steps : list string) : bool :=
  match ks, steps with
  | [], _ => true
  | _ :: _, [] => false
  | k :: ks', s :: steps' =>
      if String.eqb k s then subseq ks' steps' else subseq ks steps'
  end.

(** The entries the loop of [main] adds for logs of distinct designs: one
    for each log whose parse is not empty, in the order of the logs. *)
Definition kept (w : world) (logfiles : list (string * string))
  : dict (dict float) :=
  map (fun l : string * string => (fst l, parse_result w (snd l)))
      (filter (fun l : string * string => truthy (parse_result w (snd l)))
              logfiles).

(** A part of a path: not empty, not ["."], and without ['/']. *)
Definition no_slash (s : string) : bool :=
  all_chars (fun c => negb (Ascii.eqb c "/")) s.

Definition part_ok (s : string) : bool :=
  negb (String.eqb s "" || String.eqb s ".") && no_slash s.

(** A path as [Path] makes them: parts that are not empty, not ["."] and
    without a slash, after the anchor if there is one. *)
Definition anchor (a : string) : Prop := a = "/" \/ a = "//".

Inductive wf_path : path -> Prop :=
  | wf_relative (p : path) :
      Forall (fun k => part_ok k = true) p -> wf_path p
  | wf_absolute (a : string) (p : path) :
      anchor a -> Forall (fun k => part_ok k = true) p -> wf_path (a :: p).

(** A name an entry of a directory can have: a part that is not [".."],
    has no null character and is not longer than the file system
    allows. *)
Definition name_ok (name_max : nat) (s : string) : bool :=
  part_ok s && negb (String.eqb s "..") && negb (has_nul s)
  && (byte_length s <=? name_max)%nat.

(** Every entry of the tree has such a name. *)
Fixpoint names_ok (name_max : nat) (n : node) : bool :=
  match n with
  | File _ => true
  | Dir es =>
      (fix all (l : list (string * node)) : bool :=
         match l with
         | [] => true
         | (k, c) :: l' => name_ok name_max k && names_ok name_max c && all l'
         end) es
  end.

(** The directory at [here], [depth] directories below the starting
    point of the walk, can be visited: it is not deeper than the
    recursion limit allows, and the path of its entry called [name] is
    one [stat] takes. *)
Definition within_limits (w : world) (name : string) (depth : nat)
    (here : path) : Prop :=
  (forall limit, w_depth_max w = Some limit -> depth <= limit) /\
  byte_length (path_str (path_child here name)) < w_path_max w /\
  byte_length name <= w_name_max w.

(** A world that can be: names are distinct in every directory and are
    names, and the working directory is a directory of the tree. *)
Definition wf_world (w : world) : bool :=
  wf_node (w_root w) && names_ok (w_name_max w) (w_root w)
  && match descend (w_root w) (w_cwd w) with
     | Found (Dir _) => true
     | _ => false
     end.

(** [s] begins with the words "elapsed time", white space, the token
    [tok], white space and the word "second": the shape of
    [elapsed_shape], at the very start of [s]. *)
Definition elapsed_at (s tok : string) : Prop :=
  exists e w1 w2 sec rest : string,
    s = (e ++ w1 ++ tok ++ w2 ++ sec ++ rest)%string /\
    lower e = "elapsed time" /\
    w1 <> "" /\ all_chars is_space w1 = true /\
    tok <> "" /\ all_chars is_digit_or_dot tok = true /\
    w2 <> "" /\ all_chars is_space w2 = true /\
    lower sec = "second".

(** A log without any completion line. *)
Definition log_silent : file_data :=
  mkFile
    [ "# Info: Starting transformation 'compile' on solution 'top.v1'";
      "# Warning: slow step, elapsed time 3.0 seconds" ]
    None.

(** A tree whose logs give no runtime. *)
Definition barren_world : world :=
  linux
    (Dir [ ("work",
      Dir [ ("hls",
            Dir [ ("silent", Dir [ ("catapult.log", File log_silent) ]);
                  ("odd", Dir [ ("catapult.log", File log_malformed) ]) ]) ]) ]).

(* ================================================================= *)
(** * Properties *)

(** ** Text *)

Section TextFacts.

Local Open Scope string_scope.

Lemma app_str_assoc (a b c : string) : (a ++ b) ++ c = a ++ (b ++ c).
Proof. induction a as [|x a IH]; simpl; [reflexivity | now rewrite IH]. Qed.

Lemma app_str_eq_nil (a b : string) : a ++ b = "" -> a = "" /\ b = "".
Proof. destruct a; simpl; [auto | discriminate]. Qed.

Lemma lower_app (a b : string) : lower (a ++ b) = lower a ++ lower b.
Proof. induction a as [|x a IH]; simpl; [reflexivity | now rewrite IH]. Qed.

Lemma lower_split (s x y : string) :
  lower s = x ++ y ->
  exists s1 s2, s = s1 ++ s2 /\ lower s1 = x /\ lower s2 = y.
Proof.
  revert s; induction x as [|c x IH]; intros s H.
  - exists "", s. auto.
  - destruct s as [|d s]; simpl in H; [discriminate|].
    injection H as Hc Hs.
    destruct (IH _ Hs) as (s1 & s2 & -> & H1 & H2).
    exists (String d s1), s2. simpl. now rewrite Hc, H1.
Qed.

Lemma starts_with_iff (p s : string) :
  starts_with p s = true <-> exists r, s = p ++ r.
Proof.
  revert s; induction p as [|a p IH]; intros s; simpl.
  - split; [intros _; now exists s | reflexivity].
  - destruct s as [|b s].
    + split; [discriminate | intros [r H]; discriminate].
    + rewrite andb_true_iff, Ascii.eqb_eq, IH. split.
      * intros [-> [r ->]]. now exists r.
      * intros [r H]. injection H as -> ->. split; [reflexivity | now exists r].
Qed.

Lemma contains_iff (sub s : string) :
  contains sub s = true <-> exists a c, s = a ++ sub ++ c.
Proof.
  induction s as [|x s IH]; simpl.
  - destruct (starts_with sub "") eqn:E.
    + apply starts_with_iff in E. destruct E as [r E].
      split; [intros _; now exists "", r | reflexivity].
    + split; [discriminate|]. intros (a & c & H).
      symmetry in H. apply app_str_eq_nil in H. destruct H as [-> H].
      apply app_str_eq_nil in H. destruct H as [-> ->].
      simpl in E. discriminate.
  - destruct (starts_with sub (String x s)) eqn:E.
    + apply starts_with_iff in E. destruct E as [r E].
      split; [intros _; now exists "", r | reflexivity].
    + rewrite IH. split.
      * intros (a & c & ->). now exists (String x a), c.
      * intros (a & c & H). destruct a as [|y a].
        -- simpl in H. assert (starts_with sub (String x s) = true)
             by (apply starts_with_iff; now exists c).
           congruence.
        -- simpl in H. injection H as _ ->. now exists a, c.
Qed.

(** [step in line.lower()] is an occurrence of [step] up to case. *)
Lemma contains_lower_iff (sub line : string) :
  contains sub (lower line) = true <-> occurs_ci sub line.
Proof.
  rewrite contains_iff. unfold occurs_ci. split.
  - intros (a & c & H).
    apply lower_split in H. destruct H as (a' & r & -> & Ha & H).
    apply lower_split in H. destruct H as (b' & c' & -> & Hb & Hc).
    now exists a', b', c'.
  - intros (a & b & c & -> & <-). exists (lower a), (lower c).
    now rewrite !lower_app.
Qed.

Lemma lower_length (s : string) : String.length (lower s) = String.length s.
Proof. induction s as [|x s IH]; simpl; [reflexivity | now rewrite IH]. Qed.

End TextFacts.

(** ** The regular expression *)

Section RegexFacts.

Local Open Scope string_scope.

Lemma chars_length (s : string) : List.length (chars s) = String.length s.
Proof. induction s; simpl; congruence. Qed.

(** A literal consumes exactly a word equal to it up to case. *)
Lemma match_lit_inv (w : string) (p : pattern) (s : string) (m : list string) :
  match_here (lit_ci w ++ p)%list s = Some m ->
  exists e s' m', s = e ++ s' /\ lower e = lower w /\
                  match_here p s' = Some m' /\ m = (chars e ++ m')%list.
Proof.
  revert s m; induction w as [|c w IH]; intros s m H.
  - exists "", s, m. auto.
  - simpl in H. destruct s as [|x s]; [discriminate|].
    unfold ci in H at 1.
    destruct (Ascii.eqb (lower_char x) (lower_char c)) eqn:E; [|discriminate].
    apply Ascii.eqb_eq in E.
    destruct (match_here (lit_ci w ++ p)%list s) as [m0|] eqn:H0; [|discriminate].
    injection H as <-.
    destruct (IH _ _ H0) as (e & s' & m' & -> & He & Hm & ->).
    exists (String x e), s', m'. simpl. rewrite E, He. auto.
Qed.

Lemma match_lit (w : string) (p : pattern) (e s' : string) :
  lower e = lower w ->
  match_here (lit_ci w ++ p)%list (e ++ s')
  = option_map (app (chars e)) (match_here p s').
Proof.
  revert e; induction w as [|c w IH]; intros e He.
  - destruct e; [|discriminate]. simpl. now destruct (match_here p s').
  - destruct e as [|x e]; [discriminate|]. simpl in He. injection He as Hx He.
    simpl. unfold ci at 1. rewrite Hx, Ascii.eqb_refl, (IH _ He).
    now destruct (match_here p s').
Qed.

(** A greedy [+] consumes a non-empty run of its class. *)
Lemma match_many_inv (f : ascii -> bool) (p : pattern) (s : string)
    (m : list string) :
  match_here (mkItem f Many :: p) s = Some m ->
  exists t s' m', s = t ++ s' /\ t <> "" /\ all_chars f t = true /\
                  match_here p s' = Some m' /\ m = t :: m'.
Proof.
  simpl.
  match goal with |- context [option_map _ (?F s)] => set (many := F) end.
  assert (G : forall s t r, many s = Some (t, r) ->
            exists s', s = t ++ s' /\ t <> "" /\ all_chars f t = true /\
                       match_here p s' = Some r).
  { clear s m. induction s as [|c s IH]; intros t r H; simpl in H.
    - discriminate.
    - destruct (f c) eqn:Fc; [|discriminate].
      destruct (many s) as [[t0 r0]|] eqn:Hm.
      + injection H as <- <-. destruct (IH _ _ eq_refl) as (s' & -> & Ht & Ha & Hr).
        exists s'. simpl. rewrite Fc, Ha. repeat split; auto. discriminate.
      + destruct (match_here p s) as [r0|] eqn:Hp; [|discriminate].
        injection H as <- <-. exists s. simpl. rewrite Fc.
        repeat split; auto. discriminate. }
  intros H. destruct (many s) as [[t r]|] eqn:Hm; [|discriminate].
  injection H as <-. destruct (G _ _ _ Hm) as (s' & -> & Ht & Ha & Hr).
  now exists t, s', r.
Qed.

Lemma match_many (f : ascii -> bool) (p : pattern) (t s' : string) :
  t <> "" -> all_chars f t = true -> match_here p s' <> None ->
  match_here (mkItem f Many :: p) (t ++ s') <> None.
Proof.
  intros Ht Ha Hp. simpl.
  match goal with |- context [option_map _ (?F _)] => set (many := F) end.
  assert (G : many (t ++ s') <> None).
  { induction t as [|c t IH]; [congruence|].
    simpl in Ha. apply andb_true_iff in Ha. destruct Ha as [Fc Ha].
    simpl. rewrite Fc. destruct (many (t ++ s')) as [[t0 r0]|] eqn:Hm.
    - discriminate.
    - destruct t as [|d t].
      + simpl in *. destruct (match_here p s'); [discriminate | congruence].
      + exfalso. apply IH; auto. discriminate. }
  destruct (many (t ++ s')); [discriminate | congruence].
Qed.

(** A final optional item never makes the match fail. *)
Lemma match_opt_last (f : ascii -> bool) (s : string) :
  match_here [mkItem f Opt] s <> None.
Proof.
  simpl. destruct s as [|c s]; [discriminate|]. destruct (f c); discriminate.
Qed.

Lemma re_search_inv (p : pattern) (s : string) (m : list string) :
  re_search p s = Some m ->
  exists pre s', s = pre ++ s' /\ match_here p s' = Some m.
Proof.
  induction s as [|c s IH]; simpl; intros H.
  - destruct (match_here p "") eqn:E; [|discriminate].
    injection H as <-. now exists "", "".
  - destruct (match_here p (String c s)) eqn:E.
    + injection H as <-. now exists "", (String c s).
    + destruct (IH H) as (pre & s' & -> & Hm). now exists (String c pre), s'.
Qed.

Lemma re_search_complete (p : pattern) (pre s' : string) :
  match_here p s' <> None -> re_search p (pre ++ s') <> None.
Proof.
  intros H. induction pre as [|c pre IH]; simpl.
  - destruct s' as [|c s']; simpl; destruct (match_here p _); congruence.
  - destruct (match_here p (String c (pre ++ s'))); [discriminate | exact IH].
Qed.

(** A match of [runtime_pattern] exhibits the shape, and group 1 is its
    token. *)
Lemma runtime_pattern_sound (line : string) (m : list string) :
  re_search runtime_pattern line = Some m -> elapsed_shape line (group_1 m).
Proof.
  intros H. apply re_search_inv in H. destruct H as (pre & s0 & -> & H).
  unfold runtime_pattern in H.
  apply match_lit_inv in H. destruct H as (e & s1 & m1 & -> & He & H & ->).
  cbn [app] in H.
  apply match_many_inv in H. destruct H as (w1 & s2 & m2 & -> & Hw1 & Aw1 & H & ->).
  apply match_many_inv in H. destruct H as (tok & s3 & m3 & -> & Ht & At & H & ->).
  apply match_many_inv in H. destruct H as (w2 & s4 & m4 & -> & Hw2 & Aw2 & H & ->).
  apply match_lit_inv in H. destruct H as (sec & s5 & m5 & -> & Hs & H & ->).
  assert (Hg : group_1 (chars e ++ w1 :: tok :: w2 :: chars sec ++ m5)%list = tok).
  { unfold group_1, group1.
    assert (L : List.length (chars e) = 12)
      by (now rewrite chars_length, <- lower_length, He).
    rewrite app_nth2 by lia. rewrite L. reflexivity. }
  rewrite Hg. exists pre, e, w1, w2, sec, s5. repeat split; auto.
Qed.

Lemma runtime_pattern_complete (line tok : string) :
  elapsed_shape line tok -> re_search runtime_pattern line <> None.
Proof.
  intros (pre & e & w1 & w2 & sec & rest & -> & He & Hw1 & Aw1 & Ht & At
          & Hw2 & Aw2 & Hs).
  apply re_search_complete. unfold runtime_pattern.
  rewrite match_lit by exact He.
  cbn [app].
  match goal with |- option_map _ ?x <> None =>
    assert (x <> None); [|destruct x; [discriminate | congruence]] end.
  apply match_many; auto. apply match_many; auto. apply match_many; auto.
  rewrite match_lit by exact Hs.
  match goal with |- option_map _ ?x <> None =>
    assert (x <> None); [|destruct x; [discriminate | congruence]] end.
  apply match_opt_last.
Qed.

End RegexFacts.

(** ** Dictionaries *)

Section DictFacts.

Context {V : Type}.
Implicit Types (d : dict V) (k : string) (v : V).

Lemma dict_get_set_same d k v : dict_get (dict_set d k v) k = Some v.
Proof.
  induction d as [|[k' v'] d IH]; simpl.
  - now rewrite String.eqb_refl.
  - destruct (String.eqb k' k) eqn:E; simpl; rewrite E; auto.
Qed.

Lemma dict_get_set_other d k v k0 :
  k0 <> k -> dict_get (dict_set d k v) k0 = dict_get d k0.
Proof.
  intros N. induction d as [|[k' v'] d IH]; simpl.
  - destruct (String.eqb_spec k k0); congruence.
  - destruct (String.eqb_spec k' k) as [->|N']; simpl.
    + destruct (String.eqb_spec k k0); congruence.
    + destruct (String.eqb_spec k' k0); auto.
Qed.

Lemma dict_get_none_keys d k : dict_get d k = None <-> ~ In k (dict_keys d).
Proof.
  induction d as [|[k' v'] d IH]; simpl.
  - tauto.
  - destruct (String.eqb_spec k' k) as [->|N].
    + split; [discriminate | tauto].
    + rewrite IH. tauto.
Qed.

Lemma dict_keys_set d k v :
  dict_keys (dict_set d k v)
  = if dict_mem d k then dict_keys d else (dict_keys d ++ [k])%list.
Proof.
  unfold dict_mem. induction d as [|[k' v'] d IH]; simpl.
  - reflexivity.
  - destruct (String.eqb_spec k' k) as [->|N]; simpl.
    + reflexivity.
    + rewrite IH. now destruct (dict_get d k).
Qed.

Lemma dict_set_nodup d k v : NoDup (dict_keys d) -> NoDup (dict_keys (dict_set d k v)).
Proof.
  intros H. rewrite dict_keys_set. unfold dict_mem.
  destruct (dict_get d k) eqn:E; auto.
  apply dict_get_none_keys in E.
  apply NoDup_app; auto.
  - constructor; [intros [] | constructor].
  - intros x Hx [<-|[]]. contradiction.
Qed.

End DictFacts.

(** ** One line of the log *)

Section LineFacts.

Lemma py_float_raise (tok : string) (e : exn) :
  py_float tok = Raise e -> e_class e = ValueError.
Proof.
  unfold py_float. destruct (split_dot tok) as [ip fp].
  match goal with |- context [if ?c then _ else _] => destruct c end.
  - discriminate.
  - intros H. injection H as <-. reflexivity.
Qed.

(** [parse_runtime_from_line] returns: the only exception of its body is
    the [ValueError] that it catches. *)
Lemma parse_runtime_total (line : string) :
  exists r, parse_runtime_from_line line = Ok r.
Proof.
  unfold parse_runtime_from_line.
  destruct (re_search runtime_pattern line) as [m|]; [|now exists None].
  destruct (py_float (group_1 m)) as [v|e] eqn:E; [now exists (Some v)|].
  rewrite (py_float_raise _ _ E). now exists None.
Qed.

Lemma step_loop_find (steps : list string) (line : string) (d : dict float) :
  step_loop steps line d
  = match find (fun step => contains step (lower line)) steps with
    | None => Ok d
    | Some step =>
        match parse_runtime_from_line line with
        | Ok (Some v) => Ok (dict_set d step v)
        | Ok None => Ok d
        | Raise e => Raise e
        end
    end.
Proof.
  induction steps as [|step rest IH]; simpl; [reflexivity|].
  destruct (contains step (lower line)); [|exact IH].
  destruct (parse_runtime_from_line line) as [[v|]|e]; reflexivity.
Qed.

Lemma process_line_marks (d : dict float) (line step : string) (v : float) :
  marks line step v -> process_line d line = Ok (dict_set d step v).
Proof.
  intros (Hm & Hs & Hv). unfold process_line. rewrite Hm, step_loop_find.
  unfold first_step in Hs. now rewrite Hs, Hv.
Qed.

Lemma process_line_cases (d : dict float) (line : string) :
  process_line d line = Ok d \/
  exists step v, marks line step v /\ process_line d line = Ok (dict_set d step v).
Proof.
  unfold process_line. destruct (contains marker line) eqn:Hm; [|now left].
  rewrite step_loop_find.
  destruct (find _ expected_steps_parse) as [step|] eqn:Hs; [|now left].
  destruct (parse_runtime_total line) as [[v|] Hv]; rewrite Hv; [|now left].
  right. exists step, v. repeat split; auto.
Qed.

Lemma process_line_unmarked (d : dict float) (line : string) :
  (forall step v, ~ marks line step v) -> process_line d line = Ok d.
Proof.
  intros H. destruct (process_line_cases d line) as [E|(step & v & Hm & _)]; auto.
  now destruct (H step v).
Qed.

Lemma find_first_split {A : Type} (f : A -> bool) (l : list A) (x : A) :
  find f l = Some x <->
  exists before after, l = (before ++ x :: after)%list /\ f x = true /\
                       forall y, In y before -> f y = false.
Proof.
  induction l as [|a l IH]; simpl.
  - split; [discriminate|]. intros (b & c & H & _). now destruct b.
  - destruct (f a) eqn:Fa.
    + split.
      * intros H. injection H as <-. exists [], l. repeat split; auto. intros y [].
      * intros (b & c & H & Fx & Hb). destruct b as [|y b]; simpl in H.
        -- now injection H as ->.
        -- injection H as -> _. rewrite Hb in Fa by now left. discriminate.
    + rewrite IH. split.
      * intros (b & c & -> & Fx & Hb). exists (a :: b), c. repeat split; auto.
        intros y [<-|Hy]; auto.
      * intros (b & c & H & Fx & Hb). destruct b as [|y b]; simpl in H.
        -- injection H as -> _. congruence.
        -- injection H as -> ->. exists b, c. repeat split; auto.
           intros z Hz. apply Hb. now right.
Qed.

End LineFacts.

(** ** The scan of a file *)

Section ScanFacts.

Lemma scan_lines_app (l1 l2 : list string) (d : dict float) :
  scan_lines (l1 ++ l2) d
  = match scan_lines l1 d with
    | Ok d1 => scan_lines l2 d1
    | Raise e => Raise e
    end.
Proof.
  revert d; induction l1 as [|l l1 IH]; intros d; simpl; [reflexivity|].
  destruct (process_line d l); [apply IH | reflexivity].
Qed.

(** The scan of the lines never raises, and keeps the keys distinct. *)
Lemma scan_lines_ok (lines : list string) (d : dict float) :
  NoDup (dict_keys d) ->
  exists d', scan_lines lines d = Ok d' /\ NoDup (dict_keys d').
Proof.
  revert d; induction lines as [|l lines IH]; intros d N; simpl.
  - now exists d.
  - destruct (process_line_cases d l) as [E|(step & v & _ & E)]; rewrite E.
    + now apply IH.
    + apply IH. now apply dict_set_nodup.
Qed.

(** Lines that are not completion lines of [step] leave its value alone. *)
Lemma scan_lines_keep (lines : list string) (step : string) :
  (forall l v, In l lines -> ~ marks l step v) ->
  forall d d', scan_lines lines d = Ok d' -> dict_get d' step = dict_get d step.
Proof.
  induction lines as [|l lines IH]; intros H d d' E; simpl in E.
  - now injection E as <-.
  - destruct (process_line_cases d l) as [P|(s & v & Hm & P)]; rewrite P in E.
    + apply IH in E; auto. intros l0 v0 Hl. apply H. now right.
    + apply IH in E; [|intros l0 v0 Hl; apply H; now right].
      rewrite E. apply dict_get_set_other. intros <-.
      apply (H l v); [now left | exact Hm].
Qed.

Lemma scan_lines_last (before after : list string) (line step : string)
    (v : float) (d d' : dict float) :
  marks line step v ->
  (forall l v', In l after -> ~ marks l step v') ->
  scan_lines (before ++ line :: after) d = Ok d' ->
  dict_get d' step = Some v.
Proof.
  intros Hm Hafter E. rewrite scan_lines_app in E.
  destruct (scan_lines before d) as [d1|]; [|discriminate].
  simpl in E. rewrite (process_line_marks d1 _ _ _ Hm) in E.
  rewrite (scan_lines_keep after step Hafter _ _ E).
  apply dict_get_set_same.
Qed.

(** Every key of the scan result is an expected step. *)
Lemma scan_lines_keys (lines : list string) (d d' : dict float) :
  scan_lines lines d = Ok d' ->
  forall k, In k (dict_keys d') -> In k (dict_keys d) \/ In k expected_steps_parse.
Proof.
  revert d; induction lines as [|l lines IH]; intros d E k Hk; simpl in E.
  - injection E as <-. now left.
  - destruct (process_line_cases d l) as [P|(s & v & Hm & P)]; rewrite P in E.
    + eapply IH; eauto.
    + destruct (IH _ E k Hk) as [H|H]; auto.
      rewrite dict_keys_set in H. destruct (dict_mem d s); auto.
      apply in_app_or in H. destruct H as [H|[<-|[]]]; auto.
      right. destruct Hm as (_ & Hs & _). unfold first_step in Hs.
      apply find_some in Hs. tauto.
Qed.

End ScanFacts.

(** ** [parse_hls_runtimes] and the loop of [main] *)

Section ParseFacts.

Variable w : world.

Lemma scan_file_raise_iff (p : string) (e : exn) :
  scan_file w p = Raise e <-> read_failure w p e.
Proof.
  unfold scan_file, read_failure.
  destruct (open_read w p) as [f|e0].
  - destruct (scan_lines_ok (f_lines f) [] (NoDup_nil _)) as (d & -> & _).
    destruct (f_error f) as [e1|] eqn:E.
    + split.
      * intros H. injection H as <-. right. exists f. split; [reflexivity | exact E].
      * intros [H|(f' & H & H')]; [discriminate|].
        injection H as <-. congruence.
    + split; [discriminate|].
      intros [H|(f' & H & H')]; [discriminate|].
      injection H as <-. congruence.
  - split.
    + intros H. injection H as ->. now left.
    + intros [H|(f' & H & _)]; [now injection H as -> | discriminate].
Qed.

Lemma scan_file_ok (p : string) (f : file_data) :
  open_read w p = Ok f -> f_error f = None ->
  scan_file w p = scan_lines (f_lines f) [].
Proof.
  intros Ho He. unfold scan_file. rewrite Ho, He.
  now destruct (scan_lines (f_lines f) []).
Qed.

(** The whole behaviour of [parse_hls_runtimes]: it returns normally, with
    [parse_result], after printing [parse_output]. *)
Lemma parse_hls_runtimes_run (p : string) (st : state) :
  parse_hls_runtimes w p st
  = (Ok (parse_result w p),
     mkState (stdout st ++ parse_output w p) (files st)).
Proof.
  unfold parse_hls_runtimes, parse_result, parse_output, read_warning,
    missing_steps_of.
  unfold bind at 1, try_except, bind at 1, lift.
  destruct (scan_file w p) as [d|e]; cbn [ret].
  - destruct (truthy _); unfold bind, print, ret; cbn.
    + reflexivity.
    + destruct st. now rewrite app_nil_r.
  - destruct (e_class e); reflexivity.
Qed.

Lemma collect_run (logs : list (string * string)) (dr : dict (dict float))
    (st : state) :
  collect w logs dr st
  = (Ok (collected w logs dr),
     mkState (stdout st ++ collect_output w logs) (files st)).
Proof.
  revert dr st; induction logs as [|[d p] logs IH]; intros dr st.
  - cbn. destruct st. now rewrite app_nil_r.
  - cbn [collect]. unfold bind at 1, print. unfold bind at 1.
    rewrite parse_hls_runtimes_run. rewrite IH. cbn.
    now rewrite <- !app_assoc.
Qed.

Lemma collected_cons (l : string * string) (logs : list (string * string))
    (dr : dict (dict float)) :
  collected w (l :: logs) dr
  = collected w logs
      (if truthy (parse_result w (snd l))
       then dict_set dr (fst l) (parse_result w (snd l))
       else dr).
Proof. reflexivity. Qed.

Lemma collected_app (l1 l2 : list (string * string)) (dr : dict (dict float)) :
  collected w (l1 ++ l2) dr = collected w l2 (collected w l1 dr).
Proof. apply fold_left_app. Qed.

(** Files of other designs, and files that parse to nothing, do not
    touch the entry of [d]. *)
Lemma collected_keep (logs : list (string * string)) (d : string) :
  (forall p, In (d, p) logs -> parse_result w p = []) ->
  forall dr, dict_get (collected w logs dr) d = dict_get dr d.
Proof.
  induction logs as [|[d' p'] logs IH]; intros H dr; [reflexivity|].
  rewrite collected_cons, IH by (intros p Hp; apply H; now right). cbn [fst snd].
  destruct (truthy (parse_result w p')) eqn:T; [|reflexivity].
  apply dict_get_set_other. intros <-.
  rewrite (H p') in T by now left. discriminate.
Qed.

Lemma collected_nodup (logs : list (string * string)) (dr : dict (dict float)) :
  NoDup (dict_keys dr) -> NoDup (dict_keys (collected w logs dr)).
Proof.
  revert dr; induction logs as [|[d p] logs IH]; intros dr N; [exact N|].
  rewrite collected_cons. apply IH.
  destruct (truthy _); [now apply dict_set_nodup | exact N].
Qed.

End ParseFacts.

(** ** Sorting by name *)

Section OrderFacts.

Lemma ascii_compare_refl (a : ascii) : Ascii.compare a a = Eq.
Proof. apply N.compare_refl. Qed.

Lemma ascii_compare_lt_trans (a b c : ascii) :
  Ascii.compare a b = Lt -> Ascii.compare b c = Lt -> Ascii.compare a c = Lt.
Proof.
  unfold Ascii.compare. rewrite !N.compare_lt_iff. apply N.lt_trans.
Qed.

Lemma str_compare_lt_trans (a b c : string) :
  String.compare a b = Lt -> String.compare b c = Lt -> String.compare a c = Lt.
Proof.
  revert b c; induction a as [|x a IH]; intros [|y b] [|z c]; simpl;
    try discriminate; auto.
  destruct (Ascii.compare x y) eqn:Exy; try discriminate;
    destruct (Ascii.compare y z) eqn:Eyz; try discriminate; intros H1 H2.
  - apply Ascii.compare_eq_iff in Exy, Eyz. subst.
    rewrite ascii_compare_refl. eauto.
  - apply Ascii.compare_eq_iff in Exy. subst. now rewrite Eyz.
  - apply Ascii.compare_eq_iff in Eyz. subst. now rewrite Exy.
  - now rewrite (ascii_compare_lt_trans _ _ _ Exy Eyz).
Qed.

Lemma str_compare_refl (a : string) : String.compare a a = Eq.
Proof.
  induction a as [|x a IH]; simpl; [reflexivity|].
  now rewrite ascii_compare_refl.
Qed.

Lemma str_leb_trans (a b c : string) :
  String.leb a b = true -> String.leb b c = true -> String.leb a c = true.
Proof.
  unfold String.leb.
  destruct (String.compare a b) eqn:Eab; try discriminate;
    destruct (String.compare b c) eqn:Ebc; try discriminate; intros _ _.
  - apply String.compare_eq_iff in Eab, Ebc. subst. now rewrite str_compare_refl.
  - apply String.compare_eq_iff in Eab. subst. now rewrite Ebc.
  - apply String.compare_eq_iff in Ebc. subst. now rewrite Eab.
  - now rewrite (str_compare_lt_trans _ _ _ Eab Ebc).
Qed.

Context {V : Type}.

Lemma insert_sorted_perm (x : string * V) (l : list (string * V)) :
  Permutation (insert_sorted x l) (x :: l).
Proof.
  induction l as [|y l IH]; simpl; [reflexivity|].
  destruct (String.leb (fst x) (fst y)); [reflexivity|].
  rewrite IH. apply perm_swap.
Qed.

Lemma insert_sorted_sorted (x : string * V) (l : list (string * V)) :
  StronglySorted name_le l -> StronglySorted name_le (insert_sorted x l).
Proof.
  induction 1 as [|y l S IH F]; simpl.
  - repeat constructor.
  - destruct (String.leb (fst x) (fst y)) eqn:E.
    + constructor; [now constructor|]. constructor; [exact E|].
      eapply Forall_impl; [|exact F]. intros z Hz.
      exact (str_leb_trans _ _ _ E Hz).
    + constructor; [exact IH|].
      apply (Permutation_Forall (Permutation_sym (insert_sorted_perm x l))).
      constructor; [|exact F].
      destruct (String.leb_total (fst x) (fst y)) as [H|H]; [congruence | exact H].
Qed.

(** [sorted(d.items())] holds every item once, names ascending. *)
Lemma sorted_items_perm (d : dict V) : Permutation (sorted_items d) d.
Proof.
  induction d as [|x d IH]; simpl; [reflexivity|].
  rewrite insert_sorted_perm. now constructor.
Qed.

Lemma sorted_items_sorted (d : dict V) : StronglySorted name_le (sorted_items d).
Proof.
  induction d as [|x d IH]; simpl; [constructor | now apply insert_sorted_sorted].
Qed.

Lemma sorted_items_names (d : dict V) (k : string) :
  In k (map fst (sorted_items d)) <-> In k (dict_keys d).
Proof.
  unfold dict_keys. split; apply Permutation_in, Permutation_map.
  - apply sorted_items_perm.
  - apply Permutation_sym, sorted_items_perm.
Qed.

End OrderFacts.

(** ** The text report *)

Section ReportFacts.

Variable version : py_version.

Lemma report_loop_run (items : list (string * dict float)) (st : state) :
  report_loop version items st
  = (Ok tt, mkState (stdout st ++ map (report_line version) items) (files st)).
Proof.
  revert st; induction items as [|[name steps] items IH]; intros st.
  - cbn. destruct st. now rewrite app_nil_r.
  - cbn [report_loop]. unfold bind, print. rewrite IH. cbn.
    now rewrite <- app_assoc.
Qed.

Lemma generate_report_run (dr : dict (dict float)) (st : state) :
  generate_report version dr st
  = (Ok tt,
     mkState (stdout st
              ++ [(newline ++ "HLS Runtime Summary:")%string;
                  "------------------------------------------------------------"]
              ++ map (report_line version) (sorted_items dr))
             (files st)).
Proof.
  unfold generate_report, bind, print. rewrite report_loop_run. cbn.
  now rewrite <- !app_assoc.
Qed.

End ReportFacts.

(** ** Letters in any case, white space, digits *)

Section CaseFacts.

Local Open Scope string_scope.

Lemma all_ascii_complete (c : ascii) : In c all_ascii.
Proof.
  unfold all_ascii. rewrite <- (ascii_nat_embedding c).
  apply in_map, in_seq. pose proof (nat_ascii_bounded c). lia.
Qed.

Lemma for_all_ascii (P : ascii -> bool) :
  forallb P all_ascii = true -> forall c, P c = true.
Proof.
  intros H c. rewrite forallb_forall in H. apply H, all_ascii_complete.
Qed.

(** The same letter: the same character once in lower case. *)
Lemma same_letter_lower (x y : ascii) :
  same_letter x y = Ascii.eqb (lower_char x) (lower_char y).
Proof.
  apply Bool.eqb_prop. revert y.
  apply (for_all_ascii
           (fun y => Bool.eqb (same_letter x y)
                              (Ascii.eqb (lower_char x) (lower_char y)))).
  revert x.
  apply (for_all_ascii
           (fun x => forallb
                       (fun y => Bool.eqb (same_letter x y)
                                   (Ascii.eqb (lower_char x) (lower_char y)))
                       all_ascii)).
  vm_compute. reflexivity.
Qed.

Lemma same_word_lower (u word : string) :
  same_word u word = true <-> lower u = lower word.
Proof.
  revert word; induction u as [|a u IH]; intros [|b word]; simpl;
    try (split; [discriminate | discriminate]); [tauto|].
  rewrite andb_true_iff, same_letter_lower, Ascii.eqb_eq, IH. split.
  - now intros [-> ->].
  - intros H. now injection H.
Qed.

Lemma expected_steps_lower (step : string) :
  In step expected_steps_parse -> lower step = step.
Proof.
  intros H. unfold expected_steps_parse in H.
  repeat (destruct H as [<-|H]; [reflexivity|]). destruct H.
Qed.

Lemma occurs_any_case_iff (word s : string) :
  lower word = word -> (occurs_ci word s <-> occurs_any_case word s).
Proof.
  intros L. unfold occurs_ci, occurs_any_case.
  split; intros (a & b & c & E & H); exists a, b, c; (split; [exact E|]).
  - apply same_word_lower. congruence.
  - apply same_word_lower in H. congruence.
Qed.

Lemma every_char_all (f : ascii -> bool) (P : ascii -> Prop) :
  (forall c, f c = true <-> P c) ->
  forall s, all_chars f s = true <-> every_char P s.
Proof.
  intros FP. unfold every_char. induction s as [|x s IH]; simpl.
  - split; [|reflexivity]. intros _ [|? ?] c b E; discriminate.
  - rewrite andb_true_iff, IH, FP. split.
    + intros [Hx Hs] [|y a] c b E; simpl in E; injection E as -> E.
      * now subst.
      * eauto.
    + intros H. split.
      * apply (H "" x s). reflexivity.
      * intros a c b ->. apply (H (String x a) c b). reflexivity.
Qed.

Lemma is_space_white (c : ascii) : is_space c = true <-> white_space c.
Proof.
  unfold white_space.
  assert (E : is_space c
              = existsb (Nat.eqb (nat_of_ascii c))
                        [9; 10; 11; 12; 13; 28; 29; 30; 31; 32; 133; 160]).
  { apply Bool.eqb_prop. revert c.
    apply (for_all_ascii
             (fun c => Bool.eqb (is_space c)
                         (existsb (Nat.eqb (nat_of_ascii c))
                            [9; 10; 11; 12; 13; 28; 29; 30; 31; 32; 133; 160]))).
    vm_compute. reflexivity. }
  rewrite E, existsb_exists. split.
  - intros (n & Hin & Hn). apply Nat.eqb_eq in Hn. now subst.
  - intros H. eexists. split; [exact H | apply Nat.eqb_refl].
Qed.

Lemma is_digit_or_point (c : ascii) :
  is_digit_or_dot c = true <-> digit_or_point c.
Proof.
  unfold digit_or_point.
  assert (E : is_digit_or_dot c
              = ((48 <=? nat_of_ascii c) && (nat_of_ascii c <=? 57)
                 || (nat_of_ascii c =? 46))%nat).
  { apply Bool.eqb_prop. revert c.
    apply (for_all_ascii
             (fun c => Bool.eqb (is_digit_or_dot c)
                         ((48 <=? nat_of_ascii c) && (nat_of_ascii c <=? 57)
                          || (nat_of_ascii c =? 46))%nat)).
    vm_compute. reflexivity. }
  rewrite E, orb_true_iff, andb_true_iff, !Nat.leb_le, Nat.eqb_eq. tauto.
Qed.

Lemma elapsed_words_iff (line tok : string) :
  elapsed_shape line tok <-> elapsed_words line tok.
Proof.
  unfold elapsed_shape, elapsed_words.
  split; intros (pre & e & w1 & w2 & sec & rest & E & He & Hw1 & Aw1 & Ht & At
                 & Hw2 & Aw2 & Hs);
    exists pre, e, w1, w2, sec, rest; (split; [exact E|]).
  - repeat split; try assumption.
    + apply same_word_lower. now rewrite He.
    + now apply (every_char_all _ _ is_space_white).
    + now apply (every_char_all _ _ is_digit_or_point).
    + now apply (every_char_all _ _ is_space_white).
    + apply same_word_lower. now rewrite Hs.
  - repeat split; try assumption.
    + now apply same_word_lower in He.
    + now apply (every_char_all _ _ is_space_white).
    + now apply (every_char_all _ _ is_digit_or_point).
    + now apply (every_char_all _ _ is_space_white).
    + now apply same_word_lower in Hs.
Qed.

End CaseFacts.

(** ** The format [.2f] *)

Section FormatFacts.

Local Open Scope string_scope.

Lemma two_digits_shape (n : N) : (n < 100)%N -> two_digits_ok n = true.
Proof.
  intros H.
  assert (A : forallb two_digits_ok (map N.of_nat (seq 0 100)) = true)
    by (vm_compute; reflexivity).
  rewrite forallb_forall in A. apply A. apply in_map_iff.
  exists (N.to_nat n). split; [apply N2Nat.id|]. apply in_seq. lia.
Qed.

(** A finite float is printed with two decimals. *)
Lemma format_2f_two_decimals (x : float) :
  is_finite x = true -> two_decimals (format_2f x).
Proof.
  destruct x as [s|s| |s m e]; try discriminate; intros _; unfold format_2f.
  - exists (sign_str s ++ "0"), "0"%char, "0"%char.
    split; [now destruct s | split; reflexivity].
  - pose proof (two_digits_shape (scaled_hundredths m e mod 100)) as T.
    unfold two_digits_ok in T.
    destruct (two_digits (scaled_hundredths m e mod 100))
      as [|f1 [|f2 [|]]]; try (discriminate T; apply N.mod_lt; discriminate).
    assert (D : is_digit f1 && is_digit f2 = true)
      by (apply T, N.mod_lt; discriminate).
    apply andb_true_iff in D.
    exists (sign_str s ++ str_of_N (scaled_hundredths m e / 100)), f1, f2.
    split; [now rewrite app_str_assoc | exact D].
Qed.

End FormatFacts.

(** ** Numbers written and read back *)

Section DecimalFacts.

Local Open Scope string_scope.

Lemma digits_val_app (a b : string) :
  forall acc, digits_val acc (a ++ b) = digits_val (digits_val acc a) b.
Proof. induction a as [|c a IH]; intros acc; simpl; auto. Qed.

Lemma digits_val_uint_acc (d : Decimal.uint) :
  forall acc : positive,
    digits_val (Npos acc) (NilEmpty.string_of_uint d)
    = Npos (Pos.of_uint_acc d acc).
Proof.
  induction d; intros acc; cbn [NilEmpty.string_of_uint digits_val Pos.of_uint_acc];
    try reflexivity; rewrite <- IHd; f_equal; vm_compute digit_val; lia.
Qed.

Lemma digits_val_uint (d : Decimal.uint) :
  digits_val 0 (NilEmpty.string_of_uint d) = Pos.of_uint d.
Proof.
  induction d; cbn [NilEmpty.string_of_uint digits_val Pos.of_uint];
    try reflexivity; try exact IHd;
    rewrite <- digits_val_uint_acc; f_equal.
Qed.

(** [str(n)], read back as a number, is [n]. *)
Lemma digits_val_str_of_N (n : N) : digits_val 0 (str_of_N n) = n.
Proof.
  unfold str_of_N. rewrite digits_val_uint. apply DecimalN.Unsigned.of_to.
Qed.

Lemma all_digits_uint (d : Decimal.uint) :
  all_chars is_digit (NilEmpty.string_of_uint d) = true.
Proof. induction d; simpl; auto. Qed.

Lemma str_of_N_not_empty (n : N) : str_of_N n <> "".
Proof.
  intros E. pose proof (digits_val_str_of_N n) as D. rewrite E in D.
  simpl in D. subst n. discriminate E.
Qed.

Lemma digit_is_no_point (c : ascii) :
  is_digit c = true -> Ascii.eqb c "." = false.
Proof.
  intros H. destruct (Ascii.eqb_spec c ".") as [->|]; [discriminate H|reflexivity].
Qed.

Lemma split_dot_digits (a b : string) :
  all_chars is_digit a = true ->
  split_dot (a ++ String "." b) = (a, Some b).
Proof.
  induction a as [|c a IH]; simpl; intros H; [reflexivity|].
  apply andb_true_iff in H. destruct H as [Hc Ha].
  now rewrite (digit_is_no_point _ Hc), (IH Ha).
Qed.

Lemma two_digits_value (n : N) :
  (n < 100)%N -> two_digits_reads_back n = true.
Proof.
  intros H.
  assert (A : forallb two_digits_reads_back (map N.of_nat (seq 0 100)) = true)
    by (vm_compute; reflexivity).
  rewrite forallb_forall in A. apply A. apply in_map_iff.
  exists (N.to_nat n). split; [apply N2Nat.id|]. apply in_seq. lia.
Qed.

End DecimalFacts.

(** ** Fields and rounding to hundredths *)

Section FieldFacts.

Local Open Scope string_scope.

Lemma str_app_length (a b : string) :
  String.length (a ++ b) = String.length a + String.length b.
Proof. induction a as [|c a IH]; simpl; [reflexivity | now rewrite IH]. Qed.

Lemma spaces_length (n : nat) : String.length (spaces n) = n.
Proof. induction n as [|n IH]; simpl; [reflexivity | now rewrite IH]. Qed.

Lemma blanks_spaces (n : nat) : blanks (spaces n).
Proof.
  unfold blanks.
  apply (every_char_all (Ascii.eqb " ") (fun c => c = " "%char)).
  - intros c. rewrite Ascii.eqb_eq. split; congruence.
  - induction n as [|n IH]; simpl; auto.
Qed.

Lemma ljust_field (width : nat) (text : string) :
  left_in_field width text (ljust width text).
Proof.
  exists (spaces (width - String.length text)). split; [reflexivity|].
  split; [apply blanks_spaces|].
  unfold ljust. rewrite str_app_length, spaces_length. lia.
Qed.

Lemma rjust_field (width : nat) (text : string) :
  right_in_field width text (rjust width text).
Proof.
  exists (spaces (width - String.length text)). split; [reflexivity|].
  split; [apply blanks_spaces|].
  unfold rjust. rewrite str_app_length, spaces_length. lia.
Qed.

(** The integer the format and [round] go through is the nearest to a
    hundred times the number, the even one in a tie. *)
Lemma scaled_hundredths_nearest (m : positive) (e : Z) :
  nearest_hundredths m e (scaled_hundredths m e).
Proof.
  unfold nearest_hundredths, scaled_hundredths. destruct e as [|pe|pe].
  - split; [intros _ | lia]. rewrite Z2N.id by lia. lia.
  - split; [intros _ | lia].
    assert (0 < 2 ^ Z.pos pe)%Z by (apply Z.pow_pos_nonneg; lia).
    rewrite Z2N.id by nia. lia.
  - split; [lia|]. intros _.
    change (- Z.neg pe)%Z with (Z.pos pe).
    set (den := (2 ^ Z.pos pe)%Z).
    assert (D : (0 < den)%Z) by (apply Z.pow_pos_nonneg; lia).
    pose proof (Z.div_mod (Z.pos m * 100) den ltac:(lia)) as E.
    pose proof (Z.mod_pos_bound (Z.pos m * 100) den D) as B.
    assert (Q : (0 <= Z.pos m * 100 / den)%Z) by (apply Z.div_pos; lia).
    set (q := (Z.pos m * 100 / den)%Z) in *.
    set (r := ((Z.pos m * 100) mod den)%Z) in *.
    destruct (Z.compare_spec (2 * r) den) as [C|C|C].
    + destruct (Z.even q) eqn:Ev.
      * rewrite Z2N.id by lia. split; [lia | intros _; exact Ev].
      * rewrite Z2N.id by lia. split; [lia|]. intros _.
        rewrite Z.even_add, Ev. reflexivity.
    + rewrite Z2N.id by lia. split; lia.
    + rewrite Z2N.id by lia. split; lia.
Qed.

Lemma is_digit_range (c : ascii) :
  is_digit c = true <-> 48 <= nat_of_ascii c <= 57.
Proof. unfold is_digit. rewrite andb_true_iff, !Nat.leb_le. tauto. Qed.

(** The format [.2f] of a finite number other than zero: its sign, and
    the nearest number of hundredths written with two decimals. *)
Lemma format_2f_text (s : bool) (m : positive) (e : Z) :
  exists text,
    format_2f (S754_finite s m e) = sign_str s ++ text /\
    hundredths_text text (scaled_hundredths m e).
Proof.
  unfold format_2f. set (h := scaled_hundredths m e).
  exists (str_of_N (h / 100) ++ "." ++ two_digits (h mod 100)).
  split; [reflexivity|].
  pose proof (two_digits_value (h mod 100)) as T.
  unfold two_digits_reads_back in T.
  destruct (two_digits (h mod 100)) as [|a [|b [|]]];
    try (discriminate T; apply N.mod_lt; discriminate).
  assert (D : is_digit a && is_digit b
              && (10 * digit_val a + digit_val b =? h mod 100)%N = true)
    by (apply T, N.mod_lt; discriminate).
  apply andb_true_iff in D. destruct D as [D V].
  apply andb_true_iff in D. destruct D as [Da Db]. apply N.eqb_eq in V.
  exists (str_of_N (h / 100)), a, b.
  split; [reflexivity|]. split; [apply str_of_N_not_empty|].
  split; [apply (every_char_all _ _ is_digit_range), all_digits_uint|].
  split; [now apply is_digit_range|]. split; [now apply is_digit_range|].
  rewrite digits_val_app, digits_val_str_of_N. cbn [digits_val].
  rewrite (N.div_mod h 100) at 2 by discriminate. lia.
Qed.

(** [round(x, 2)] of a finite number other than zero: the float nearest
    to the nearest number of hundredths, with the sign of [x]. *)
Lemma round2_finite (s : bool) (m : positive) (e : Z) :
  round2 (S754_finite s m e)
  = let r := match scaled_hundredths m e with
             | N0 => S754_zero false
             | Npos p => SFdiv 53 1024 (S754_finite false p 0)
                                       (S754_finite false 100 0)
             end in
    if s then SFopp r else r.
Proof. reflexivity. Qed.

End FieldFacts.

(** ** The export *)

Section ExportFacts.

Lemma dict_set_set {V : Type} (d : dict V) (k : string) (v v' : V) :
  dict_set (dict_set d k v) k v' = dict_set d k v'.
Proof.
  induction d as [|[k0 v0] d IH]; simpl.
  - now rewrite String.eqb_refl.
  - destruct (String.eqb k0 k) eqn:E; simpl; rewrite E; [reflexivity|].
    now rewrite IH.
Qed.

Lemma dict_mem_keys {V : Type} (d : dict V) (k : string) :
  dict_mem d k = existsb (String.eqb k) (dict_keys d).
Proof.
  unfold dict_mem. induction d as [|[k0 v0] d IH]; simpl; [reflexivity|].
  rewrite (String.eqb_sym k k0). destruct (String.eqb k0 k); simpl; auto.
Qed.

Lemma row_steps_total (steps : list string) (sr : dict float)
    (row : dict cell) (t : float) :
  snd (row_steps steps sr row t)
  = fold_left fadd
      (flat_map (fun step => match dict_get sr step with
                             | Some v => [v]
                             | None => []
                             end) steps) t.
Proof.
  revert row t; induction steps as [|s steps IH]; intros row t; simpl;
    [reflexivity|].
  destruct (dict_get sr s) as [v|]; simpl; apply IH.
Qed.

Lemma row_steps_get (steps : list string) (sr : dict float)
    (row : dict cell) (t : float) (k : string) :
  dict_get (fst (row_steps steps sr row t)) k
  = if existsb (String.eqb k) steps then Some (step_cell sr k)
    else dict_get row k.
Proof.
  revert row t; induction steps as [|s steps IH]; intros row t; simpl;
    [reflexivity|].
  assert (G : forall c t',
             step_cell sr s = c ->
             dict_get (fst (row_steps steps sr (dict_set row s c) t')) k
             = if String.eqb k s || existsb (String.eqb k) steps
               then Some (step_cell sr k) else dict_get row k).
  { intros c t' Hc. rewrite IH.
    destruct (String.eqb_spec k s) as [->|N]; simpl.
    - rewrite dict_get_set_same, Hc. now destruct (existsb _ steps).
    - now rewrite dict_get_set_other. }
  unfold step_cell in G.
  destruct (dict_get sr s) as [v|]; now apply G.
Qed.

Lemma row_steps_keys (steps : list string) (sr : dict float)
    (row : dict cell) (t : float) :
  dict_keys (fst (row_steps steps sr row t))
  = fold_left add_key steps (dict_keys row).
Proof.
  revert row t; induction steps as [|s steps IH]; intros row t; simpl;
    [reflexivity|].
  destruct (dict_get sr s) as [v|]; rewrite IH, dict_keys_set, dict_mem_keys;
    reflexivity.
Qed.

Lemma make_row_get (steps : list string) (name : string) (sr : dict float)
    (k : string) :
  dict_get (make_row steps name sr) k
  = if String.eqb k "total_runtime"
    then Some (CFloat (round2 (present_total steps sr)))
    else if existsb (String.eqb k) steps then Some (step_cell sr k)
    else if String.eqb "design" k then Some (CStr name)
    else None.
Proof.
  unfold make_row.
  pose proof (row_steps_total steps sr [("design", CStr name)] fzero) as T.
  pose proof (row_steps_get steps sr [("design", CStr name)] fzero k) as G.
  destruct (row_steps steps sr [("design", CStr name)] fzero) as [row t].
  cbn [fst snd] in T, G. subst t.
  destruct (String.eqb_spec k "total_runtime") as [->|N].
  - now rewrite dict_get_set_same.
  - rewrite dict_get_set_other by exact N. exact G.
Qed.

Lemma make_row_keys (steps : list string) (name : string) (sr : dict float) :
  dict_keys (make_row steps name sr)
  = add_key (fold_left add_key steps ["design"]) "total_runtime".
Proof.
  unfold make_row.
  pose proof (row_steps_keys steps sr [("design", CStr name)] fzero) as K.
  destruct (row_steps steps sr [("design", CStr name)] fzero) as [row t].
  cbn [fst] in K. rewrite dict_keys_set, dict_mem_keys, K. reflexivity.
Qed.

(** The cells [DictWriter] writes for the row of one design. *)
Lemma row_cells (item : string * dict float) :
  dict_to_list (["design"; "total_runtime"] ++ expected_steps_export)
               (make_row expected_steps_export (fst item) (snd item))
  = Ok (csv_row item).
Proof.
  unfold dict_to_list. rewrite make_row_keys.
  replace (forallb _ _) with true by reflexivity.
  unfold csv_row. f_equal. unfold expected_steps_export. cbn [app map].
  rewrite !make_row_get. reflexivity.
Qed.

Lemma rows_of_with_file (st : state) (p : string) (rows : list (list cell)) :
  rows_of (with_file st p rows) p = rows.
Proof. unfold rows_of, with_file. cbn. now rewrite dict_get_set_same. Qed.

Lemma with_file_again (st : state) (p : string) (r1 r2 : list (list cell)) :
  with_file (with_file st p r1) p r2 = with_file st p r2.
Proof. unfold with_file. cbn. now rewrite dict_set_set. Qed.

(** How many rows the file at a path takes, when writing to it fails
    after the [open]. *)
Lemma write_fails_cases (w : world) (p : string) (st : state) :
  write_fails w p st
  = match w_write_error w p with
    | Some (FailAfter n e) =>
        if (n <=? List.length (rows_of st p))%nat then Some e else None
    | _ => None
    end.
Proof. reflexivity. Qed.

Lemma write_row_run (w : world) (st : state) (p : string)
    (rows : list (list cell)) (row : list cell) :
  write_fails w p (with_file st p rows) = None ->
  write_row w p row (with_file st p rows)
  = (Ok tt, with_file st p (rows ++ [row])).
Proof.
  intros H. unfold write_row. rewrite H, rows_of_with_file.
  fold (with_file (with_file st p rows) p (rows ++ [row])).
  now rewrite with_file_again.
Qed.

Lemma write_row_fail (w : world) (st : state) (p : string) (row : list cell)
    (e : exn) :
  write_fails w p st = Some e -> write_row w p row st = (Raise e, st).
Proof. intros H. unfold write_row. now rewrite H. Qed.

(** The row loop on a file that takes every row. *)
Lemma export_loop_run (w : world) (items : list (string * dict float))
    (st : state) (p : string) (rows : list (list cell)) :
  (forall e, w_write_error w p <> Some e \/ exists e', e = FailOpen e') ->
  export_loop w p (["design"; "total_runtime"] ++ expected_steps_export)
              expected_steps_export items (with_file st p rows)
  = (Ok tt, with_file st p (rows ++ map csv_row items)).
Proof.
  intros H.
  assert (N : forall st', write_fails w p st' = None).
  { intros st'. rewrite write_fails_cases.
    destruct (w_write_error w p) as [[e'|n e']|]; try reflexivity.
    destruct (H (FailAfter n e')) as [C|[e'' C]]; congruence. }
  revert rows; induction items as [|[name sr] items IH]; intros rows.
  - cbn. now rewrite app_nil_r.
  - cbn [export_loop]. unfold bind at 1, writerow, bind at 1, lift.
    pose proof (row_cells (name, sr)) as R. cbn [fst snd] in R.
    rewrite R, write_row_run, IH by apply N.
    cbn [map]. now rewrite <- app_assoc.
Qed.

(** The row loop on a file that takes [n] rows and no more. *)
Lemma export_loop_fault (w : world) (items : list (string * dict float))
    (st : state) (p : string) (n : nat) (e : exn) :
  w_write_error w p = Some (FailAfter n e) ->
  forall rows : list (list cell),
    List.length rows <= n ->
    export_loop w p (["design"; "total_runtime"] ++ expected_steps_export)
                expected_steps_export items (with_file st p rows)
    = if (List.length rows + List.length items <=? n)%nat
      then (Ok tt, with_file st p (rows ++ map csv_row items))
      else (Raise e, with_file st p (firstn n (rows ++ map csv_row items))).
Proof.
  intros H.
  induction items as [|[name sr] items IH]; intros rows L.
  - cbn [export_loop List.length map]. rewrite Nat.add_0_r, app_nil_r.
    apply Nat.leb_le in L. now rewrite L.
  - cbn [export_loop]. unfold bind at 1, writerow, bind at 1, lift.
    pose proof (row_cells (name, sr)) as R. cbn [fst snd] in R.
    rewrite R. cbn [List.length map].
    destruct (Nat.eq_dec (List.length rows) n) as [E|E].
    + rewrite write_row_fail with (e := e).
      * replace (List.length rows + S (List.length items) <=? n)%nat with false
          by (symmetry; apply Nat.leb_gt; lia).
        rewrite firstn_app, firstn_all2 by lia.
        replace (n - List.length rows) with 0 by lia.
        cbn [firstn]. now rewrite app_nil_r.
      * rewrite write_fails_cases, H, rows_of_with_file.
        replace (n <=? List.length rows)%nat with true
          by (symmetry; apply Nat.leb_le; lia).
        reflexivity.
    + rewrite write_row_run.
      * rewrite IH by (rewrite length_app; cbn; lia).
        rewrite length_app. cbn [List.length].
        replace (List.length rows + 1 + List.length items)
          with (List.length rows + S (List.length items)) by lia.
        now rewrite <- !app_assoc.
      * rewrite write_fails_cases, H, rows_of_with_file.
        replace (n <=? List.length rows)%nat with false
          by (symmetry; apply Nat.leb_gt; lia).
        reflexivity.
Qed.

Lemma export_to_csv_run (w : world) (dr : dict (dict float)) (p : string)
    (st : state) :
  w_write_error w p = None ->
  export_to_csv w dr p st
  = (Ok tt,
     mkState (stdout st ++ [(newline ++ "CSV report exported to: " ++ p)%string])
             (dict_set (files st) p (csv_header :: map csv_row (sorted_items dr)))).
Proof.
  intros H. unfold export_to_csv, try_except.
  unfold bind at 1, open_write. rewrite H.
  change (mkState (stdout st) (dict_set (files st) p []))
    with (with_file st p []).
  unfold bind at 1, writeheader.
  rewrite write_row_run by (now rewrite write_fails_cases, H).
  unfold bind at 1.
  rewrite export_loop_run by (intros e; left; congruence).
  unfold bind at 1, close_file. rewrite write_fails_cases, H. reflexivity.
Qed.

Lemma export_to_csv_fail (w : world) (dr : dict (dict float)) (p : string)
    (st : state) (e : exn) :
  w_write_error w p = Some (FailOpen e) ->
  export_to_csv w dr p st
  = (Ok tt,
     mkState (stdout st ++ [("Error writing CSV file " ++ p ++ ": " ++ e_msg e)%string])
             (files st)).
Proof.
  intros H. unfold export_to_csv, try_except.
  unfold bind at 1, open_write. now rewrite H.
Qed.

(** A file that takes [n] rows: with more rows than the table has the
    export succeeds; otherwise the error is reported, by a write or by
    the close, and the file holds the first [n] rows of the table. *)
Lemma export_to_csv_fault (w : world) (dr : dict (dict float)) (p : string)
    (st : state) (n : nat) (e : exn) :
  w_write_error w p = Some (FailAfter n e) ->
  export_to_csv w dr p st
  = if (n <=? S (List.length dr))%nat
    then (Ok tt,
          mkState (stdout st
                   ++ [("Error writing CSV file " ++ p ++ ": " ++ e_msg e)%string])
                  (dict_set (files st) p
                     (firstn n (csv_header :: map csv_row (sorted_items dr)))))
    else (Ok tt,
          mkState (stdout st
                   ++ [(newline ++ "CSV report exported to: " ++ p)%string])
                  (dict_set (files st) p
                     (csv_header :: map csv_row (sorted_items dr)))).
Proof.
  intros H.
  assert (Ls : List.length (sorted_items dr) = List.length dr)
    by apply Permutation_length, sorted_items_perm.
  unfold export_to_csv, try_except.
  unfold bind at 1, open_write. rewrite H.
  change (mkState (stdout st) (dict_set (files st) p []))
    with (with_file st p []).
  unfold bind at 1, writeheader.
  destruct n as [|n].
  - rewrite write_row_fail with (e := e)
      by (now rewrite write_fails_cases, H, rows_of_with_file).
    reflexivity.
  - rewrite write_row_run
      by (now rewrite write_fails_cases, H, rows_of_with_file).
    unfold bind at 1.
    rewrite (export_loop_fault w _ st p (S n) e H) by (cbn; lia).
    cbn [List.length app]. rewrite Ls.
    change (map CStr (["design"; "total_runtime"] ++ expected_steps_export))
      with csv_header.
    destruct (Nat.leb_spec (1 + List.length dr) (S n)) as [L|L].
    + unfold bind at 1, close_file.
      rewrite write_fails_cases, H, rows_of_with_file.
      cbn [List.length]. rewrite length_map, Ls.
      destruct (Nat.leb_spec (S n) (S (List.length dr))) as [L'|L'].
      * assert (n = List.length dr) by lia. subst n.
        rewrite firstn_all2 by (cbn [List.length]; rewrite length_map; lia).
        reflexivity.
      * reflexivity.
    + replace (S n <=? S (List.length dr))%nat with true
        by (symmetry; apply Nat.leb_le; lia).
      reflexivity.
Qed.

End ExportFacts.

(** ** [main] *)

Section MainFacts.

Variable version : py_version.
Variable w : world.

(** The locator: the answer of [exists], then that of [rglob]; it prints
    at most the warning and leaves the files alone. *)
Lemma find_catapult_logs_cases (hls_dir : string) (st : state) :
  find_catapult_logs w hls_dir st
  = match path_exists w (Path hls_dir) with
    | Raise e => (Raise e, st)
    | Ok false =>
        (Ok [],
         mkState (stdout st
                  ++ [("Warning: HLS directory '" ++ hls_dir
                       ++ "' does not exist")%string])
                 (files st))
    | Ok true =>
        match path_rglob w (Path hls_dir) "catapult.log" with
        | Raise e => (Raise e, st)
        | Ok logfiles =>
            (Ok (map (fun logfile =>
                        (path_name (path_parent logfile), path_str logfile))
                     logfiles), st)
        end
    end.
Proof.
  unfold find_catapult_logs, bind, lift, print, ret.
  destruct (path_exists w (Path hls_dir)) as [[|]|e]; cbn [negb];
    try reflexivity.
  all: destruct (path_rglob w (Path hls_dir) "catapult.log"); reflexivity.
Qed.

Lemma find_catapult_logs_state (hls_dir : string) (st : state) :
  find_catapult_logs w hls_dir st
  = (fst (find_catapult_logs w hls_dir initial_state),
     mkState (stdout st ++ locate_output w hls_dir) (files st)).
Proof.
  unfold locate_output. fold initial_state.
  rewrite !find_catapult_logs_cases.
  destruct st as [out fs].
  destruct (path_exists w (Path hls_dir)) as [[|]|e]; cbn;
    rewrite ?app_nil_r; try reflexivity.
  destruct (path_rglob w (Path hls_dir) "catapult.log"); cbn;
    now rewrite app_nil_r.
Qed.

Lemma find_catapult_logs_result (hls_dir : string) (st : state)
    (logs : list (string * string)) :
  fst (find_catapult_logs w hls_dir initial_state) = Ok logs ->
  located w hls_dir = logs /\
  find_catapult_logs w hls_dir st
  = (Ok logs, mkState (stdout st ++ locate_output w hls_dir) (files st)).
Proof.
  intros H. split.
  - unfold located. fold initial_state. now rewrite H.
  - now rewrite find_catapult_logs_state, H.
Qed.

(** An exception of the locator ends [main], nothing but the first line
    being printed. *)
Lemma main_raise (hls_dir : string) (csv : option string) (st : state)
    (e : exn) :
  fst (find_catapult_logs w hls_dir initial_state) = Raise e ->
  main version w hls_dir csv st
  = (Raise e,
     mkState (stdout st
              ++ [("Searching for catapult.log files in: " ++ hls_dir)%string])
             (files st)).
Proof.
  intros H. unfold main. unfold bind at 1, print. unfold bind at 1.
  rewrite find_catapult_logs_state, H. cbn [stdout files].
  assert (O : locate_output w hls_dir = []).
  { unfold locate_output. fold initial_state.
    rewrite find_catapult_logs_cases in *.
    destruct (path_exists w (Path hls_dir)) as [[|]|e0]; cbn in *;
      try discriminate; try reflexivity.
    destruct (path_rglob w (Path hls_dir) "catapult.log"); cbn in *;
      try discriminate; reflexivity. }
  now rewrite O, app_nil_r.
Qed.

Lemma parse_result_fst (p : string) (st : state) :
  fst (parse_hls_runtimes w p st) = Ok (parse_result w p).
Proof. now rewrite parse_hls_runtimes_run. Qed.

Lemma parse_output_snd (p : string) :
  stdout (snd (parse_hls_runtimes w p initial_state)) = parse_output w p.
Proof. now rewrite parse_hls_runtimes_run. Qed.

(** When the locator returns, [main] builds the mapping of the located
    files, and then either stops or reports and exports that mapping. *)
Lemma main_run (hls_dir : string) (csv : option string) (st : state)
    (logs : list (string * string)) :
  fst (find_catapult_logs w hls_dir initial_state) = Ok logs ->
  exists st0,
    files st0 = files st /\
    main version w hls_dir csv st
    = if truthy (collected w logs [])
      then report_and_export version w csv (collected w logs []) st0
      else (Ok tt, st0).
Proof.
  intros H. unfold main. unfold bind at 1, print. unfold bind at 1.
  match goal with |- context [find_catapult_logs w hls_dir ?s] =>
    destruct (find_catapult_logs_result hls_dir s logs H) as (_ & ->) end.
  destruct logs as [|l logs].
  - cbn. eexists. split; [|reflexivity]. reflexivity.
  - cbn [truthy negb]. unfold bind at 1, print. unfold bind at 1.
    rewrite collect_run.
    destruct (truthy (collected w (l :: logs) [])) eqn:T; cbn [negb].
    + eexists. split; [|reflexivity]. reflexivity.
    + eexists. split; [|reflexivity]. reflexivity.
Qed.

End MainFacts.

(** ** The locator *)

Section LocatorFacts.

(** Induction on a tree, with the hypothesis for every entry of a
    directory. *)
Lemma node_tree_ind (P : node -> Prop)
    (HF : forall d, P (File d))
    (HD : forall es, Forall (fun e => P (snd e)) es -> P (Dir es)) :
  forall n, P n.
Proof.
  fix IH 1. intros [d|es].
  - apply HF.
  - apply HD. induction es as [|[k c] es IHes]; constructor.
    + apply IH.
    + exact IHes.
Qed.

Lemma distinct_NoDup (l : list string) : distinct l = true -> NoDup l.
Proof.
  induction l as [|x l IH]; simpl; [constructor|].
  rewrite andb_true_iff, negb_true_iff. intros [Hx Hl].
  constructor; [|auto]. intros Hin.
  assert (existsb (String.eqb x) l = true)
    by (apply existsb_exists; exists x; split; [auto | apply String.eqb_refl]).
  congruence.
Qed.

Lemma wf_dir (es : list (string * node)) :
  wf_node (Dir es) = true ->
  NoDup (map fst es) /\ forall e, In e es -> wf_node (snd e) = true.
Proof.
  simpl. rewrite andb_true_iff. intros [D A]. split; [now apply distinct_NoDup|].
  clear D. induction es as [|[k c] es IH]; intros e [].
  - subst e. apply andb_true_iff in A. tauto.
  - apply andb_true_iff in A. apply IH; tauto.
Qed.

Lemma find_entry_in (k : string) (es : list (string * node)) (c : node) :
  find_entry k es = Some c -> In (k, c) es.
Proof.
  induction es as [|[k' c'] es IH]; simpl; [discriminate|].
  destruct (String.eqb_spec k' k) as [->|N].
  - intros H. injection H as ->. now left.
  - intros H. right. auto.
Qed.

Lemma find_entry_nodup (k : string) (es : list (string * node)) (c : node) :
  NoDup (map fst es) -> In (k, c) es -> find_entry k es = Some c.
Proof.
  induction es as [|[k' c'] es IH]; simpl; [tauto|].
  intros N [E|Hin].
  - injection E as -> ->. now rewrite String.eqb_refl.
  - inversion N as [|? ? Hk N']; subst.
    destruct (String.eqb_spec k' k) as [->|_]; [|auto].
    exfalso. apply Hk. change k with (fst (k, c)). now apply in_map.
Qed.

Lemma rglob_dir (name : string) (here : path) (es : list (string * node)) :
  rglob name here (Dir es)
  = (match find_entry name es with
     | Some _ => [here ++ [name]]
     | None => []
     end)
    ++ flat_map (fun e => rglob name (here ++ [fst e]) (snd e)) es.
Proof.
  simpl. unfold path_child. f_equal.
  induction es as [|[k c] es IH]; simpl; [reflexivity|].
  now rewrite IH.
Qed.

Lemma descend_wf (p : list string) : forall n n',
  wf_node n = true -> descend n p = Found n' -> wf_node n' = true.
Proof.
  induction p as [|k p IH]; intros n n' W H; simpl in H.
  - now injection H as <-.
  - destruct n as [d|es]; [discriminate|].
    destruct (find_entry k es) as [c|] eqn:E; [|discriminate].
    apply find_entry_in in E. apply wf_dir in W. destruct W as [_ W].
    exact (IH _ _ (W _ E) H).
Qed.

Lemma descend_app (p q : list string) : forall n,
  descend n (p ++ q)
  = match descend n p with
    | Found c => descend c q
    | r => r
    end.
Proof.
  induction p as [|k p IH]; intros n; simpl; [reflexivity|].
  destruct n as [d|es]; [reflexivity|].
  destruct (find_entry k es); [apply IH | reflexivity].
Qed.

(** The paths of [rglob] are the paths under [here] that end with the
    name and lead to an entry of the tree. *)
Lemma rglob_spec (name : string) (n : node) :
  forall here, wf_node n = true ->
  forall p,
    In p (rglob name here n) <->
    exists rel target,
      p = here ++ rel /\ rel <> [] /\ last rel "" = name /\
      descend n rel = Found target.
Proof.
  induction n as [d|es IH] using node_tree_ind; intros here W p.
  - simpl. split; [tauto|]. intros (rel & t & _ & Hr & _ & H).
    destruct rel; [congruence | discriminate].
  - rewrite rglob_dir, in_app_iff, in_flat_map.
    destruct (wf_dir _ W) as [N Wc]. rewrite Forall_forall in IH. split.
    + intros [H|([k c] & Hin & H)].
      * destruct (find_entry name es) as [c|] eqn:E; [|destruct H].
        destruct H as [<-|[]]. exists [name], c. simpl. rewrite E.
        repeat split. discriminate.
      * cbn [fst snd] in H.
        apply (IH _ Hin (here ++ [k]) (Wc _ Hin)) in H.
        destruct H as (rel & t & -> & Hr & Hl & Hres).
        exists (k :: rel), t. rewrite <- app_assoc. simpl.
        rewrite (find_entry_nodup _ _ _ N Hin).
        repeat split; [discriminate | | exact Hres].
        destruct rel; [congruence | exact Hl].
    + intros (rel & t & -> & Hr & Hl & Hres).
      destruct rel as [|k rel]; [congruence|]. simpl in Hres.
      destruct (find_entry k es) as [c|] eqn:E; [|discriminate].
      destruct rel as [|k' rel].
      * left. simpl in Hl. subst k. rewrite E. now left.
      * right. exists (k, c). pose proof (find_entry_in _ _ _ E) as Hin.
        split; [exact Hin|]. cbn [fst snd].
        apply (IH _ Hin (here ++ [k]) (Wc _ Hin)).
        exists (k' :: rel), t. rewrite <- app_assoc.
        repeat split; [discriminate | exact Hl | exact Hres].
Qed.

Lemma rglob_nodup (name : string) (n : node) :
  forall here, wf_node n = true -> NoDup (rglob name here n).
Proof.
  induction n as [d|es IH] using node_tree_ind; intros here W.
  - constructor.
  - rewrite rglob_dir. destruct (wf_dir _ W) as [N Wc].
    rewrite Forall_forall in IH.
    assert (Sub : forall p e, In e es ->
              In p (rglob name (here ++ [fst e]) (snd e)) ->
              exists rel, rel <> [] /\ p = here ++ fst e :: rel).
    { intros p e He Hp. apply (rglob_spec name (snd e) _ (Wc _ He)) in Hp.
      destruct Hp as (rel & t & -> & Hr & _). exists rel.
      now rewrite <- app_assoc. }
    apply NoDup_app.
    + destruct (find_entry name es); repeat constructor. intros [].
    + clear W. induction es as [|[k c] es IHes]; simpl; [constructor|].
      inversion N as [|? ? Hk N']; subst.
      apply NoDup_app.
      * apply (IH (k, c)); [now left | apply (Wc (k, c)); now left].
      * apply IHes; auto.
        -- intros e He. apply IH. now right.
        -- intros e He. apply Wc. now right.
        -- intros p e He. apply Sub. now right.
      * intros p Hp Hq. apply in_flat_map in Hq.
        destruct Hq as (e & He & Hq).
        destruct (Sub p (k, c) (or_introl eq_refl) Hp) as (r1 & _ & E1).
        destruct (Sub p e (or_intror He) Hq) as (r2 & _ & E2).
        cbn [fst] in E1.
        assert (E : here ++ k :: r1 = here ++ fst e :: r2) by congruence.
        apply app_inv_head in E. injection E as Ek _.
        apply Hk. rewrite Ek. now apply in_map.
    + intros p Hp Hq. apply in_flat_map in Hq.
      destruct Hq as (e & He & Hq).
      destruct (Sub p e He Hq) as (r & Hr & E).
      destruct (find_entry name es); [|destruct Hp].
      destruct Hp as [<-|[]]. apply app_inv_head in E.
      injection E as _ Er. congruence.
Qed.

(** The walk of a directory meets no error when the directory can be
    visited and the walk of each of its entries meets none. *)
Lemma walk_error_dir (w : world) (name : string) (depth : nat) (here : path)
    (es : list (string * node)) :
  walk_error w name depth here (Dir es) = None <->
  within_limits w name depth here /\
  forall k c, In (k, c) es ->
              walk_error w name (S depth) (here ++ [k]) c = None.
Proof.
  cbn [walk_error]. unfold within_limits, path_child.
  assert (Sub : forall l : list (string * node),
            (fix sub (l : list (string * node)) : option exn :=
               match l with
               | [] => None
               | (k, c) :: l' =>
                   match walk_error w name (S depth) (here ++ [k]) c with
                   | Some e => Some e
                   | None => sub l'
                   end
               end) l = None <->
            forall k c, In (k, c) l ->
                        walk_error w name (S depth) (here ++ [k]) c = None).
  { induction l as [|[k c] l IH].
    - split; [intros _ k c [] | reflexivity].
    - destruct (walk_error w name (S depth) (here ++ [k]) c) as [e|] eqn:E.
      + split; [discriminate|]. intros H.
        rewrite (H k c (or_introl eq_refl)) in E. discriminate.
      + rewrite IH. split.
        * intros H k' c' [Heq|Hin]; [injection Heq as <- <-; exact E | auto].
        * intros H k' c' Hin. apply H. now right. }
  destruct (w_depth_max w) as [limit|].
  - destruct (Nat.ltb_spec limit depth) as [L|L].
    + split; [discriminate|]. intros [(H & _) _].
      specialize (H limit eq_refl). lia.
    + destruct (Nat.leb_spec (w_path_max w)
                  (byte_length (path_str (here ++ [name])))) as [P|P];
        cbn [orb].
      * split; [discriminate|]. intros [(_ & H & _) _]. lia.
      * destruct (Nat.ltb_spec (w_name_max w) (byte_length name)) as [M|M].
        -- split; [discriminate|]. intros [(_ & _ & H) _]. lia.
        -- rewrite Sub. split.
           ++ intros H. split; [|exact H]. repeat split; try lia.
              intros l' [= <-]. exact L.
           ++ tauto.
  - destruct (Nat.leb_spec (w_path_max w)
                (byte_length (path_str (here ++ [name])))) as [P|P];
      cbn [orb].
    + split; [discriminate|]. intros [(_ & H & _) _]. lia.
    + destruct (Nat.ltb_spec (w_name_max w) (byte_length name)) as [M|M].
      * split; [discriminate|]. intros [(_ & _ & H) _]. lia.
      * rewrite Sub. split.
        -- intros H. split; [|exact H]. repeat split; try lia.
           intros l' [=].
        -- tauto.
Qed.

(** The walk meets no error exactly when every directory of the tree
    can be visited. *)
Lemma walk_error_none (w : world) (name : string) (n : node) :
  forall depth here, wf_node n = true ->
  (walk_error w name depth here n = None <->
   forall rel es,
     descend n rel = Found (Dir es) ->
     within_limits w name (depth + List.length rel) (here ++ rel)).
Proof.
  induction n as [d|es IH] using node_tree_ind; intros depth here W.
  - split; [|reflexivity]. intros _ rel es H.
    destruct rel; simpl in H; discriminate.
  - rewrite walk_error_dir. destruct (wf_dir _ W) as [N Wc].
    rewrite Forall_forall in IH. split.
    + intros [Hhere Hsub] rel es' H. destruct rel as [|k rel].
      * cbn [List.length]. now rewrite Nat.add_0_r, app_nil_r.
      * simpl in H. destruct (find_entry k es) as [c|] eqn:E; [|discriminate].
        apply find_entry_in in E.
        pose proof (proj1 (IH _ E (S depth) (here ++ [k]) (Wc _ E))
                      (Hsub _ _ E) rel es' H) as L.
        cbn [List.length]. rewrite <- app_assoc in L. cbn [app] in L.
        now replace (depth + S (List.length rel))
          with (S depth + List.length rel) by lia.
    + intros H. split.
      * specialize (H [] es eq_refl). cbn [List.length] in H.
        now rewrite Nat.add_0_r, app_nil_r in H.
      * intros k c Hin.
        apply (IH _ Hin (S depth) (here ++ [k]) (Wc _ Hin)).
        intros rel es' Hd.
        specialize (H (k :: rel) es'). simpl in H.
        rewrite (find_entry_nodup _ _ _ N Hin) in H. specialize (H Hd).
        rewrite <- app_assoc. cbn [app].
        now replace (S depth + List.length rel)
          with (depth + S (List.length rel)) by lia.
Qed.


Lemma path_name_app (l : path) (x : string) :
  is_anchor x = false -> path_name (l ++ [x]) = x.
Proof.
  intros A. unfold path_name.
  destruct (l ++ [x]) as [|b [|c r]] eqn:E.
  - destruct l; discriminate.
  - destruct l as [|a [|]]; try discriminate.
    injection E as <-. now rewrite A.
  - rewrite <- E. apply last_last.
Qed.



(** What the operating system reaches is a node of the tree. *)
Lemma os_walk_found (w : world) (comps : list string) :
  forall loc n,
    fst (os_walk w loc comps) = Found n ->
    descend (w_root w) (snd (os_walk w loc comps)) = Found n.
Proof.
  induction comps as [|c comps IH]; intros loc n H; cbn [os_walk] in *.
  - exact H.
  - destruct (descend (w_root w) loc) as [[d|es]| | |] eqn:D;
      try discriminate H.
    destruct (String.eqb c "" || String.eqb c "."); [now apply IH|].
    destruct (String.eqb c ".."); [now apply IH|].
    destruct (w_name_max w <? byte_length c)%nat; [discriminate H|].
    destruct (find_entry c es); [now apply IH | discriminate H].
Qed.

Lemma os_resolve_wf (w : world) (s : string) (n : node) :
  wf_node (w_root w) = true -> os_resolve w s = Found n -> wf_node n = true.
Proof.
  intros W H. unfold os_resolve in H.
  destruct (String.eqb s ""); [discriminate|].
  destruct (w_path_max w <=? byte_length s)%nat; [discriminate|].
  apply os_walk_found in H. exact (descend_wf _ _ _ W H).
Qed.

(** The errors of the walk. *)
Lemma walk_error_class (w : world) (name : string) (n : node) :
  forall depth here e,
    walk_error w name depth here n = Some e ->
    e = recursion_error \/ exists s, e = too_long s.
Proof.
  induction n as [d|es IH] using node_tree_ind; intros depth here e H.
  - discriminate.
  - cbn [walk_error] in H.
    destruct (match w_depth_max w with
              | Some limit => (limit <? depth)%nat
              | None => false
              end); [injection H as <-; now left|].
    destruct ((w_path_max w <=? byte_length (path_str (path_child here name)))%nat
              || (w_name_max w <? byte_length name)%nat);
      [injection H as <-; right; eauto|].
    induction es as [|[k c] es IHes]; [discriminate|].
    inversion IH as [|? ? Hc Hes]; subst.
    destruct (walk_error w name (S depth) (path_child here k) c) as [e'|] eqn:E.
    + injection H as <-. exact (Hc _ _ _ E).
    + exact (IHes Hes H).
Qed.

End LocatorFacts.


(* ================================================================= *)
(** * The claims *)

(** The statements below are conjunctions, proved part by part. *)
Ltac parts := repeat match goal with |- _ /\ _ => split end.

(** C1. Last write wins: when a log file is read to its end, the parser
    returns a mapping whose keys are expected steps, each once, and a
    step holds the runtime of the last of its completion lines, that is
    of a completion line of the step that no later completion line of the
    same step follows. *)
Theorem C1_last_completion_line_wins
    (w : world) (logfile_path : string) (f : file_data) (st : state) :
  open_read w logfile_path = Ok f ->
  f_error f = None ->
  exists step_runtimes st',
    parse_hls_runtimes w logfile_path st = (Ok step_runtimes, st') /\
    NoDup (dict_keys step_runtimes) /\
    (forall step, In step (dict_keys step_runtimes) ->
                  In step expected_steps_parse) /\
    forall before line after step v,
      f_lines f = before ++ line :: after ->
      marks line step v ->
      (forall l v', In l after -> ~ marks l step v') ->
      dict_get step_runtimes step = Some v.
Proof.
  intros Ho He. rewrite parse_hls_runtimes_run.
  eexists _, _. split; [reflexivity|].
  unfold parse_result. rewrite (scan_file_ok w _ _ Ho He).
  destruct (scan_lines_ok (f_lines f) [] (NoDup_nil _)) as (d & E & N).
  rewrite E. split; [exact N|]. split.
  { intros step Hk. destruct (scan_lines_keys _ _ _ E step Hk) as [[]|H].
    exact H. }
  intros before line after step v Hl Hm Ha. rewrite Hl in E.
  exact (scan_lines_last _ _ _ _ _ _ _ Hm Ha E).
Qed.

(** C2. What one line contributes. Without the literal marker, nothing.
    With it, the expected steps are tried in list order as substrings in
    any case, and the first that occurs receives the runtime, no other
    key being touched; the runtime is the number of an occurrence of
    "elapsed time", white space, a token of digits and points, white
    space and "second", the words in any case, and a line with such an
    occurrence is matched; a marker line without a step or without such
    a number contributes nothing. *)
Theorem C2_line_contribution (d : dict float) (line : string) :
  (contains marker line = true <->
   exists a c : string,
     line = (a ++ "Info: Completed transformation" ++ c)%string) /\
  (contains marker line = false -> process_line d line = Ok d) /\
  (forall step, In step expected_steps_parse ->
      (contains step (lower line) = true <-> occurs_any_case step line)) /\
  (forall step,
      first_step line = Some step <->
      exists before after,
        expected_steps_parse = before ++ step :: after /\
        occurs_any_case step line /\
        forall s, In s before -> ~ occurs_any_case s line) /\
  (forall step v,
      marks line step v ->
      process_line d line = Ok (dict_set d step v) /\
      forall k, k <> step -> dict_get (dict_set d step v) k = dict_get d k) /\
  (forall v,
      parse_runtime_from_line line = Ok (Some v) ->
      exists tok, elapsed_words line tok /\ py_float tok = Ok v) /\
  ((forall tok, ~ elapsed_words line tok) ->
   parse_runtime_from_line line = Ok None) /\
  (forall tok,
      elapsed_words line tok ->
      exists m,
        re_search runtime_pattern line = Some m /\
        elapsed_words line (group_1 m) /\
        parse_runtime_from_line line
        = match py_float (group_1 m) with
          | Ok v => Ok (Some v)
          | Raise _ => Ok None
          end) /\
  (first_step line = None \/ parse_runtime_from_line line = Ok None ->
   process_line d line = Ok d).
Proof.
  assert (Occ : forall step, In step expected_steps_parse ->
            (contains step (lower line) = true <-> occurs_any_case step line)).
  { intros step Hin. rewrite contains_lower_iff.
    apply occurs_any_case_iff. now apply expected_steps_lower. }
  parts.
  - apply contains_iff.
  - intros H. unfold process_line. now rewrite H.
  - exact Occ.
  - intros step. unfold first_step. rewrite find_first_split. split.
    + intros (b & a & E & Hs & Hb). exists b, a. split; [exact E|].
      assert (I : forall s, In s (b ++ step :: a) -> In s expected_steps_parse)
        by (intros s Hs'; now rewrite E).
      split; [apply Occ; [apply I, in_elt | exact Hs]|].
      intros s Hin Ho. apply Occ in Ho; [|apply I, in_or_app; now left].
      rewrite (Hb s Hin) in Ho. discriminate.
    + intros (b & a & E & Hs & Hb). exists b, a. split; [exact E|].
      assert (I : forall s, In s (b ++ step :: a) -> In s expected_steps_parse)
        by (intros s Hs'; now rewrite E).
      split; [apply Occ; [apply I, in_elt | exact Hs]|].
      intros s Hin. destruct (contains s (lower line)) eqn:C; [|reflexivity].
      apply Occ in C; [|apply I, in_or_app; now left]. now destruct (Hb s Hin).
  - intros step v Hm. split; [now apply process_line_marks|].
    intros k Hk. now apply dict_get_set_other.
  - unfold parse_runtime_from_line. intros v H.
    destruct (re_search runtime_pattern line) as [m|] eqn:E; [|discriminate].
    exists (group_1 m).
    split; [now apply elapsed_words_iff, runtime_pattern_sound|].
    destruct (py_float (group_1 m)) as [v'|e] eqn:F.
    + now injection H as <-.
    + rewrite (py_float_raise _ _ F) in H. discriminate.
  - intros H. unfold parse_runtime_from_line.
    destruct (re_search runtime_pattern line) as [m|] eqn:E; [|reflexivity].
    destruct (H _ (proj1 (elapsed_words_iff _ _) (runtime_pattern_sound _ _ E))).
  - intros tok Hs. apply elapsed_words_iff in Hs.
    pose proof (runtime_pattern_complete line tok Hs) as C.
    destruct (re_search runtime_pattern line) as [m|] eqn:E; [|congruence].
    exists m. split; [reflexivity|].
    split; [now apply elapsed_words_iff, runtime_pattern_sound|].
    unfold parse_runtime_from_line. rewrite E.
    destruct (py_float (group_1 m)) as [v|e] eqn:F; [reflexivity|].
    now rewrite (py_float_raise _ _ F).
  - intros H. apply process_line_unmarked. intros step v (_ & Hs & Hv).
    destruct H as [H|H]; congruence.
Qed.

(** C6. A numeric token that [float] rejects is no runtime: the
    extraction returns [None], the line leaves the mapping as it is, and
    no line at all makes the extraction or the scan raise. *)
Theorem C6_malformed_token_is_no_runtime (line : string) :
  (exists r, parse_runtime_from_line line = Ok r) /\
  (forall d, exists d', process_line d line = Ok d') /\
  (forall m e,
      re_search runtime_pattern line = Some m ->
      py_float (group_1 m) = Raise e ->
      parse_runtime_from_line line = Ok None /\
      forall d, process_line d line = Ok d).
Proof.
  split; [apply parse_runtime_total|]. split.
  - intros d. destruct (process_line_cases d line) as [E|(s & v & _ & E)];
      rewrite E; eauto.
  - intros m e Hm He.
    assert (P : parse_runtime_from_line line = Ok None).
    { unfold parse_runtime_from_line. rewrite Hm, He.
      now rewrite (py_float_raise _ _ He). }
    split; [exact P|]. intros d. apply process_line_unmarked.
    intros step v (_ & _ & Hv). congruence.
Qed.

(** C5. A read that fails, at [open] or later, makes the parser print
    one warning naming the path (with the text of the error unless the
    file is missing) and return the empty mapping, whatever it had read;
    nothing is raised, and the loop of [main] builds the same mapping as
    without that file. *)
Theorem C5_failed_read_gives_empty_mapping
    (w : world) (logfile_path : string) (e : exn) :
  read_failure w logfile_path e ->
  (forall st,
      parse_hls_runtimes w logfile_path st
      = (Ok [], mkState (stdout st ++ [read_warning logfile_path e]) (files st))) /\
  (forall design logs1 logs2 dr st,
      exists dr' st1 st2,
        collect w (logs1 ++ (design, logfile_path) :: logs2) dr st = (Ok dr', st1) /\
        collect w (logs1 ++ logs2) dr st = (Ok dr', st2)).
Proof.
  intros H. apply scan_file_raise_iff in H.
  assert (R : parse_result w logfile_path = [])
    by (unfold parse_result; now rewrite H).
  split.
  - intros st. rewrite parse_hls_runtimes_run, R.
    unfold parse_output. now rewrite H.
  - intros design logs1 logs2 dr st. rewrite !collect_run.
    eexists _, _, _. split; [|reflexivity].
    rewrite !collected_app, collected_cons. cbn [snd]. now rewrite R.
Qed.

(** C8. The list of expected steps of the parser and the one of the
    export are the same sequence of 13 names. *)
Theorem C8_expected_steps_agree :
  expected_steps_parse = expected_steps_export /\
  List.length expected_steps_parse = 13 /\
  NoDup expected_steps_parse.
Proof.
  split; [reflexivity|]. split; [reflexivity|].
  repeat constructor; simpl; intuition discriminate.
Qed.

(** C3. The text report is the two header lines and then one row for
    each design: every design of the mapping once, names ascending. A row
    is the name, left in a field of 30 characters, a blank, the total in
    the format [.2f], right in a field of 8 characters, and " seconds"; a
    text longer than its field is printed in full. The total is the [sum]
    of the values recorded for that design, and of nothing else: from
    [0.0], one addition for each value, in the order of the mapping, up
    to Python 3.11. The format [.2f] of a finite total is its sign and
    the nearest number of hundredths, written with two decimals; an
    infinite total, which a sum that overflows is, prints as [inf]. *)
Theorem C3_report_rows
    (version : py_version) (design_runtimes : dict (dict float))
    (st : state) :
  exists rows : list string,
    generate_report version design_runtimes st
    = (Ok tt,
       mkState
         (stdout st
          ++ [(newline ++ "HLS Runtime Summary:")%string;
              "------------------------------------------------------------"]
          ++ rows)
         (files st)) /\
    Forall2
      (fun (item : string * dict float) (row : string) =>
         exists name_field total_field : string,
           row = (name_field ++ " " ++ total_field ++ " seconds")%string /\
           left_in_field 30 (fst item) name_field /\
           right_in_field 8
             (format_2f (py_sum version (map snd (snd item)))) total_field)
      (sorted_items design_runtimes) rows /\
    Permutation (sorted_items design_runtimes) design_runtimes /\
    StronglySorted name_le (sorted_items design_runtimes) /\
    (forall values,
        py_sum Py311 values
        = fold_left (SFadd 53 1024) values (S754_zero false)) /\
    py_sum Py312 [] = S754_zero false /\
    (forall x, py_sum Py312 [x] = SFadd 53 1024 (S754_zero false) x) /\
    (forall s m e,
        exists text h,
          format_2f (S754_finite s m e)
          = ((if s then "-" else "") ++ text)%string /\
          hundredths_text text h /\ nearest_hundredths m e h) /\
    (forall s, format_2f (S754_zero s)
               = ((if s then "-" else "") ++ "0.00")%string) /\
    (forall s, format_2f (S754_infinity s)
               = ((if s then "-" else "") ++ "inf")%string).
Proof.
  exists (map (report_line version) (sorted_items design_runtimes)).
  split; [apply generate_report_run|].
  split.
  { induction (sorted_items design_runtimes) as [|item l IH];
      constructor; [|exact IH].
    exists (ljust 30 (fst item)),
           (rjust 8 (format_2f (py_sum version (map snd (snd item))))).
    split; [reflexivity|].
    split; [apply ljust_field | apply rjust_field]. }
  split; [apply sorted_items_perm|]. split; [apply sorted_items_sorted|].
  split; [reflexivity|]. split; [reflexivity|]. split; [reflexivity|].
  split.
  { intros s m e. destruct (format_2f_text s m e) as (text & E & T).
    exists text, (scaled_hundredths m e).
    split; [exact E|]. split; [exact T | apply scaled_hundredths_nearest]. }
  split; reflexivity.
Qed.

(** C4. When the file can be written, the export is the header row
    [design, total_runtime] and the 13 step names in their order, then
    one row for each design, every design once, names ascending; a row
    holds the name, the total, and for each step its value or, when the
    design has none, the empty cell [None], which no recorded value, not
    even zero, is; the total is the sum, from [0.0], of the values the
    design has for the expected steps, in their order, rounded to two
    decimals: the float nearest to the nearest number of hundredths. *)
Theorem C4_export_table
    (w : world) (design_runtimes : dict (dict float)) (csv_path : string)
    (st : state) :
  w_write_error w csv_path = None ->
  export_to_csv w design_runtimes csv_path st
  = (Ok tt,
     mkState
       (stdout st ++ [(newline ++ "CSV report exported to: " ++ csv_path)%string])
       (dict_set (files st) csv_path
          (map CStr
             [ "design"; "total_runtime";
               "analyze"; "compile"; "libraries"; "assembly"; "loops";
               "memories"; "cluster"; "architect"; "allocate"; "schedule";
               "dpfsm"; "instance"; "extract" ]
           :: map (fun item : string * dict float =>
                     CStr (fst item)
                     :: CFloat
                          (round2
                             (fold_left (SFadd 53 1024)
                                (flat_map
                                   (fun step => match dict_get (snd item) step with
                                                | Some v => [v]
                                                | None => []
                                                end)
                                   expected_steps_export)
                                (S754_zero false)))
                     :: map (step_cell (snd item)) expected_steps_export)
                  (sorted_items design_runtimes)))) /\
  Permutation (sorted_items design_runtimes) design_runtimes /\
  StronglySorted name_le (sorted_items design_runtimes) /\
  (forall step_runtimes step,
      step_cell step_runtimes step = CNone <->
      dict_get step_runtimes step = None) /\
  (forall step_runtimes step v,
      dict_get step_runtimes step = Some v ->
      step_cell step_runtimes step = CFloat v /\ CFloat v <> CNone) /\
  (forall s m e,
      exists h,
        nearest_hundredths m e h /\
        round2 (S754_finite s m e)
        = let r := match h with
                   | N0 => S754_zero false
                   | Npos p => SFdiv 53 1024 (S754_finite false p 0)
                                             (S754_finite false 100 0)
                   end in
          if s then SFopp r else r) /\
  (forall s, round2 (S754_zero s) = S754_zero s) /\
  (forall s, round2 (S754_infinity s) = S754_infinity s).
Proof.
  intros H. split; [now apply export_to_csv_run|].
  split; [apply sorted_items_perm|]. split; [apply sorted_items_sorted|].
  unfold step_cell. split.
  { intros sr step. destruct (dict_get sr step); split; congruence. }
  split.
  { intros sr step v ->. split; [reflexivity | discriminate]. }
  split.
  { intros s m e. exists (scaled_hundredths m e).
    split; [apply scaled_hundredths_nearest | apply round2_finite]. }
  split; reflexivity.
Qed.

(** C7. A design all of whose located log files parse to the empty
    mapping has no entry in the mapping [main] builds; [main] reports and
    exports that mapping and nothing else, the report and the export
    have their rows from its entries, and none of them is the design.
    When the locator raises, [main] ends with its exception after the
    search line: there is no report and no export at all. *)
Theorem C7_design_without_steps_is_dropped
    (version : py_version) (w : world) (hls_dir : string)
    (csv : option string) (d : string) :
  (forall p, In (d, p) (located w hls_dir) ->
             fst (parse_hls_runtimes w p initial_state) = Ok []) ->
  exists design_runtimes,
    (forall st, fst (collect w (located w hls_dir) [] st) = Ok design_runtimes) /\
    dict_get design_runtimes d = None /\
    (forall item, In item (sorted_items design_runtimes) -> fst item <> d) /\
    (forall st,
        (exists e,
            fst (find_catapult_logs w hls_dir st) = Raise e /\
            main version w hls_dir csv st
            = (Raise e,
               mkState (stdout st
                        ++ [("Searching for catapult.log files in: "
                             ++ hls_dir)%string])
                       (files st))) \/
        (fst (find_catapult_logs w hls_dir st) = Ok (located w hls_dir) /\
         exists st0,
           files st0 = files st /\
           main version w hls_dir csv st
           = if truthy design_runtimes
             then report_and_export version w csv design_runtimes st0
             else (Ok tt, st0))) /\
    (forall st,
        generate_report version design_runtimes st
        = (Ok tt,
           mkState (stdout st
                    ++ [(newline ++ "HLS Runtime Summary:")%string;
                        "------------------------------------------------------------"]
                    ++ map (report_line version) (sorted_items design_runtimes))
                   (files st))) /\
    (forall csv_path st,
        files (snd (export_to_csv w design_runtimes csv_path st)) = files st \/
        exists n,
          files (snd (export_to_csv w design_runtimes csv_path st))
          = dict_set (files st) csv_path
              (firstn n (csv_header :: map csv_row (sorted_items design_runtimes)))).
Proof.
  intros H. exists (collected w (located w hls_dir) []).
  assert (G : dict_get (collected w (located w hls_dir) []) d = None).
  { rewrite collected_keep; [reflexivity|].
    intros p Hp. specialize (H p Hp). rewrite parse_result_fst in H.
    now injection H. }
  parts.
  - intros st. now rewrite collect_run.
  - exact G.
  - intros item Hi <-. apply dict_get_none_keys in G. apply G.
    apply sorted_items_names. now apply in_map.
  - intros st. rewrite find_catapult_logs_state. cbn [fst].
    destruct (fst (find_catapult_logs w hls_dir initial_state))
      as [logs|e] eqn:L.
    + right. destruct (find_catapult_logs_result w hls_dir st logs L) as [E _].
      rewrite E. split; [reflexivity|]. now apply main_run.
    + left. exists e. split; [reflexivity|]. now apply main_raise.
  - apply generate_report_run.
  - intros csv_path st.
    destruct (w_write_error w csv_path) as [[e|n e]|] eqn:E.
    + left. now rewrite (export_to_csv_fail _ _ _ _ _ E).
    + right. rewrite (export_to_csv_fault _ _ _ _ _ _ E).
      destruct (n <=? S (List.length (collected w (located w hls_dir) [])))%nat.
      * now exists n.
      * exists (S (List.length (sorted_items (collected w (located w hls_dir) [])))).
        cbn [snd files]. f_equal. symmetry. apply firstn_all2.
        cbn [List.length]. rewrite length_map. lia.
    + right.
      exists (S (List.length (sorted_items (collected w (located w hls_dir) [])))).
      rewrite (export_to_csv_run _ _ _ _ E).
      cbn [snd files]. f_equal. symmetry. apply firstn_all2.
      cbn [List.length]. rewrite length_map. lia.
Qed.

(** C10, as the code has it. Of the located log files that share a
    design name, the last one whose parse is not empty gives the entry of
    that name: the entry is the mapping of that file alone, unmerged; a
    later file of the name that parses to nothing replaces nothing. The
    names of the mapping stay distinct, and the loop prints, for each
    file, its own "Parsing" line and the warnings of its own parse, so
    nothing tells of the collision. *)
Theorem C10_last_nonempty_file_wins
    (w : world) (logs1 logs2 : list (string * string))
    (d p : string) (s : dict float) :
  fst (parse_hls_runtimes w p initial_state) = Ok s ->
  s <> [] ->
  (forall p', In (d, p') logs2 ->
              fst (parse_hls_runtimes w p' initial_state) = Ok []) ->
  forall st,
  exists design_runtimes st',
    collect w (logs1 ++ (d, p) :: logs2) [] st = (Ok design_runtimes, st') /\
    dict_get design_runtimes d = Some s /\
    NoDup (dict_keys design_runtimes) /\
    stdout st'
    = stdout st
      ++ flat_map
           (fun l : string * string =>
              ("Parsing: " ++ fst l ++ " (" ++ snd l ++ ")")%string
              :: stdout (snd (parse_hls_runtimes w (snd l) initial_state)))
           (logs1 ++ (d, p) :: logs2).
Proof.
  intros Hs Hne Hlater st. rewrite collect_run. eexists _, _.
  split; [reflexivity|].
  rewrite parse_result_fst in Hs. injection Hs as Hs.
  split; [|split].
  - rewrite collected_app, collected_cons. cbn [fst snd].
    rewrite collected_keep.
    + rewrite Hs. destruct s; [congruence|]. cbn [truthy].
      apply dict_get_set_same.
    + intros p' Hp'. specialize (Hlater p' Hp').
      rewrite parse_result_fst in Hlater. now injection Hlater.
  - apply collected_nodup. constructor.
  - cbn [stdout]. f_equal. unfold collect_output.
    apply flat_map_ext. intros l. now rewrite parse_output_snd.
Qed.


(* ================================================================= *)
(** * The claims on sample inputs *)

(** The numbers of the sample logs. *)
Example sample_numbers :
  py_float "3.50" = Ok (S754_finite false 7881299347898368 (-51)) /\
  py_float "10.0" = Ok (S754_finite false 5629499534213120 (-49)) /\
  py_float "7.25" = Ok (S754_finite false 8162774324609024 (-50)) /\
  format_2f (S754_finite false 7881299347898368 (-51)) = "3.50" /\
  (exists e, py_float "1.2.3" = Raise e) /\
  (exists e, py_float "." = Raise e).
Proof. vm_compute. repeat split; eauto. Qed.

(** A step is looked for in list order, not in line order, and up to
    case; the words of the pattern are read up to case too. *)
Example first_step_in_list_order :
  first_step
    "Info: Completed transformation 'COMPILE' on solution 'analyze_top.v1': Elapsed Time  2  SECOND"
  = Some "analyze" /\
  process_line []
    "Info: Completed transformation 'COMPILE' on solution 'analyze_top.v1': Elapsed Time  2  SECOND"
  = Ok [("analyze", S754_finite false 4503599627370496 (-51))] /\
  process_line []
    "info: completed transformation 'compile': elapsed time 2 seconds"
  = Ok [] /\
  process_line [] "Info: Completed transformation 'rtl': elapsed time 2 seconds"
  = Ok [] /\
  process_line [] "Info: Completed transformation 'compile': elapsed time 2seconds"
  = Ok [].
Proof. vm_compute. repeat split. Qed.

(** A completion line whose token is no number: the pattern matches,
    [float] rejects the token, and the scan records nothing. *)
Example malformed_number :
  option_map group_1
    (re_search runtime_pattern
       "# Info: Completed transformation 'loops' on solution 'top.v1': elapsed time 1.2.3 seconds")
  = Some "1.2.3" /\
  parse_runtime_from_line
    "# Info: Completed transformation 'loops' on solution 'top.v1': elapsed time 1.2.3 seconds"
  = Ok None /\
  scan_lines (f_lines log_malformed) [] = Ok [].
Proof. vm_compute. repeat split. Qed.

(** A row of the report, character by character; and a total beyond the
    range of the floats, which the format prints without decimals. *)
Example report_row_layout :
  report_row "designA" (S754_finite false 7599824371187712 (-49))
  = "designA                           13.50 seconds" /\
  String.length (report_row "designA" (S754_finite false 7599824371187712 (-49)))
  = 30 + 1 + 8 + 8 /\
  py_float ("1" ++ repeat_str "0" 400) = Ok (S754_infinity false) /\
  report_row "big" (S754_infinity false)
  = "big                                 inf seconds".
Proof. vm_compute. repeat split. Qed.

(** The run of [main] on the sample tree, with both versions of [sum]:
    five logs located, three designs reported, names ascending. *)
Example sample_run :
  forall version,
    exists out written,
      main version sample_world "hls" (Some "out.csv") initial_state
      = (Ok tt, mkState out [("out.csv", written)]) /\
      List.length (located sample_world "hls") = 5 /\
      skipn 13 out
      = [ "------------------------------------------------------------";
          "A                                 13.50 seconds";
          "designA                           13.50 seconds";
          "twice                              7.25 seconds";
          (newline ++ "CSV report exported to: out.csv")%string ] /\
      nth 2 written []
      = [ CStr "designA";
          CFloat (S754_finite false 7599824371187712 (-49));
          CFloat (S754_finite false 7881299347898368 (-51));
          CFloat (S754_finite false 5629499534213120 (-49));
          CNone; CNone; CNone; CNone; CNone; CNone; CNone; CNone; CNone;
          CNone; CNone ] /\
      py_float "13.5" = Ok (S754_finite false 7599824371187712 (-49)).
Proof.
  intros []; eexists _, _; vm_compute; repeat split.
Qed.

(** A missing root directory, and a missing log file. *)
Example sample_missing :
  main Py311 sample_world "nowhere" (Some "out.csv") initial_state
  = (Ok tt,
     mkState [ "Searching for catapult.log files in: nowhere";
               "Warning: HLS directory 'nowhere' does not exist";
               "No catapult.log files found!" ] []) /\
  parse_hls_runtimes sample_world "hls/none/catapult.log" initial_state
  = (Ok [],
     mkState [ "Warning: Could not read logfile hls/none/catapult.log" ] []).
Proof. vm_compute. split; reflexivity. Qed.

(** C1 on the log with two completion lines of [compile], 4.0 and then
    7.25: the mapping holds 7.25. *)
Lemma C1_witness :
  open_read sample_world "hls/twice/catapult.log" = Ok log_twice /\
  f_error log_twice = None /\
  exists step_runtimes st',
    parse_hls_runtimes sample_world "hls/twice/catapult.log" initial_state
    = (Ok step_runtimes, st') /\
    dict_get step_runtimes "compile"
    = Some (S754_finite false 8162774324609024 (-50)) /\
    py_float "7.25" = Ok (S754_finite false 8162774324609024 (-50)).
Proof.
  split; [reflexivity|]. split; [reflexivity|].
  destruct (C1_last_completion_line_wins sample_world
              "hls/twice/catapult.log" log_twice initial_state
              eq_refl eq_refl)
    as (d & st' & E & _ & _ & L).
  exists d, st'. split; [exact E|]. split; [|reflexivity].
  apply (L [nth 0 (f_lines log_twice) ""] (nth 1 (f_lines log_twice) "") []).
  - reflexivity.
  - unfold marks. repeat split; vm_compute; reflexivity.
  - intros l v' [].
Defined.

(** C2 on a completion line in capitals: the marker is in its own
    case, the step and the words of the pattern are not, and the line
    gives [compile] the runtime 4.0. *)
Lemma C2_witness :
  marks line_in_capitals "compile" (S754_finite false 4503599627370496 (-50)) /\
  contains "compile" line_in_capitals = false /\
  occurs_any_case "compile" line_in_capitals /\
  (exists tok,
      elapsed_words line_in_capitals tok /\
      py_float tok = Ok (S754_finite false 4503599627370496 (-50))) /\
  process_line [] line_in_capitals
  = Ok [("compile", S754_finite false 4503599627370496 (-50))] /\
  py_float "4.0" = Ok (S754_finite false 4503599627370496 (-50)).
Proof.
  assert (M : marks line_in_capitals "compile"
                (S754_finite false 4503599627370496 (-50)))
    by (unfold marks; repeat split; vm_compute; reflexivity).
  destruct (C2_line_contribution [] line_in_capitals)
    as (_ & _ & Occ & _ & Hm & Hw & _).
  split; [exact M|]. split; [reflexivity|].
  split.
  { apply Occ; [vm_compute; tauto | vm_compute; reflexivity]. }
  split; [exact (Hw _ (proj2 (proj2 M)))|].
  split; [exact (proj1 (Hm _ _ M)) | reflexivity].
Defined.

(** C3 on a mapping with a total that needs rounding, one that lies
    halfway between two hundredths, and one beyond the largest float. *)
Lemma C3_witness :
  exists rows : list string,
    generate_report Py311
      (collected precise_world (located precise_world "hls") []) initial_state
    = (Ok tt,
       mkState
         ([(newline ++ "HLS Runtime Summary:")%string;
           "------------------------------------------------------------"]
          ++ rows)
         []) /\
    rows = [ "big                                 inf seconds";
             "fine                               3.01 seconds";
             "tie                                0.12 seconds" ].
Proof.
  destruct (C3_report_rows Py311
              (collected precise_world (located precise_world "hls") [])
              initial_state) as (rows & E & _).
  exists rows. split; [exact E|].
  vm_compute in E. injection E as E. symmetry. exact E.
Defined.

(** C3 as it is claimed fails. The design [big] has one recorded
    runtime, of 310 digits, which [float] reads as infinity; its row is
    printed with the total [inf], without decimals, and has 47
    characters, the blank between the two fields included: it is not a
    field of 30 characters, a field of 8 characters with two decimals
    and " seconds". *)
Lemma C3_counterexample :
  collected precise_world [("big", "hls/big/catapult.log")] []
  = [("big", [("compile", S754_infinity false)])] /\
  generate_report Py311 [("big", [("compile", S754_infinity false)])]
    initial_state
  = (Ok tt,
     mkState
       [ (newline ++ "HLS Runtime Summary:")%string;
         "------------------------------------------------------------";
         "big                                 inf seconds" ]
       []) /\
  ~ (exists name_field total_field : string,
        "big                                 inf seconds"
        = (name_field ++ total_field ++ " seconds")%string /\
        String.length name_field = 30 /\
        String.length total_field = 8) /\
  ~ two_decimals "inf".
Proof.
  split; [vm_compute; reflexivity|]. split; [vm_compute; reflexivity|]. split.
  - intros (f1 & f2 & E & L1 & L2).
    apply (f_equal String.length) in E.
    rewrite !str_app_length, L1, L2 in E. vm_compute in E. discriminate E.
  - intros (ip & f1 & f2 & E & _).
    destruct ip as [|c ip]; [discriminate E|].
    apply (f_equal String.length) in E.
    cbn [append] in E. cbn [String.length] in E.
    rewrite !str_app_length in E. cbn in E. lia.
Qed.

(** C4 on the same mapping: the row of [fine] holds the recorded zero,
    the empty cells and the total 3.01 for the sum 3.006, and the total
    of [tie] is 0.12 for 0.125. *)
Lemma C4_witness :
  w_write_error precise_world "out.csv" = None /\
  exists written,
    export_to_csv precise_world
      (collected precise_world (located precise_world "hls") []) "out.csv"
      initial_state
    = (Ok tt,
       mkState [(newline ++ "CSV report exported to: out.csv")%string]
         [("out.csv", written)]) /\
    List.length written = 4 /\
    nth 2 written []
    = [ CStr "fine"; CFloat (S754_finite false 6777917439192596 (-51));
        CFloat (S754_zero false);
        CFloat (S754_finite false 4526117625507348 (-52));
        CNone; CNone; CNone; CNone; CNone; CNone; CNone;
        CFloat (S754_finite false 4505851427184181 (-51));
        CNone; CNone; CNone ] /\
    nth 1 (nth 3 written []) CNone
    = CFloat (S754_finite false 8646911284551352 (-56)) /\
    py_float "3.01" = Ok (S754_finite false 6777917439192596 (-51)) /\
    py_float "0.12" = Ok (S754_finite false 8646911284551352 (-56)).
Proof.
  split; [reflexivity|].
  pose proof (proj1 (C4_export_table precise_world
                       (collected precise_world (located precise_world "hls") [])
                       "out.csv" initial_state eq_refl)) as E.
  eexists. split; [exact E|]. vm_compute. repeat split.
Defined.

(** C5 on the log whose read fails after two completion lines. *)
Lemma C5_witness :
  read_failure sample_world "hls/broken/catapult.log"
    (mkExn UnicodeDecodeError
       "'utf-8' codec can't decode byte 0xff in position 200: invalid start byte") /\
  parse_hls_runtimes sample_world "hls/broken/catapult.log" initial_state
  = (Ok [],
     mkState
       [ "Warning: Error reading hls/broken/catapult.log: 'utf-8' codec can't decode byte 0xff in position 200: invalid start byte" ]
       []).
Proof.
  assert (H : read_failure sample_world "hls/broken/catapult.log"
                (mkExn UnicodeDecodeError
                   "'utf-8' codec can't decode byte 0xff in position 200: invalid start byte")).
  { right. exists log_broken. split; reflexivity. }
  split; [exact H|].
  exact (proj1 (C5_failed_read_gives_empty_mapping sample_world _ _ H)
               initial_state).
Defined.

(** C7 on the design [broken] of the sample tree. *)
Lemma C7_witness :
  (forall p, In ("broken", p) (located sample_world "hls") ->
             fst (parse_hls_runtimes sample_world p initial_state) = Ok []) /\
  exists design_runtimes,
    (forall st,
        fst (collect sample_world (located sample_world "hls") [] st)
        = Ok design_runtimes) /\
    dict_get design_runtimes "broken" = None /\
    (forall item, In item (sorted_items design_runtimes) ->
                  fst item <> "broken").
Proof.
  assert (H : forall p, In ("broken", p) (located sample_world "hls") ->
                fst (parse_hls_runtimes sample_world p initial_state) = Ok []).
  { intros p Hp. vm_compute in Hp.
    destruct Hp as [Hp|[Hp|[Hp|[Hp|[Hp|[]]]]]]; try discriminate Hp.
    injection Hp as <-. reflexivity. }
  split; [exact H|].
  destruct (C7_design_without_steps_is_dropped
              Py311 sample_world "hls" None "broken" H)
    as (dr & Hc & Hg & Hi & _).
  exists dr. repeat split; assumption.
Defined.



(** C10 on the two logs of design [A]: the later one parses to nothing,
    and the entry is the mapping of the earlier one. *)
Lemma C10_witness :
  fst (parse_hls_runtimes sample_world "hls/x/A/catapult.log" initial_state)
  = Ok (parse_result sample_world "hls/x/A/catapult.log") /\
  parse_result sample_world "hls/x/A/catapult.log" <> [] /\
  (forall p', In ("A", p') [("A", "hls/y/A/catapult.log")] ->
              fst (parse_hls_runtimes sample_world p' initial_state) = Ok []) /\
  exists design_runtimes st',
    collect sample_world
      ([("designA", "hls/designA/catapult.log")]
       ++ ("A", "hls/x/A/catapult.log") :: [("A", "hls/y/A/catapult.log")])
      [] initial_state
    = (Ok design_runtimes, st') /\
    dict_get design_runtimes "A"
    = Some (parse_result sample_world "hls/x/A/catapult.log").
Proof.
  assert (H1 : fst (parse_hls_runtimes sample_world "hls/x/A/catapult.log"
                      initial_state)
               = Ok (parse_result sample_world "hls/x/A/catapult.log"))
    by reflexivity.
  assert (H2 : parse_result sample_world "hls/x/A/catapult.log" <> [])
    by (vm_compute; discriminate).
  assert (H3 : forall p', In ("A", p') [("A", "hls/y/A/catapult.log")] ->
                 fst (parse_hls_runtimes sample_world p' initial_state) = Ok []).
  { intros p' [Hp|[]]. injection Hp as <-. reflexivity. }
  split; [exact H1|]. split; [exact H2|]. split; [exact H3|].
  destruct (C10_last_nonempty_file_wins sample_world
              [("designA", "hls/designA/catapult.log")]
              [("A", "hls/y/A/catapult.log")]
              "A" "hls/x/A/catapult.log" _ H1 H2 H3 initial_state)
    as (dr & st' & E & G & _).
  exists dr, st'. split; assumption.
Defined.

(** The run behind the counterexample of C10. *)
Example collision_run :
  fst (find_catapult_logs collision_world "hls" initial_state)
  = Ok [("A", "hls/x/A/catapult.log"); ("A", "hls/y/A/catapult.log")] /\
  fst (parse_hls_runtimes collision_world "hls/y/A/catapult.log" initial_state)
  = Ok [] /\
  fst (collect collision_world
         [("A", "hls/x/A/catapult.log"); ("A", "hls/y/A/catapult.log")]
         [] initial_state)
  = Ok [("A", [("analyze", S754_finite false 7881299347898368 (-51));
               ("compile", S754_finite false 5629499534213120 (-49))])].
Proof. vm_compute. repeat split. Qed.

(** C10 as it is claimed fails. The locator finds two logs of a design
    [A], first the one under [hls/x], then the one under [hls/y]; the
    latter parses to the empty mapping; yet the entry of [A] is not that
    mapping but the one of the earlier file. *)
Lemma C10_counterexample :
  ~ (forall (w : world) (hls_dir d p1 p2 : string)
            (s2 : dict float) (design_runtimes : dict (dict float)),
        fst (find_catapult_logs w hls_dir initial_state)
        = Ok [(d, p1); (d, p2)] ->
        fst (parse_hls_runtimes w p2 initial_state) = Ok s2 ->
        fst (collect w [(d, p1); (d, p2)] [] initial_state)
        = Ok design_runtimes ->
        dict_get design_runtimes d = Some s2).
Proof.
  intros H.
  specialize (H collision_world "hls" "A"
                "hls/x/A/catapult.log" "hls/y/A/catapult.log" []
                (collected collision_world
                   [("A", "hls/x/A/catapult.log"); ("A", "hls/y/A/catapult.log")]
                   [])
                eq_refl eq_refl eq_refl).
  vm_compute in H. discriminate H.
Qed.

(* ================================================================= *)
(** * Further properties of the script *)

(** ** The scan, line by line *)

Section ScanMore.

(** A line is a completion line of at most one step, with one runtime. *)
Lemma marks_functional (line s1 s2 : string) (v1 v2 : float) :
  marks line s1 v1 -> marks line s2 v2 -> s1 = s2 /\ v1 = v2.
Proof.
  intros (_ & S1 & V1) (_ & S2 & V2). split; congruence.
Qed.

(** What a line does, sharply: it records its step, or it is no
    completion line and changes nothing. *)
Lemma process_line_spec (d : dict float) (line : string) :
  (exists step v, marks line step v /\
                  process_line d line = Ok (dict_set d step v)) \/
  ((forall step v, ~ marks line step v) /\ process_line d line = Ok d).
Proof.
  unfold process_line, marks.
  destruct (contains marker line) eqn:Hm.
  - rewrite step_loop_find. fold (first_step line).
    destruct (first_step line) as [step|] eqn:Hs.
    + destruct (parse_runtime_total line) as [[v|] Hv]; rewrite Hv.
      * left. exists step, v. auto.
      * right. split; [|reflexivity]. intros s v (_ & _ & H). discriminate.
    + right. split; [|reflexivity]. intros s v (_ & H & _). discriminate.
  - right. split; [|reflexivity]. intros s v (H & _). discriminate.
Qed.

(** Where a value of the scan comes from: it was there before and no line
    is a completion line of the step, or it is the runtime of the last
    completion line of the step. *)
Lemma scan_lines_origin (lines : list string) (step : string) (v : float) :
  forall d d',
    scan_lines lines d = Ok d' ->
    dict_get d' step = Some v ->
    (dict_get d step = Some v /\
     forall l v', In l lines -> ~ marks l step v') \/
    exists before line after,
      lines = before ++ line :: after /\
      marks line step v /\
      forall l v', In l after -> ~ marks l step v'.
Proof.
  induction lines as [|l lines IH]; intros d d' E G; simpl in E.
  - injection E as <-. left. split; [exact G|]. intros l v' [].
  - destruct (process_line_spec d l) as [(s & v0 & Hm & P)|[Hn P]];
      rewrite P in E.
    + destruct (IH _ _ E G) as [[G1 Hno]|(b & ln & a & -> & Hl & Ha)].
      * destruct (String.eqb_spec s step) as [->|N].
        -- rewrite dict_get_set_same in G1. injection G1 as ->.
           right. exists [], l, lines. auto.
        -- rewrite dict_get_set_other in G1 by congruence.
           left. split; [exact G1|].
           intros l0 v' [<-|Hin]; [|now apply Hno].
           intros Hm'. destruct (marks_functional _ _ _ _ _ Hm Hm'). contradiction.
      * right. exists (l :: b), ln, a. auto.
    + destruct (IH _ _ E G) as [[G1 Hno]|(b & ln & a & -> & Hl & Ha)].
      * left. split; [exact G1|].
        intros l0 v' [<-|Hin]; [apply Hn | now apply Hno].
      * right. exists (l :: b), ln, a. auto.
Qed.

(** A step that has a value keeps one. *)
Lemma scan_lines_mem_mono (lines : list string) (step : string) :
  forall d d',
    scan_lines lines d = Ok d' ->
    dict_mem d step = true -> dict_mem d' step = true.
Proof.
  induction lines as [|l lines IH]; intros d d' E M; simpl in E.
  - now injection E as <-.
  - destruct (process_line_cases d l) as [P|(s & v & _ & P)]; rewrite P in E.
    + eapply IH; eauto.
    + eapply IH; [exact E|]. unfold dict_mem in *.
      destruct (String.eqb_spec s step) as [->|N].
      * now rewrite dict_get_set_same.
      * rewrite dict_get_set_other by congruence. exact M.
Qed.

(** Lines without the marker can be left out of the scan. *)
Lemma scan_lines_filter (lines : list string) :
  forall d, scan_lines lines d = scan_lines (filter (contains marker) lines) d.
Proof.
  induction lines as [|l lines IH]; intros d; [reflexivity|].
  simpl. destruct (contains marker l) eqn:Hm.
  - simpl. destruct (process_line d l); [apply IH | reflexivity].
  - unfold process_line. rewrite Hm. apply IH.
Qed.

Lemma filter_split_length {A : Type} (f : A -> bool) (l : list A) :
  List.length (filter f l) + List.length (filter (fun x => negb (f x)) l)
  = List.length l.
Proof.
  induction l as [|x l IH]; simpl; [reflexivity|].
  destruct (f x); simpl; lia.
Qed.

Lemma dict_mem_in {V : Type} (d : dict V) (k : string) :
  dict_mem d k = true <-> In k (dict_keys d).
Proof.
  unfold dict_mem. pose proof (dict_get_none_keys d k) as H.
  destruct (dict_get d k).
  - split; [|reflexivity]. intros _.
    destruct (in_dec string_dec k (dict_keys d)) as [I|I]; [exact I|].
    apply H in I. discriminate.
  - split; [discriminate|]. intros I. now apply H in I.
Qed.

(** The steps reported missing and the steps recorded share the 13
    expected steps between them. *)
Lemma missing_steps_count (d : dict float) :
  NoDup (dict_keys d) ->
  (forall k, In k (dict_keys d) -> In k expected_steps_parse) ->
  List.length (dict_keys d) + List.length (missing_steps_of d) = 13.
Proof.
  intros N K. unfold missing_steps_of.
  change 13 with (List.length expected_steps_parse).
  rewrite <- (filter_split_length (dict_mem d) expected_steps_parse).
  f_equal. apply Permutation_length, NoDup_Permutation.
  - exact N.
  - apply NoDup_filter. repeat constructor; simpl; intuition discriminate.
  - intros k. rewrite filter_In, dict_mem_in. split; [auto | tauto].
Qed.

End ScanMore.

(** ** The parser on a log read to its end *)

Section ParseMore.

Variable w : world.

Lemma parse_result_ok (p : string) (f : file_data) :
  open_read w p = Ok f -> f_error f = None ->
  scan_lines (f_lines f) [] = Ok (parse_result w p) /\
  NoDup (dict_keys (parse_result w p)) /\
  (forall k, In k (dict_keys (parse_result w p)) -> In k expected_steps_parse).
Proof.
  intros Ho He. unfold parse_result. rewrite (scan_file_ok w _ _ Ho He).
  destruct (scan_lines_ok (f_lines f) [] (NoDup_nil _)) as (d & E & N).
  rewrite E. split; [reflexivity|]. split; [exact N|].
  intros k Hk. destruct (scan_lines_keys _ _ _ E k Hk) as [[]|H]. exact H.
Qed.

Lemma parse_output_ok (p : string) (f : file_data) :
  open_read w p = Ok f -> f_error f = None ->
  parse_output w p
  = if truthy (missing_steps_of (parse_result w p))
    then [("Warning: Design '" ++ path_name (path_parent (Path p))
           ++ "' is missing steps: "
           ++ join ", " (missing_steps_of (parse_result w p)))%string]
    else [].
Proof.
  intros Ho He. unfold parse_output, parse_result.
  rewrite (scan_file_ok w _ _ Ho He).
  destruct (scan_lines_ok (f_lines f) [] (NoDup_nil _)) as (d & -> & _).
  reflexivity.
Qed.

End ParseMore.

(** X1. Nothing is recorded that no line gives: when a log is read to its
    end, a step has a value in the returned mapping only as the runtime
    of its last completion line, and it has none exactly when no line is
    a completion line of it. *)
Theorem X1_recorded_values_come_from_lines
    (w : world) (logfile_path : string) (f : file_data) (st : state)
    (step : string) :
  open_read w logfile_path = Ok f ->
  f_error f = None ->
  exists step_runtimes st',
    parse_hls_runtimes w logfile_path st = (Ok step_runtimes, st') /\
    (forall v,
        dict_get step_runtimes step = Some v ->
        exists before line after,
          f_lines f = before ++ line :: after /\
          marks line step v /\
          forall l v', In l after -> ~ marks l step v') /\
    (dict_get step_runtimes step = None <->
     forall l v, In l (f_lines f) -> ~ marks l step v).
Proof.
  intros Ho He. rewrite parse_hls_runtimes_run. eexists _, _.
  split; [reflexivity|].
  destruct (parse_result_ok w _ _ Ho He) as (E & _ & _).
  split.
  - intros v G.
    destruct (scan_lines_origin _ _ _ _ _ E G) as [[G0 _]|H];
      [discriminate G0 | exact H].
  - split.
    + intros G l v Hin Hm. apply in_split in Hin.
      destruct Hin as (b & a & Hl). rewrite Hl, scan_lines_app in E.
      destruct (scan_lines b []) as [d1|]; [|discriminate].
      simpl in E. rewrite (process_line_marks d1 _ _ _ Hm) in E.
      apply (scan_lines_mem_mono _ step) in E.
      * unfold dict_mem in E. rewrite G in E. discriminate.
      * unfold dict_mem. now rewrite dict_get_set_same.
    + intros H. destruct (dict_get (parse_result w logfile_path) step) as [v|] eqn:G;
        [|reflexivity].
      destruct (scan_lines_origin _ _ _ _ _ E G) as [[G0 _]|(b & l & a & Hl & Hm & _)];
        [discriminate G0|].
      exfalso. apply (H l v); [|exact Hm]. rewrite Hl. apply in_elt.
Qed.

(** X2. Only lines with the marker count: a log read to its end parses
    to what its lines with the marker alone parse to; and a log without
    any such line parses to the empty mapping, with the one warning that
    all 13 steps are missing. *)
Theorem X2_lines_without_marker_are_ignored
    (w : world) (logfile_path : string) (f : file_data) (st : state) :
  open_read w logfile_path = Ok f ->
  f_error f = None ->
  exists step_runtimes st',
    parse_hls_runtimes w logfile_path st = (Ok step_runtimes, st') /\
    scan_lines (filter (contains marker) (f_lines f)) [] = Ok step_runtimes /\
    ((forall l, In l (f_lines f) -> contains marker l = false) ->
     step_runtimes = [] /\
     stdout st'
     = stdout st
       ++ [("Warning: Design '" ++ path_name (path_parent (Path logfile_path))
            ++ "' is missing steps: analyze, compile, libraries, assembly, "
            ++ "loops, memories, cluster, architect, allocate, schedule, "
            ++ "dpfsm, instance, extract")%string]).
Proof.
  intros Ho He. rewrite parse_hls_runtimes_run. eexists _, _.
  split; [reflexivity|].
  destruct (parse_result_ok w _ _ Ho He) as (E & _ & _).
  rewrite scan_lines_filter in E. split; [exact E|].
  intros H.
  assert (F : filter (contains marker) (f_lines f) = []).
  { clear E. induction (f_lines f) as [|l ls IH]; [reflexivity|].
    simpl. rewrite (H l) by now left. apply IH. intros l' Hl. apply H. now right. }
  rewrite F in E. simpl in E. injection E as E.
  split; [now symmetry|].
  cbn [stdout]. rewrite (parse_output_ok w _ _ Ho He), <- E. reflexivity.
Qed.

(** X3. The completeness check of a log read to its end: the steps it
    names are the expected steps without a value, in the order of the
    expected list; with the recorded steps they make 13; the warning is
    printed when there is such a step and only then; and the mapping
    returned is the one scanned, whatever is missing. *)
Theorem X3_completeness_check
    (w : world) (logfile_path : string) (f : file_data) (st : state) :
  open_read w logfile_path = Ok f ->
  f_error f = None ->
  exists step_runtimes st',
    parse_hls_runtimes w logfile_path st = (Ok step_runtimes, st') /\
    scan_lines (f_lines f) [] = Ok step_runtimes /\
    let missing_steps :=
      filter (fun step => negb (dict_mem step_runtimes step))
             expected_steps_parse in
    (forall step,
        In step missing_steps <->
        In step expected_steps_parse /\ dict_get step_runtimes step = None) /\
    List.length (dict_keys step_runtimes) + List.length missing_steps = 13 /\
    (missing_steps = [] <-> List.length (dict_keys step_runtimes) = 13) /\
    stdout st'
    = stdout st
      ++ match missing_steps with
         | [] => []
         | _ => [("Warning: Design '"
                  ++ path_name (path_parent (Path logfile_path))
                  ++ "' is missing steps: " ++ join ", " missing_steps)%string]
         end /\
    files st' = files st.
Proof.
  intros Ho He. rewrite parse_hls_runtimes_run. eexists _, _.
  split; [reflexivity|].
  destruct (parse_result_ok w _ _ Ho He) as (E & N & K).
  split; [exact E|]. cbv zeta.
  fold (missing_steps_of (parse_result w logfile_path)).
  pose proof (missing_steps_count _ N K) as C.
  split; [|split; [exact C|split; [|split; [|reflexivity]]]].
  - intros step. unfold missing_steps_of. rewrite filter_In, negb_true_iff.
    unfold dict_mem. destruct (dict_get (parse_result w logfile_path) step);
      intuition congruence.
  - split.
    + intros M. rewrite M in C. simpl in C. lia.
    + intros L. destruct (missing_steps_of (parse_result w logfile_path));
        [reflexivity | simpl in C; lia].
  - cbn [stdout]. rewrite (parse_output_ok w _ _ Ho He).
    now destruct (missing_steps_of (parse_result w logfile_path)).
Qed.

(** ** The whole run *)

Section RunMore.

Variable version : py_version.
Variable w : world.

Lemma located_fst (hls_dir : string) (st : state) (logs : list (string * string)) :
  fst (find_catapult_logs w hls_dir st) = Ok logs -> located w hls_dir = logs.
Proof.
  rewrite find_catapult_logs_state. cbn [fst]. intros H.
  unfold located. fold initial_state. now rewrite H.
Qed.

(** What the locator prints: the warning, when the root is not found. *)
Lemma locate_output_cases (hls_dir : string) :
  locate_output w hls_dir
  = match path_exists w (Path hls_dir) with
    | Ok false =>
        [("Warning: HLS directory '" ++ hls_dir ++ "' does not exist")%string]
    | _ => []
    end.
Proof.
  unfold locate_output. fold initial_state. rewrite find_catapult_logs_cases.
  destruct (path_exists w (Path hls_dir)) as [[|]|e]; try reflexivity.
  destruct (path_rglob w (Path hls_dir) "catapult.log"); reflexivity.
Qed.

Lemma located_resolved (hls_dir : string) (logs : list (string * string)) :
  fst (find_catapult_logs w hls_dir initial_state) = Ok logs ->
  logs <> [] -> locate_output w hls_dir = [].
Proof.
  rewrite locate_output_cases, find_catapult_logs_cases.
  destruct (path_exists w (Path hls_dir)) as [[|]|e]; cbn [fst];
    intros H N; try reflexivity; congruence.
Qed.

(** The exceptions of the locator. *)
Lemma find_catapult_logs_raise (hls_dir : string) (e : exn) :
  fst (find_catapult_logs w hls_dir initial_state) = Raise e ->
  e_class e = OSError \/ e_class e = RecursionError.
Proof.
  rewrite find_catapult_logs_cases. unfold path_exists, path_rglob.
  destruct (has_nul (path_str (Path hls_dir))); [discriminate|].
  destruct (os_resolve w (path_str (Path hls_dir))) as [root| | |];
    cbn [fst]; try discriminate.
  - destruct (walk_error w "catapult.log" 0 (Path hls_dir) root) as [e'|] eqn:E;
      [|discriminate].
    intros [= <-].
    destruct (walk_error_class _ _ _ _ _ _ E) as [->|[s ->]]; auto.
  - intros [= <-]. now left.
Qed.

(** [main], step by step, when the locator returns. *)
Lemma main_unfold (hls_dir : string) (csv : option string) (st : state)
    (logs : list (string * string)) :
  fst (find_catapult_logs w hls_dir initial_state) = Ok logs ->
  main version w hls_dir csv st
  = let out1 := stdout st
                ++ [("Searching for catapult.log files in: " ++ hls_dir)%string]
                ++ locate_output w hls_dir in
    if negb (truthy logs)
    then (Ok tt, mkState (out1 ++ ["No catapult.log files found!"]) (files st))
    else
      let out2 := out1
                  ++ [("Found " ++ str_of_nat (List.length logs)
                       ++ " catapult.log files")%string]
                  ++ collect_output w logs in
      if negb (truthy (collected w logs []))
      then (Ok tt, mkState (out2 ++ ["No valid runtime data found!"]) (files st))
      else report_and_export version w csv (collected w logs [])
             (mkState out2 (files st)).
Proof.
  intros H. unfold main, bind, print.
  rewrite find_catapult_logs_state, H.
  cbn [stdout files]. cbv zeta.
  destruct (truthy logs); cbn [negb stdout files].
  - rewrite collect_run. cbn [stdout files].
    destruct (truthy (collected w logs []));
      cbn [negb stdout files]; rewrite <- ?app_assoc; reflexivity.
  - rewrite <- ?app_assoc. reflexivity.
Qed.

(** What the export prints and writes. *)
Lemma export_to_csv_total (dr : dict (dict float)) (p : string) (st : state) :
  export_to_csv w dr p st
  = let table := csv_header :: map csv_row (sorted_items dr) in
    let exported :=
      (Ok tt,
       mkState (stdout st ++ [(newline ++ "CSV report exported to: " ++ p)%string])
               (dict_set (files st) p table)) in
    match w_write_error w p with
    | None => exported
    | Some (FailOpen e) =>
        (Ok tt,
         mkState (stdout st
                  ++ [("Error writing CSV file " ++ p ++ ": " ++ e_msg e)%string])
                 (files st))
    | Some (FailAfter n e) =>
        if (n <=? S (List.length dr))%nat
        then (Ok tt,
              mkState (stdout st
                       ++ [("Error writing CSV file " ++ p ++ ": "
                            ++ e_msg e)%string])
                      (dict_set (files st) p (firstn n table)))
        else exported
    end.
Proof.
  cbv zeta. destruct (w_write_error w p) as [[e|n e]|] eqn:E.
  - now apply export_to_csv_fail.
  - now apply export_to_csv_fault.
  - now apply export_to_csv_run.
Qed.

Lemma report_and_export_run (csv : option string) (dr : dict (dict float))
    (st : state) :
  report_and_export version w csv dr st
  = match csv with
    | None => (Ok tt, mkState (stdout st ++ report_output version dr) (files st))
    | Some p =>
        if String.eqb p ""
        then (Ok tt, mkState (stdout st ++ report_output version dr) (files st))
        else export_to_csv w dr p
               (mkState (stdout st ++ report_output version dr) (files st))
    end.
Proof.
  unfold report_and_export, bind. rewrite generate_report_run.
  fold (report_output version dr).
  destruct csv as [p|]; [|reflexivity].
  destruct (String.eqb p ""); reflexivity.
Qed.

End RunMore.

Section RunFacts.

Variable w : world.

Lemma collected_all_empty (logs : list (string * string)) :
  (forall d p, In (d, p) logs -> parse_result w p = []) ->
  forall dr, collected w logs dr = dr.
Proof.
  induction logs as [|[d p] logs IH]; intros H dr; [reflexivity|].
  rewrite collected_cons. cbn [fst snd]. rewrite (H d p) by now left.
  cbn [truthy]. apply IH. intros d' p' Hin. apply (H d' p'). now right.
Qed.

Lemma collect_output_alt (logs : list (string * string)) :
  collect_output w logs
  = flat_map
      (fun l : string * string =>
         ("Parsing: " ++ fst l ++ " (" ++ snd l ++ ")")%string
         :: stdout (snd (parse_hls_runtimes w (snd l) initial_state)))
      logs.
Proof.
  unfold collect_output. apply flat_map_ext. intros l.
  now rewrite parse_output_snd.
Qed.

End RunFacts.

(** X4. When the locator returns nothing, because the root is not found
    or because no entry under it is called [catapult.log], [main] prints
    the search line, the warning if the root is not found, and "No
    catapult.log files found!", and stops: nothing is parsed, reported or
    written. The root is not found when the operating system finds no
    entry at its path, or when the path has a null character. *)
Theorem X4_no_logs_found
    (version : py_version) (w : world) (hls_dir : string)
    (csv : option string) (st : state) :
  fst (find_catapult_logs w hls_dir initial_state) = Ok [] ->
  main version w hls_dir csv st
  = (Ok tt,
     mkState
       (stdout st
        ++ [("Searching for catapult.log files in: " ++ hls_dir)%string]
        ++ (if has_nul (path_str (Path hls_dir))
            then [("Warning: HLS directory '" ++ hls_dir
                   ++ "' does not exist")%string]
            else match os_resolve w (path_str (Path hls_dir)) with
                 | Found _ => []
                 | _ => [("Warning: HLS directory '" ++ hls_dir
                          ++ "' does not exist")%string]
                 end)
        ++ ["No catapult.log files found!"])
       (files st)).
Proof.
  intros H. rewrite (main_unfold version w hls_dir csv st [] H).
  cbn [truthy negb]. cbv zeta. rewrite <- !app_assoc. do 4 f_equal.
  rewrite locate_output_cases.
  rewrite find_catapult_logs_cases in H. unfold path_exists in *.
  destruct (has_nul (path_str (Path hls_dir))); [reflexivity|].
  destruct (os_resolve w (path_str (Path hls_dir))); try reflexivity.
  discriminate H.
Qed.

(** X5. When logs are located but every one of them parses to the empty
    mapping, [main] prints the search line, the count of the logs, for
    each log its "Parsing" line and what its parse prints, and then "No
    valid runtime data found!", and stops: no report, no file. *)
Theorem X5_no_valid_runtime_data
    (version : py_version) (w : world) (hls_dir : string)
    (csv : option string) (logs : list (string * string)) (st : state) :
  fst (find_catapult_logs w hls_dir initial_state) = Ok logs ->
  logs <> [] ->
  (forall d p, In (d, p) logs ->
               fst (parse_hls_runtimes w p initial_state) = Ok []) ->
  main version w hls_dir csv st
  = (Ok tt,
     mkState
       (stdout st
        ++ [("Searching for catapult.log files in: " ++ hls_dir)%string;
            ("Found " ++ str_of_nat (List.length logs)
             ++ " catapult.log files")%string]
        ++ flat_map
             (fun l : string * string =>
                ("Parsing: " ++ fst l ++ " (" ++ snd l ++ ")")%string
                :: stdout (snd (parse_hls_runtimes w (snd l) initial_state)))
             logs
        ++ ["No valid runtime data found!"])
       (files st)).
Proof.
  intros H Hne He. rewrite (main_unfold version w hls_dir csv st logs H).
  cbv zeta. rewrite (located_resolved w hls_dir logs H Hne).
  destruct logs as [|l logs]; [congruence|]. cbn [truthy negb].
  rewrite collected_all_empty.
  - cbn [truthy negb]. rewrite collect_output_alt, <- !app_assoc. reflexivity.
  - intros d p Hin. specialize (He d p Hin). rewrite parse_result_fst in He.
    now injection He.
Qed.

(** X6. How [main] ends, printing taken not to fail. Nothing in [main]
    catches what the locator raises: an [OSError] for a root whose path
    the operating system refuses, an [OSError] or a [RecursionError] from
    the walk. [main] then ends with that exception, having printed its
    first line and nothing else, and having written no file. When the
    locator returns, [main] ends normally, whatever the logs hold and
    whether or not the file of [--csv] can be written; it only adds to
    the standard output; and the one file it may write is the one named
    by [--csv]: every other path is left as it was, and without [--csv],
    or with an empty one, no file is written at all. *)
Theorem X6_only_the_locator_ends_main_with_an_exception
    (version : py_version) (w : world) (hls_dir : string)
    (csv : option string) (st : state) :
  (forall e,
      fst (find_catapult_logs w hls_dir initial_state) = Raise e ->
      (e_class e = OSError \/ e_class e = RecursionError) /\
      main version w hls_dir csv st
      = (Raise e,
         mkState (stdout st
                  ++ [("Searching for catapult.log files in: " ++ hls_dir)%string])
                 (files st))) /\
  (forall logs,
      fst (find_catapult_logs w hls_dir initial_state) = Ok logs ->
      exists st',
        main version w hls_dir csv st = (Ok tt, st') /\
        (exists out, stdout st' = stdout st ++ out) /\
        (forall p, csv <> Some p ->
                   dict_get (files st') p = dict_get (files st) p) /\
        (csv = None \/ csv = Some "" -> files st' = files st)).
Proof.
  split.
  { intros e H. split; [now apply (find_catapult_logs_raise w hls_dir)|].
    now apply main_raise. }
  intros logs H. rewrite (main_unfold version w hls_dir csv st logs H).
  cbv zeta.
  destruct (truthy logs); cbn [negb].
  2:{ eexists. split; [reflexivity|]. cbn [stdout files].
      rewrite <- !app_assoc. eauto. }
  destruct (truthy (collected w logs [])); cbn [negb].
  2:{ eexists. split; [reflexivity|]. cbn [stdout files].
      rewrite <- !app_assoc. eauto. }
  rewrite report_and_export_run.
  destruct csv as [p|].
  - destruct (String.eqb_spec p "") as [->|Np].
    + eexists. split; [reflexivity|]. cbn [stdout files].
      rewrite <- !app_assoc. eauto.
    + rewrite export_to_csv_total. cbv zeta.
      assert (K : forall out rows,
                 exists st',
                   (Ok tt, mkState out (dict_set (files st) p rows))
                   = (Ok tt, st') /\
                   (forall q, Some p <> Some q ->
                              dict_get (files st') q = dict_get (files st) q) /\
                   (Some p = None \/ Some p = Some "" -> files st' = files st)).
      { intros out rows. eexists. split; [reflexivity|]. cbn [files]. split.
        - intros q Hq. apply dict_get_set_other. congruence.
        - intros [C|C]; congruence. }
      destruct (w_write_error w p) as [[e|n e]|].
      * eexists. split; [reflexivity|]. cbn [stdout files].
        rewrite <- !app_assoc. split; [eauto|]. split; [reflexivity|].
        intros _. reflexivity.
      * destruct (n <=? S (List.length (collected w logs [])))%nat;
          cbn [stdout files];
          match goal with |- context [mkState ?o (dict_set _ _ ?r)] =>
            destruct (K o r) as (st' & E & Q1 & Q2) end;
          exists st'; (split; [exact E|]); injection E as <-;
          cbn [stdout files] in *; rewrite <- !app_assoc; eauto.
      * cbn [stdout files].
        match goal with |- context [mkState ?o (dict_set _ _ ?r)] =>
          destruct (K o r) as (st' & E & Q1 & Q2) end.
        exists st'. split; [exact E|]. injection E as <-.
        cbn [stdout files] in *. rewrite <- !app_assoc. eauto.
  - eexists. split; [reflexivity|]. cbn [stdout files].
    rewrite <- !app_assoc. eauto.
Qed.

(** X7. The export comes after the report and cannot undo it. When the
    locator returns, with something to report and a path given by
    [--csv], the output of [main] is its output without [--csv] and one
    more line: that the file was exported, the file then holding the
    table; or the error, when the path cannot be opened, no file being
    written, or when a later write or the close fails, the file then
    holding the rows written before. With nothing to report, [--csv]
    changes nothing. *)
Theorem X7_export_follows_the_report
    (version : py_version) (w : world) (hls_dir csv_path : string)
    (logs : list (string * string)) (st : state) :
  fst (find_catapult_logs w hls_dir initial_state) = Ok logs ->
  csv_path <> "" ->
  exists design_runtimes st0 st1,
    fst (collect w logs [] initial_state) = Ok design_runtimes /\
    main version w hls_dir None st = (Ok tt, st0) /\
    main version w hls_dir (Some csv_path) st = (Ok tt, st1) /\
    match design_runtimes with
    | [] => st1 = st0
    | _ =>
        let table := csv_header :: map csv_row (sorted_items design_runtimes) in
        let exported :=
          stdout st1
          = stdout st0
            ++ [(newline ++ "CSV report exported to: " ++ csv_path)%string] /\
          files st1 = dict_set (files st) csv_path table in
        match w_write_error w csv_path with
        | None => exported
        | Some (FailOpen e) =>
            stdout st1
            = stdout st0
              ++ [("Error writing CSV file " ++ csv_path ++ ": "
                   ++ e_msg e)%string] /\
            files st1 = files st
        | Some (FailAfter n e) =>
            if (n <=? S (List.length design_runtimes))%nat
            then
              stdout st1
              = stdout st0
                ++ [("Error writing CSV file " ++ csv_path ++ ": "
                     ++ e_msg e)%string] /\
              files st1 = dict_set (files st) csv_path (firstn n table)
            else exported
        end
    end.
Proof.
  intros H Np. exists (collected w logs []).
  rewrite collect_run, !(main_unfold version w hls_dir _ st logs H).
  cbv zeta. cbn [fst].
  clear H. destruct logs as [|l logs']; cbn [truthy negb].
  { eexists _, _. repeat split. }
  destruct (collected w (l :: logs') []) as [|x dr] eqn:C; cbn [truthy negb].
  { eexists _, _. repeat split. }
  rewrite !report_and_export_run.
  destruct (String.eqb_spec csv_path "") as [E|_]; [contradiction|].
  rewrite export_to_csv_total. cbv zeta.
  destruct (w_write_error w csv_path) as [[e|n e]|].
  - eexists _, _. repeat split.
  - destruct (n <=? S (List.length (x :: dr)))%nat; eexists _, _; repeat split.
  - eexists _, _. repeat split.
Qed.

(** ** The sign of the floats *)

Section SignFacts.

Local Open Scope Z_scope.

Lemma shr_1_nonneg (mrs : shr_record) :
  0 <= shr_m mrs -> 0 <= shr_m (shr_1 mrs).
Proof.
  destruct mrs as [m r s]. simpl.
  destruct m as [|[p|p|]|p]; simpl; lia.
Qed.

Lemma iter_pos_inv {A : Type} (P : A -> Prop) (f : A -> A) :
  (forall x, P x -> P (f x)) -> forall n x, P x -> P (iter_pos f n x).
Proof.
  intros Hf. induction n as [n IH|n IH|]; intros x Hx; simpl; auto.
Qed.

Lemma shr_nonneg (mrs : shr_record) (e n : Z) :
  0 <= shr_m mrs -> 0 <= shr_m (fst (shr mrs e n)).
Proof.
  intros H. unfold shr. destruct n as [|p|p]; simpl; auto.
  apply (iter_pos_inv (fun r => 0 <= shr_m r)); auto using shr_1_nonneg.
Qed.

Lemma shr_fexp_nonneg (m e : Z) (l : location) :
  0 <= m -> 0 <= shr_m (fst (shr_fexp 53 1024 m e l)).
Proof.
  intros H. unfold shr_fexp. apply shr_nonneg.
  destruct l as [|[]]; exact H.
Qed.

Lemma round_nearest_even_nonneg (m : Z) (l : location) :
  0 <= m -> 0 <= round_nearest_even m l.
Proof.
  intros H. destruct l as [|[]]; simpl; try lia.
  destruct (Z.even m); lia.
Qed.

Lemma binary_round_aux_nonneg (mx ex : Z) (lx : location) :
  0 <= mx -> nonneg_float (binary_round_aux 53 1024 false mx ex lx) = true.
Proof.
  intros H. unfold binary_round_aux.
  pose proof (shr_fexp_nonneg mx ex lx H) as H1.
  destruct (shr_fexp 53 1024 mx ex lx) as [mrs' e']. cbn [fst] in H1.
  pose proof (shr_fexp_nonneg _ e' loc_Exact
                (round_nearest_even_nonneg _ (loc_of_shr_record mrs') H1)) as H2.
  destruct (shr_fexp 53 1024 _ e' loc_Exact) as [mrs'' e'']. cbn [fst] in H2.
  destruct (shr_m mrs'') as [|p|p]; [reflexivity| |lia].
  destruct (Z.leb e'' (1024 - 53)); reflexivity.
Qed.

Lemma float_of_decimal_nonneg (m : N) (k : nat) :
  nonneg_float (float_of_decimal m k) = true.
Proof.
  destruct m as [|p]; [reflexivity|]. unfold float_of_decimal, fdiv, SFdiv.
  unfold SFdiv_core_binary.
  match goal with |- context [Z.div_eucl ?a ?b] =>
    assert (Q : 0 <= a / b);
    [ apply Z.div_pos; [|reflexivity]
    | unfold Z.div in Q; destruct (Z.div_eucl a b) as [q r] ] end.
  - match goal with |- 0 <= match ?s with _ => _ end =>
      destruct s; [lia| |lia] end.
    apply Z.shiftl_nonneg. lia.
  - now apply binary_round_aux_nonneg.
Qed.

Lemma fadd_nonneg (x y : float) :
  nonneg_float x = true -> nonneg_float y = true ->
  nonneg_float (fadd x y) = true.
Proof.
  destruct x as [[]|[]| |[] mx ex]; try discriminate;
    destruct y as [[]|[]| |[] my ey]; try discriminate; intros _ _;
    try reflexivity.
  unfold fadd, SFadd. cbn [cond_Zopp].
  destruct (shl_align mx ex (Z.min ex ey)) as [mx' ex'].
  destruct (shl_align my ey (Z.min ex ey)) as [my' ey']. cbn [fst].
  change (Z.pos mx' + Z.pos my') with (Z.pos (mx' + my')).
  unfold binary_normalize, binary_round.
  destruct (shl_align (mx' + my') _ _) as [mz ez].
  now apply binary_round_aux_nonneg.
Qed.

Lemma sum_plain_nonneg (xs : list float) :
  Forall (fun x => nonneg_float x = true) xs ->
  forall acc, nonneg_float acc = true ->
              nonneg_float (fold_left fadd xs acc) = true.
Proof.
  induction 1 as [|x xs Hx _ IH]; intros acc Ha; simpl; [exact Ha|].
  apply IH. now apply fadd_nonneg.
Qed.

Lemma round2_nonneg (x : float) :
  nonneg_float x = true -> nonneg_float (round2 x) = true.
Proof.
  destruct x as [[]|[]| |[] m e]; try discriminate; intros _; try reflexivity.
  apply float_of_decimal_nonneg.
Qed.

Lemma py_float_nonneg (tok : string) (v : float) :
  py_float tok = Ok v -> nonneg_float v = true.
Proof.
  unfold py_float. destruct (split_dot tok) as [ip fp].
  match goal with |- context [if ?c then _ else _] => destruct c end;
    [|discriminate].
  intros H. injection H as <-. apply float_of_decimal_nonneg.
Qed.

End SignFacts.

Section RuntimeSigns.

Lemma parse_runtime_nonneg (line : string) (v : float) :
  parse_runtime_from_line line = Ok (Some v) -> nonneg_float v = true.
Proof.
  unfold parse_runtime_from_line.
  destruct (re_search runtime_pattern line) as [m|]; [|discriminate].
  destruct (py_float (group_1 m)) as [v'|e] eqn:F.
  - intros H. injection H as <-. exact (py_float_nonneg _ _ F).
  - destruct (e_class e); discriminate.
Qed.

Lemma dict_set_nonneg (d : dict float) (k : string) (v : float) :
  all_nonneg d -> nonneg_float v = true -> all_nonneg (dict_set d k v).
Proof.
  unfold all_nonneg, dict_values. intros H Hv.
  induction d as [|[k' v'] d IH]; simpl.
  - repeat constructor. exact Hv.
  - inversion H as [|? ? H1 H2]; subst.
    destruct (String.eqb k' k); simpl; constructor; auto.
Qed.

Lemma scan_lines_nonneg (lines : list string) :
  forall d d', scan_lines lines d = Ok d' -> all_nonneg d -> all_nonneg d'.
Proof.
  induction lines as [|l lines IH]; intros d d' E H; simpl in E.
  - now injection E as <-.
  - destruct (process_line_cases d l) as [P|(s & v & (_ & _ & Hv) & P)];
      rewrite P in E.
    + eapply IH; eauto.
    + eapply IH; [exact E|]. apply dict_set_nonneg; [exact H|].
      exact (parse_runtime_nonneg _ _ Hv).
Qed.

Lemma parse_result_nonneg (w : world) (p : string) :
  all_nonneg (parse_result w p).
Proof.
  unfold parse_result, scan_file.
  destruct (open_read w p) as [f|e]; [|constructor].
  destruct (scan_lines (f_lines f) []) as [d|e] eqn:E; [|constructor].
  destruct (f_error f); [constructor|].
  eapply scan_lines_nonneg; [exact E | constructor].
Qed.

Lemma collected_nonneg (w : world) (logs : list (string * string)) :
  forall dr,
    Forall (fun it : string * dict float => all_nonneg (snd it)) dr ->
    Forall (fun it : string * dict float => all_nonneg (snd it))
           (collected w logs dr).
Proof.
  induction logs as [|[d p] logs IH]; intros dr H; [exact H|].
  rewrite collected_cons. apply IH. cbn [fst snd].
  destruct (truthy (parse_result w p)); [|exact H].
  pose proof (parse_result_nonneg w p) as N. revert N.
  generalize (parse_result w p). intros s N.
  induction dr as [|[k' v'] dr IHdr]; simpl.
  - repeat constructor. exact N.
  - inversion H as [|? ? H1 H2]; subst.
    destruct (String.eqb k' d); constructor; auto.
Qed.

Lemma present_values_nonneg (steps : list string) (d : dict float) :
  all_nonneg d ->
  Forall (fun x => nonneg_float x = true)
         (flat_map (fun step => match dict_get d step with
                                | Some v => [v]
                                | None => []
                                end) steps).
Proof.
  intros H. apply Forall_flat_map, Forall_forall. intros s _.
  destruct (dict_get d s) as [v|] eqn:G; [|constructor].
  repeat constructor. unfold all_nonneg, dict_values in H.
  rewrite Forall_forall in H. apply H.
  clear H. induction d as [|[k x] d IH]; simpl in *; [discriminate|].
  destruct (String.eqb k s); [injection G as ->; now left | right; auto].
Qed.

End RuntimeSigns.

(** X8. A runtime is never negative and never a NaN: what the extraction
    returns is zero, a positive number or the positive infinity; so is
    every value of every mapping the parser returns and [main] collects;
    and so are, for such a mapping, the total of the report under the
    plain [sum] and the rounded total of the export. *)
Theorem X8_runtimes_are_not_negative (w : world) :
  (forall line v,
      parse_runtime_from_line line = Ok (Some v) -> nonneg_float v = true) /\
  (forall logfile_path st step_runtimes step v,
      fst (parse_hls_runtimes w logfile_path st) = Ok step_runtimes ->
      dict_get step_runtimes step = Some v ->
      nonneg_float v = true) /\
  (forall logfiles st design_runtimes design_name step_runtimes,
      fst (collect w logfiles [] st) = Ok design_runtimes ->
      In (design_name, step_runtimes) design_runtimes ->
      (forall v, In v (dict_values step_runtimes) -> nonneg_float v = true) /\
      nonneg_float (py_sum Py311 (dict_values step_runtimes)) = true /\
      nonneg_float (round2 (present_total expected_steps_export step_runtimes))
      = true).
Proof.
  split; [exact parse_runtime_nonneg|]. split.
  - intros p st d step v E G. rewrite parse_result_fst in E. injection E as <-.
    pose proof (parse_result_nonneg w p) as N.
    unfold all_nonneg, dict_values in N. rewrite Forall_forall in N. apply N.
    clear N. induction (parse_result w p) as [|[k x] d IH]; simpl in *;
      [discriminate|].
    destruct (String.eqb k step); [injection G as ->; now left | right; auto].
  - intros logs st dr name d E Hin. rewrite collect_run in E.
    cbn [fst] in E. injection E as <-.
    pose proof (collected_nonneg w logs [] (Forall_nil _)) as N.
    rewrite Forall_forall in N. specialize (N _ Hin). cbn [snd] in N.
    split; [|split].
    + intros v Hv. unfold all_nonneg in N. rewrite Forall_forall in N. auto.
    + apply sum_plain_nonneg; [exact N | reflexivity].
    + apply round2_nonneg. unfold present_total.
      apply sum_plain_nonneg; [now apply present_values_nonneg | reflexivity].
Qed.


(** ** Totals of the report and of the export *)

Section TotalFacts.

Lemma flat_map_agree {A B : Type} (f g : A -> list B) (l : list A) :
  (forall x, In x l -> f x = g x) -> flat_map f l = flat_map g l.
Proof.
  induction l as [|x l IH]; intros H; simpl; [reflexivity|].
  rewrite (H x) by now left. f_equal. apply IH. intros y Hy. apply H. now right.
Qed.

Lemma subseq_incl (ks steps : list string) :
  subseq ks steps = true -> forall k, In k ks -> In k steps.
Proof.
  revert ks; induction steps as [|s steps IH]; intros [|k ks] H x Hx;
    simpl in *; try tauto; try discriminate.
  destruct (String.eqb_spec k s) as [->|N].
  - destruct Hx as [<-|Hx]; [now left | right; eauto].
  - right. apply (IH _ H). exact Hx.
Qed.

(** The values of a mapping whose keys come in the order of [steps] are
    the values present for [steps], in that order. *)
Lemma subseq_values (steps : list string) :
  NoDup steps ->
  forall d : dict float,
    subseq (dict_keys d) steps = true ->
    flat_map (fun step => match dict_get d step with
                          | Some v => [v]
                          | None => []
                          end) steps
    = dict_values d.
Proof.
  induction 1 as [|s steps Hs N IH]; intros d H.
  - destruct d; [reflexivity | discriminate].
  - destruct d as [|[k v] d].
    + simpl. clear. induction steps; simpl; auto.
    + cbn [dict_keys map fst subseq] in H. cbn [flat_map dict_get].
      destruct (String.eqb_spec k s) as [->|Nk].
      * cbn [app]. change (dict_values ((s, v) :: d)) with (v :: dict_values d).
        f_equal. rewrite <- (IH d H). apply flat_map_agree. intros s' Hs'.
        cbn [dict_get].
        destruct (String.eqb_spec s s') as [->|_]; [contradiction | reflexivity].
      * rewrite <- (IH ((k, v) :: d) H).
        destruct (dict_get d s) as [x|] eqn:G; [|reflexivity].
        exfalso. apply Hs. apply (subseq_incl _ _ H). right.
        destruct (in_dec string_dec s (dict_keys d)) as [I|I]; [exact I|].
        apply dict_get_none_keys in I. congruence.
Qed.

End TotalFacts.

(** X9. The two total columns tell the same number: the text the report
    prints for a total that is finite and not negative, format [.2f],
    read back by [float], is the [round(total, 2)] that the export
    stores. *)
Theorem X9_printed_total_reads_back_as_rounded_total (total : float) :
  nonneg_float total = true ->
  is_finite total = true ->
  py_float (format_2f total) = Ok (round2 total).
Proof.
  destruct total as [[]|[]| |[] m e]; try discriminate; intros _ _;
    [reflexivity|].
  unfold format_2f, round2. cbn [sign_str append].
  set (h := scaled_hundredths m e).
  pose proof (two_digits_value (h mod 100)) as T.
  unfold two_digits_reads_back in T.
  destruct (two_digits (h mod 100)) as [|a [|b [|]]];
    try (discriminate T; apply N.mod_lt; discriminate).
  assert (D : is_digit a && is_digit b
              && (10 * digit_val a + digit_val b =? h mod 100)%N = true)
    by (apply T, N.mod_lt; discriminate).
  apply andb_true_iff in D. destruct D as [D V].
  apply andb_true_iff in D. destruct D as [Da Db]. apply N.eqb_eq in V.
  unfold py_float.
  change (str_of_N (h / 100) ++ "." ++ String a (String b ""))%string
    with (str_of_N (h / 100) ++ String "." (String a (String b "")))%string.
  rewrite split_dot_digits by apply all_digits_uint.
  unfold str_of_N at 1. rewrite all_digits_uint.
  cbn [all_chars]. rewrite Da, Db. cbn [andb].
  destruct (String.eqb_spec
              (str_of_N (h / 100) ++ String a (String b ""))%string "")
    as [E|_].
  { apply app_str_eq_nil in E. destruct E as [_ E]. discriminate E. }
  cbn [negb]. rewrite digits_val_app, digits_val_str_of_N. cbn [digits_val String.length].
  f_equal. f_equal.
  rewrite (N.div_mod h 100) at 2 by discriminate. lia.
Qed.

(** X10. The two totals of a design are the same number when its steps
    were recorded in the order of the expected list. For a mapping all of
    whose designs are such, the row of the text report, under the plain
    [sum] (Python up to 3.11), prints the sum, from [0.0], of the
    recorded values in the order of the mapping, and the exported row
    holds that very sum rounded to two decimals. *)
Theorem X10_totals_agree_in_schedule_order
    (w : world) (design_runtimes : dict (dict float)) (csv_path : string)
    (st st' : state) :
  (forall design_name step_runtimes,
      In (design_name, step_runtimes) design_runtimes ->
      subseq (dict_keys step_runtimes) expected_steps_export = true) ->
  w_write_error w csv_path = None ->
  let total := fun item : string * dict float =>
                 fold_left (SFadd 53 1024) (map snd (snd item))
                           (S754_zero false) in
  generate_report Py311 design_runtimes st
  = (Ok tt,
     mkState
       (stdout st
        ++ [(newline ++ "HLS Runtime Summary:")%string;
            "------------------------------------------------------------"]
        ++ map (fun item => report_row (fst item) (total item))
               (sorted_items design_runtimes))
       (files st)) /\
  export_to_csv w design_runtimes csv_path st'
  = (Ok tt,
     mkState
       (stdout st'
        ++ [(newline ++ "CSV report exported to: " ++ csv_path)%string])
       (dict_set (files st') csv_path
          (csv_header
           :: map (fun item =>
                     CStr (fst item) :: CFloat (round2 (total item))
                     :: map (step_cell (snd item)) expected_steps_export)
                  (sorted_items design_runtimes)))).
Proof.
  intros H E total. split.
  - rewrite generate_report_run. reflexivity.
  - rewrite (export_to_csv_run w _ _ _ E). do 4 f_equal.
    apply map_ext_in. intros [name sr] Hin. unfold csv_row. cbn [fst snd].
    do 2 f_equal. unfold present_total, total. cbn [snd].
    rewrite subseq_values; [reflexivity | |].
    + repeat constructor; simpl; intuition discriminate.
    + apply (H name).
      apply (Permutation_in _ (sorted_items_perm design_runtimes)), Hin.
Qed.

(** ** The order of the logs *)

Section OrderOfLogs.

Lemma dict_set_absent {V : Type} (d : dict V) (k : string) (v : V) :
  dict_get d k = None -> dict_set d k v = d ++ [(k, v)].
Proof.
  induction d as [|[k' v'] d IH]; simpl; [reflexivity|].
  destruct (String.eqb k' k); [discriminate|]. intros H. now rewrite IH.
Qed.

Lemma dict_get_app_none {V : Type} (d1 d2 : dict V) (k : string) :
  dict_get (d1 ++ d2) k = None <-> dict_get d1 k = None /\ dict_get d2 k = None.
Proof.
  rewrite !dict_get_none_keys. unfold dict_keys. rewrite map_app, in_app_iff.
  tauto.
Qed.

Variable w : world.

Lemma kept_keys (logs : list (string * string)) (k : string) :
  In k (dict_keys (kept w logs)) -> In k (map fst logs).
Proof.
  unfold kept, dict_keys. rewrite map_map. cbn [fst].
  rewrite !in_map_iff. intros (l & <- & Hl). apply filter_In in Hl.
  exists l. tauto.
Qed.

(** For logs of distinct designs the loop only appends. *)
Lemma collected_distinct (logs : list (string * string)) :
  NoDup (map fst logs) ->
  forall dr,
    (forall k, In k (map fst logs) -> dict_get dr k = None) ->
    collected w logs dr = dr ++ kept w logs.
Proof.
  induction logs as [|[d p] logs IH]; intros N dr H.
  - unfold kept. simpl. now rewrite app_nil_r.
  - inversion N as [|? ? Hd N']; subst. rewrite collected_cons. cbn [fst snd].
    unfold kept. cbn [filter snd].
    fold (kept w logs).
    destruct (truthy (parse_result w p)).
    + rewrite IH; [|exact N'|].
      * rewrite dict_set_absent by (apply H; now left).
        cbn [map fst snd]. fold (kept w logs). now rewrite <- app_assoc.
      * intros k Hk. rewrite dict_get_set_other by (intros ->; contradiction).
        apply H. now right.
    + fold (kept w logs). apply IH; [exact N'|]. intros k Hk. apply H. now right.
Qed.

Lemma kept_perm (l1 l2 : list (string * string)) :
  Permutation l1 l2 -> Permutation (kept w l1) (kept w l2).
Proof.
  intros P. unfold kept. apply Permutation_map.
  induction P as [|x l l' P IH|x y l|l l' l'' P1 IH1 P2 IH2]; simpl.
  - constructor.
  - destruct (truthy _); [now constructor | exact IH].
  - destruct (truthy (parse_result w (snd x)));
      destruct (truthy (parse_result w (snd y)));
      try reflexivity. apply perm_swap.
  - now transitivity (filter (fun l0 : string * string =>
                                truthy (parse_result w (snd l0))) l').
Qed.

End OrderOfLogs.

Section SortedUnique.

Context {V : Type}.

Lemma same_key_same_item (l : list (string * V)) (a b : string * V) :
  NoDup (map fst l) -> In a l -> In b l -> fst a = fst b -> a = b.
Proof.
  induction l as [|x l IH]; intros N Ha Hb E; [destruct Ha|].
  inversion N as [|? ? Hx N']; subst.
  destruct Ha as [<-|Ha], Hb as [<-|Hb]; auto.
  - exfalso. apply Hx. rewrite E. now apply in_map.
  - exfalso. apply Hx. rewrite <- E. now apply in_map.
Qed.

(** Two sorted lists with the same items, of distinct names, are equal. *)
Lemma sorted_unique (l1 : list (string * V)) :
  forall l2,
    StronglySorted name_le l1 -> StronglySorted name_le l2 ->
    Permutation l1 l2 -> NoDup (map fst l1) -> l1 = l2.
Proof.
  induction l1 as [|x l1 IH]; intros l2 S1 S2 P N.
  - apply Permutation_nil in P. now subst.
  - destruct l2 as [|y l2].
    { apply Permutation_sym, Permutation_nil in P. discriminate. }
    inversion S1 as [|? ? S1' F1]; inversion S2 as [|? ? S2' F2]; subst.
    assert (E : x = y).
    { apply (same_key_same_item (x :: l1)); [exact N | now left | |].
      - apply (Permutation_in _ (Permutation_sym P)). now left.
      - assert (Hxy : name_le y x \/ x = y).
        { assert (I : In x (y :: l2)) by (apply (Permutation_in _ P); now left).
          destruct I as [->|I]; [now right | left].
          rewrite Forall_forall in F2. now apply F2. }
        assert (Hyx : name_le x y \/ x = y).
        { assert (I : In y (x :: l1))
            by (apply (Permutation_in _ (Permutation_sym P)); now left).
          destruct I as [->|I]; [now right | left].
          rewrite Forall_forall in F1. now apply F1. }
        destruct Hxy as [Hxy| ->]; [|reflexivity].
        destruct Hyx as [Hyx| ->]; [|reflexivity].
        now apply String.leb_antisym. }
    subst y. f_equal. apply IH; auto.
    + now apply Permutation_cons_inv in P.
    + now inversion N.
Qed.

Lemma sorted_items_of_perm (d1 d2 : dict V) :
  Permutation d1 d2 -> NoDup (dict_keys d1) ->
  sorted_items d1 = sorted_items d2.
Proof.
  intros P N. apply sorted_unique; try apply sorted_items_sorted.
  - rewrite (sorted_items_perm d1), (sorted_items_perm d2). exact P.
  - apply (Permutation_NoDup (l := dict_keys d1)); [|exact N].
    apply Permutation_map, Permutation_sym, sorted_items_perm.
Qed.

End SortedUnique.

(** X11. The order in which the logs are found does not show: when the
    located logs have distinct design names, any other order of the same
    logs makes [main] collect the same entries, and the text report and
    the export are the same, line for line and row for row. *)
Theorem X11_output_does_not_depend_on_traversal_order
    (w : world) (logs logs' : list (string * string)) :
  distinct (map fst logs) = true ->
  Permutation logs logs' ->
  exists design_runtimes design_runtimes',
    (forall st, fst (collect w logs [] st) = Ok design_runtimes) /\
    (forall st, fst (collect w logs' [] st) = Ok design_runtimes') /\
    Permutation design_runtimes design_runtimes' /\
    (forall version st,
        generate_report version design_runtimes st
        = generate_report version design_runtimes' st) /\
    (forall csv_path st,
        export_to_csv w design_runtimes csv_path st
        = export_to_csv w design_runtimes' csv_path st).
Proof.
  intros D P. apply distinct_NoDup in D.
  assert (D' : NoDup (map fst logs'))
    by (apply (Permutation_NoDup (l := map fst logs));
        [now apply Permutation_map | exact D]).
  exists (collected w logs []), (collected w logs' []).
  rewrite !collected_distinct by (auto; reflexivity). cbn [app].
  assert (S : sorted_items (kept w logs) = sorted_items (kept w logs')).
  { apply sorted_items_of_perm; [now apply kept_perm|].
    unfold kept, dict_keys. rewrite map_map. cbn [fst].
    clear -D. induction logs as [|l logs IH]; simpl; [constructor|].
    inversion D as [|? ? Hl D']; subst.
    destruct (truthy _); [|auto]. simpl. constructor; [|auto].
    intros I. apply Hl. apply in_map_iff in I. destruct I as (x & <- & Hx).
    apply filter_In in Hx. apply in_map. tauto. }
  split; [intros st; now rewrite collect_run, collected_distinct by (auto; reflexivity)|].
  split; [intros st; now rewrite collect_run, collected_distinct by (auto; reflexivity)|].
  split; [now apply kept_perm|]. split.
  - intros version st. now rewrite !generate_report_run, S.
  - intros p st.
    assert (Len : List.length (kept w logs) = List.length (kept w logs'))
      by (apply Permutation_length; now apply kept_perm).
    rewrite !export_to_csv_total. cbv zeta. now rewrite S, Len.
Qed.

(** ** Paths written and read back *)

Section PathFacts.

Local Open Scope string_scope.

Lemma split_on_not_nil (sep : ascii) (s : string) : split_on sep s <> [].
Proof.
  destruct s as [|c s]; simpl; [discriminate|].
  destruct (Ascii.eqb c sep); [discriminate|].
  destruct (split_on sep s); discriminate.
Qed.

Lemma split_on_app (sep : ascii) (a b : string) :
  all_chars (fun c => negb (Ascii.eqb c sep)) a = true ->
  split_on sep (a ++ String sep b) = a :: split_on sep b.
Proof.
  induction a as [|c a IH]; simpl; intros H.
  - now rewrite Ascii.eqb_refl.
  - apply andb_true_iff in H. destruct H as [Hc Ha].
    apply negb_true_iff in Hc. now rewrite Hc, (IH Ha).
Qed.

Lemma split_on_whole (sep : ascii) (a : string) :
  all_chars (fun c => negb (Ascii.eqb c sep)) a = true ->
  split_on sep a = [a].
Proof.
  induction a as [|c a IH]; simpl; intros H; [reflexivity|].
  apply andb_true_iff in H. destruct H as [Hc Ha].
  apply negb_true_iff in Hc. now rewrite Hc, (IH Ha).
Qed.

Lemma split_on_parts (sep : ascii) (s : string) :
  Forall (fun p => all_chars (fun c => negb (Ascii.eqb c sep)) p = true)
         (split_on sep s).
Proof.
  induction s as [|c s IH]; simpl; [repeat constructor|].
  destruct (Ascii.eqb c sep) eqn:E; [constructor; [reflexivity | exact IH]|].
  destruct (split_on sep s) as [|h t]; [repeat constructor; simpl; now rewrite E|].
  inversion IH; subst. constructor; [simpl; rewrite E; assumption | assumption].
Qed.

Lemma split_join (parts : list string) :
  parts <> [] ->
  Forall (fun p => no_slash p = true) parts ->
  split_on "/" (join "/" parts) = parts.
Proof.
  induction parts as [|p parts IH]; intros N F; [congruence|].
  inversion F as [|? ? Hp F']; subst.
  destruct parts as [|q parts].
  - simpl. now apply split_on_whole.
  - change (join "/" (p :: q :: parts))
      with (p ++ String "/" (join "/" (q :: parts))).
    rewrite split_on_app by exact Hp. f_equal. apply IH; [discriminate | exact F'].
Qed.

Lemma split_on_sep (sep : ascii) (a b : string) :
  split_on sep (a ++ String sep b) = (split_on sep a ++ split_on sep b)%list.
Proof.
  induction a as [|c a IH]; simpl.
  - now rewrite Ascii.eqb_refl.
  - destruct (Ascii.eqb c sep); [now rewrite IH|].
    rewrite IH. pose proof (split_on_not_nil sep a) as N.
    destruct (split_on sep a); [congruence | reflexivity].
Qed.

Lemma join_app (p q : list string) :
  p <> [] -> q <> [] ->
  join "/" (p ++ q) = join "/" p ++ String "/" (join "/" q).
Proof.
  intros Np Nq. induction p as [|x p IH]; [congruence|].
  destruct p as [|y p].
  - destruct q; [congruence | reflexivity].
  - change (join "/" ((x :: y :: p) ++ q))
      with (x ++ String "/" (join "/" ((y :: p) ++ q))).
    rewrite IH by discriminate.
    change (join "/" (x :: y :: p)) with (x ++ String "/" (join "/" (y :: p))).
    now rewrite !app_str_assoc.
Qed.

Lemma part_no_anchor (k : string) : part_ok k = true -> is_anchor k = false.
Proof.
  unfold part_ok, is_anchor, no_slash. intros H.
  apply andb_true_iff in H. destruct H as [H1 H2].
  destruct k as [|c k]; [discriminate H1|].
  cbn [all_chars] in H2. apply andb_true_iff in H2. destruct H2 as [H2 _].
  apply negb_true_iff in H2. cbn [starts_with].
  destruct (Ascii.eqb_spec "/" c) as [<-|_]; [|reflexivity].
  rewrite Ascii.eqb_refl in H2. discriminate H2.
Qed.

Lemma part_no_slash (k : string) : part_ok k = true -> no_slash k = true.
Proof. unfold part_ok. intros H. apply andb_true_iff in H. tauto. Qed.

Lemma part_kept (k : string) :
  part_ok k = true -> negb (String.eqb k "" || String.eqb k ".") = true.
Proof. unfold part_ok. intros H. apply andb_true_iff in H. tauto. Qed.

Lemma name_is_part (mx : nat) (k : string) : name_ok mx k = true -> part_ok k = true.
Proof. unfold name_ok. intros H. rewrite !andb_true_iff in H. tauto. Qed.

Lemma parts_split (p : list string) :
  Forall (fun k => part_ok k = true) p ->
  filter (fun part => negb (String.eqb part "" || String.eqb part "."))
         (split_on "/" (join "/" p)) = p.
Proof.
  intros F. destruct p as [|k p]; [reflexivity|].
  rewrite split_join.
  - apply forallb_filter_id. apply forallb_forall. intros x Hx.
    rewrite Forall_forall in F. now apply part_kept, F.
  - discriminate.
  - eapply Forall_impl; [|exact F]. intros x. apply part_no_slash.
Qed.

Lemma join_no_slash_start (p : list string) :
  Forall (fun k => part_ok k = true) p -> starts_with "/" (join "/" p) = false.
Proof.
  intros F. destruct p as [|k p]; [reflexivity|].
  inversion F as [|? ? Hk _]; subst.
  pose proof (part_no_anchor _ Hk) as A. unfold is_anchor in A.
  destruct p as [|q p]; [exact A|].
  change (join "/" (k :: q :: p)) with (k ++ String "/" (join "/" (q :: p))).
  destruct k as [|c k]; [discriminate Hk|].
  cbn [append starts_with] in *. exact A.
Qed.

(** [str(p)], the anchor apart. *)
Lemma path_str_relative (p : path) :
  Forall (fun k => part_ok k = true) p -> p <> []%list ->
  path_str p = join "/" p.
Proof.
  intros F N. destruct p as [|k p]; [congruence|].
  inversion F as [|? ? Hk _]; subst.
  unfold path_str. now rewrite (part_no_anchor _ Hk).
Qed.

Lemma path_str_absolute (a : string) (p : path) :
  anchor a -> path_str (a :: p) = a ++ join "/" p.
Proof. intros [->| ->]; reflexivity. Qed.

(** [Path(str(p))] is [p]. *)
Lemma Path_of_str (p : path) : wf_path p -> Path (path_str p) = p.
Proof.
  intros [q F|a q A F].
  - destruct q as [|k q]; [reflexivity|].
    rewrite path_str_relative by (auto; discriminate).
    unfold Path. rewrite (join_no_slash_start _ F). now apply parts_split.
  - rewrite path_str_absolute by exact A.
    pose proof (join_no_slash_start _ F) as S.
    pose proof (parts_split _ F) as P.
    unfold Path. destruct A as [->| ->].
    + change (starts_with "/" ("/" ++ join "/" q)) with true.
      change (starts_with "//" ("/" ++ join "/" q))
        with (starts_with "/" (join "/" q)).
      rewrite S. cbn [andb].
      change (split_on "/" ("/" ++ join "/" q))
        with ("" :: split_on "/" (join "/" q))%list.
      cbn [filter String.eqb orb negb]. now rewrite P.
    + change (starts_with "/" ("//" ++ join "/" q)) with true.
      change (starts_with "//" ("//" ++ join "/" q)) with true.
      change (starts_with "///" ("//" ++ join "/" q))
        with (starts_with "/" (join "/" q)).
      rewrite S. cbn [andb negb].
      change (split_on "/" ("//" ++ join "/" q))
        with ("" :: "" :: split_on "/" (join "/" q))%list.
      cbn [filter String.eqb orb negb]. now rewrite P.
Qed.

(** The parts of [Path(s)] are such parts. *)
Lemma Path_wf (s : string) : wf_path (Path s).
Proof.
  assert (F : Forall (fun k => part_ok k = true)
                (filter (fun part => negb (String.eqb part "" || String.eqb part "."))
                        (split_on "/" s))).
  { apply Forall_forall. intros x Hx. apply filter_In in Hx.
    destruct Hx as [Hx Hf]. unfold part_ok. rewrite Hf. simpl.
    pose proof (split_on_parts "/" s) as P. rewrite Forall_forall in P.
    exact (P x Hx). }
  unfold Path. destruct (starts_with "/" s).
  - apply wf_absolute; [|exact F].
    destruct (starts_with "//" s && negb (starts_with "///" s));
      [now right | now left].
  - now apply wf_relative.
Qed.

Lemma wf_path_app (p rel : path) :
  wf_path p -> Forall (fun k => part_ok k = true) rel ->
  wf_path (p ++ rel)%list.
Proof.
  intros [q F|a q A F] R.
  - apply wf_relative, Forall_app. now split.
  - apply (wf_absolute a (q ++ rel)%list A), Forall_app. now split.
Qed.

Lemma has_nul_app (a b : string) : has_nul (a ++ b) = has_nul a || has_nul b.
Proof.
  induction a as [|c a IH]; simpl; [reflexivity|].
  now rewrite IH, orb_assoc.
Qed.

Lemma byte_length_app (a b : string) :
  byte_length (a ++ b) = byte_length a + byte_length b.
Proof. induction a as [|c a IH]; simpl; [reflexivity | rewrite IH; lia]. Qed.

Lemma has_nul_join (p : list string) :
  Forall (fun k => has_nul k = false) p -> has_nul (join "/" p) = false.
Proof.
  induction p as [|k p IH]; intros F; [reflexivity|].
  inversion F as [|? ? Hk F']; subst.
  destruct p as [|q p]; [exact Hk|].
  change (join "/" (k :: q :: p)) with (k ++ String "/" (join "/" (q :: p))).
  rewrite has_nul_app, Hk. cbn [has_nul orb]. cbn. now apply IH.
Qed.

End PathFacts.

(** ** What the operating system finds under a root *)

Section OsFacts.

Variable w : world.

Lemma names_ok_dir (mx : nat) (es : list (string * node)) :
  names_ok mx (Dir es) = true ->
  forall k c, In (k, c) es -> name_ok mx k = true /\ names_ok mx c = true.
Proof.
  simpl. induction es as [|[k' c'] es IH]; intros H k c [];
    apply andb_true_iff in H; destruct H as [H1 H2];
    apply andb_true_iff in H1.
  - congruence.
  - now apply IH.
Qed.

Lemma descend_names_ok (mx : nat) (rel : list string) :
  forall n t,
    names_ok mx n = true -> descend n rel = Found t ->
    Forall (fun k => name_ok mx k = true) rel /\ names_ok mx t = true.
Proof.
  induction rel as [|k rel IH]; intros n t O R; simpl in R.
  - injection R as <-. split; [constructor | exact O].
  - destruct n as [d|es]; [discriminate|].
    destruct (find_entry k es) as [c|] eqn:E; [|discriminate].
    apply find_entry_in in E.
    destruct (names_ok_dir _ _ O _ _ E) as [Hk Hc].
    destruct (IH _ _ Hc R) as [F Ht]. split; [now constructor | exact Ht].
Qed.

(** A walk that ends well goes on from where it ended. *)
Lemma os_walk_app (c1 c2 : list string) :
  forall loc n,
    fst (os_walk w loc c1) = Found n ->
    os_walk w loc (c1 ++ c2) = os_walk w (snd (os_walk w loc c1)) c2.
Proof.
  induction c1 as [|c c1 IH]; intros loc n H; cbn [os_walk app] in *.
  - reflexivity.
  - destruct (descend (w_root w) loc) as [[d|es]| | |]; try discriminate H.
    destruct (String.eqb c "" || String.eqb c "."); [now apply (IH _ n)|].
    destruct (String.eqb c ".."); [now apply (IH _ n)|].
    destruct (w_name_max w <? byte_length c)%nat; [discriminate H|].
    destruct (find_entry c es); [now apply (IH _ n) | discriminate H].
Qed.

(** Names are followed as the tree has them. *)
Lemma os_walk_names (rel : list string) :
  forall loc n t,
    Forall (fun k => name_ok (w_name_max w) k = true) rel ->
    descend (w_root w) loc = Found n ->
    descend n rel = Found t ->
    os_walk w loc rel = (Found t, loc ++ rel).
Proof.
  induction rel as [|k rel IH]; intros loc n t F L D.
  - cbn [os_walk]. simpl in D. rewrite app_nil_r. congruence.
  - inversion F as [|? ? Hk F']; subst. cbn [os_walk]. rewrite L.
    simpl in D. destruct n as [d|es]; [discriminate|].
    destruct (find_entry k es) as [c|] eqn:E; [|discriminate].
    unfold name_ok, part_ok in Hk. rewrite !andb_true_iff in Hk.
    destruct Hk as [[[[Hk1 _] Hk2] _] Hk3].
    apply negb_true_iff in Hk1, Hk2. rewrite Hk1, Hk2.
    apply Nat.leb_le in Hk3.
    replace (w_name_max w <? byte_length k)%nat with false
      by (symmetry; apply Nat.ltb_ge; exact Hk3).
    rewrite (IH (loc ++ [k]) c t F'); [now rewrite <- app_assoc| |exact D].
    rewrite descend_app, L. simpl. now rewrite E.
Qed.

Lemma os_walk_under (comps rel : list string) (loc : list string)
    (root t : node) :
  names_ok (w_name_max w) (w_root w) = true ->
  fst (os_walk w loc comps) = Found root ->
  descend root rel = Found t ->
  fst (os_walk w loc (comps ++ rel)) = Found t.
Proof.
  intros O H D. rewrite (os_walk_app _ _ _ _ H).
  pose proof (os_walk_found _ _ _ _ H) as L.
  destruct (descend_names_ok _ _ _ _ O L) as [_ Or].
  destruct (descend_names_ok _ _ _ _ Or D) as [F _].
  now rewrite (os_walk_names rel _ root t F L D).
Qed.

(** A last component that is empty or ["."] changes nothing. *)
Lemma os_walk_stay (comps : list string) (c : string) :
  String.eqb c "" || String.eqb c "." = true ->
  forall loc n,
    fst (os_walk w loc (comps ++ [c])) = Found n ->
    fst (os_walk w loc comps) = Found n.
Proof.
  intros Hc. induction comps as [|x comps IH]; intros loc n H;
    cbn [os_walk app] in *.
  - destruct (descend (w_root w) loc) as [[d|es]| | |]; try discriminate H.
    now rewrite Hc in H.
  - destruct (descend (w_root w) loc) as [[d|es]| | |]; try discriminate H.
    destruct (String.eqb x "" || String.eqb x "."); [now apply IH|].
    destruct (String.eqb x ".."); [now apply IH|].
    destruct (w_name_max w <? byte_length x)%nat; [discriminate H|].
    destruct (find_entry x es); [now apply IH | discriminate H].
Qed.

Lemma os_resolve_names (s : string) (root : node) :
  names_ok (w_name_max w) (w_root w) = true ->
  os_resolve w s = Found root -> names_ok (w_name_max w) root = true.
Proof.
  intros O H. unfold os_resolve in H.
  destruct (String.eqb s ""); [discriminate|].
  destruct (w_path_max w <=? byte_length s)%nat; [discriminate|].
  apply os_walk_found in H. now destruct (descend_names_ok _ _ _ _ O H).
Qed.

Lemma join_parts_split (rel : list string) :
  rel <> [] -> Forall (fun k => part_ok k = true) rel ->
  split_on "/" (join "/" rel) = rel.
Proof.
  intros N F. apply split_join; [exact N|].
  eapply Forall_impl; [|exact F]. intros x. apply part_no_slash.
Qed.

(** Under a root whose path is [s], the path [s/rel]. *)
Lemma os_resolve_sep (s : string) (rel : list string) (root t : node) :
  names_ok (w_name_max w) (w_root w) = true ->
  rel <> [] ->
  os_resolve w s = Found root ->
  descend root rel = Found t ->
  byte_length (s ++ String "/" (join "/" rel)) < w_path_max w ->
  os_resolve w (s ++ String "/" (join "/" rel)) = Found t.
Proof.
  intros O N R D L.
  pose proof (os_resolve_names _ _ O R) as Or.
  destruct (descend_names_ok _ _ _ _ Or D) as [F _].
  assert (Fp : Forall (fun k => part_ok k = true) rel)
    by (eapply Forall_impl; [|exact F]; intros x; apply name_is_part).
  unfold os_resolve in *.
  destruct (String.eqb_spec s "") as [|Ns]; [discriminate R|].
  destruct (w_path_max w <=? byte_length s)%nat; [discriminate R|].
  replace (String.eqb (s ++ String "/" (join "/" rel)) "") with false
    by (destruct s; reflexivity).
  replace (w_path_max w <=? byte_length (s ++ String "/" (join "/" rel)))%nat
    with false by (symmetry; apply Nat.leb_gt; exact L).
  replace (starts_with "/" (s ++ String "/" (join "/" rel)))
    with (starts_with "/" s) by (destruct s; [congruence | reflexivity]).
  rewrite split_on_sep, (join_parts_split _ N Fp).
  now apply (os_walk_under _ _ _ root).
Qed.

(** Under a root, the path of the root as [Path] writes it, and then the
    names. *)
Lemma os_resolve_under (hls_path rel : path) (root t : node) :
  names_ok (w_name_max w) (w_root w) = true ->
  wf_path hls_path -> rel <> [] ->
  os_resolve w (path_str hls_path) = Found root ->
  descend root rel = Found t ->
  byte_length (path_str (hls_path ++ rel)) < w_path_max w ->
  os_resolve w (path_str (hls_path ++ rel)) = Found t.
Proof.
  intros O W N R D L.
  pose proof (os_resolve_names _ _ O R) as Or.
  destruct (descend_names_ok _ _ _ _ Or D) as [F _].
  assert (Fp : Forall (fun k => part_ok k = true) rel)
    by (eapply Forall_impl; [|exact F]; intros x; apply name_is_part).
  destruct W as [q Fq|a q A Fq].
  - destruct q as [|k q].
    + cbn [app] in *.
      rewrite (path_str_relative rel Fp N) in *.
      unfold os_resolve in *. cbn [path_str] in R.
      change (String.eqb "." "") with false in R.
      destruct (w_path_max w <=? byte_length ".")%nat; [discriminate R|].
      change (starts_with "/" ".") with false in R.
      change (split_on "/" ".") with ["."] in R.
      apply (os_walk_stay [] "." eq_refl) in R.
      replace (String.eqb (join "/" rel) "") with false.
      2:{ symmetry. apply String.eqb_neq. intros E.
          pose proof (join_parts_split _ N Fp) as S. rewrite E in S.
          destruct rel as [|x [|y rel]]; try discriminate S.
          injection S as <-. inversion Fp; subst. discriminate. }
      replace (w_path_max w <=? byte_length (join "/" rel))%nat
        with false by (symmetry; apply Nat.leb_gt; exact L).
      rewrite (join_no_slash_start _ Fp), (join_parts_split _ N Fp).
      now apply (os_walk_under [] rel _ root).
    + assert (E : path_str ((k :: q) ++ rel)%list
                  = (path_str (k :: q) ++ String "/" (join "/" rel))%string).
      { rewrite (path_str_relative (k :: q) Fq) by discriminate.
        rewrite path_str_relative;
          [apply join_app; [discriminate | exact N]
          | apply Forall_app; now split | discriminate]. }
      rewrite E in *. now apply (os_resolve_sep _ _ root).
  - destruct q as [|k q].
    + cbn [app] in *. rewrite path_str_absolute in * by exact A.
      unfold os_resolve in *.
      replace (String.eqb (a ++ join "/" rel) "") with false
        by (destruct A as [->| ->]; reflexivity).
      replace (w_path_max w <=? byte_length (a ++ join "/" rel))%nat
        with false by (symmetry; apply Nat.leb_gt; exact L).
      destruct A as [->| ->].
      * change (String.eqb ("/" ++ join "/" []) "") with false in R.
        destruct (w_path_max w <=? byte_length ("/" ++ join "/" []))%nat;
          [discriminate R|].
        change (starts_with "/" ("/" ++ join "/" [])) with true in R.
        change (split_on "/" ("/" ++ join "/" [])) with ([""] ++ [""])%list in R.
        apply (os_walk_stay [""] "" eq_refl) in R.
        change (starts_with "/" ("/" ++ join "/" rel)) with true.
        change (split_on "/" ("/" ++ join "/" rel))
          with ([""] ++ split_on "/" (join "/" rel))%list.
        rewrite (join_parts_split _ N Fp).
        now apply (os_walk_under [""] rel _ root).
      * change (String.eqb ("//" ++ join "/" []) "") with false in R.
        destruct (w_path_max w <=? byte_length ("//" ++ join "/" []))%nat;
          [discriminate R|].
        change (starts_with "/" ("//" ++ join "/" [])) with true in R.
        change (split_on "/" ("//" ++ join "/" []))
          with ([""; ""] ++ [""])%list in R.
        apply (os_walk_stay [""; ""] "" eq_refl) in R.
        change (starts_with "/" ("//" ++ join "/" rel)) with true.
        change (split_on "/" ("//" ++ join "/" rel))
          with ([""; ""] ++ split_on "/" (join "/" rel))%list.
        rewrite (join_parts_split _ N Fp).
        now apply (os_walk_under [""; ""] rel _ root).
    + assert (E : path_str ((a :: k :: q) ++ rel)%list
                  = (path_str (a :: k :: q) ++ String "/" (join "/" rel))%string).
      { change ((a :: k :: q) ++ rel)%list with (a :: ((k :: q) ++ rel))%list.
        rewrite !path_str_absolute by exact A.
        rewrite join_app by (auto; discriminate).
        now rewrite app_str_assoc. }
      rewrite E in *. now apply (os_resolve_sep _ _ root).
Qed.

End OsFacts.

(** ** The paths the locator returns *)

Lemma NoDup_map_on {A B : Type} (f : A -> B) (l : list A) :
  (forall x y, In x l -> In y l -> f x = f y -> x = y) ->
  NoDup l -> NoDup (map f l).
Proof.
  induction l as [|a l IH]; intros Inj N; simpl; [constructor|].
  inversion N as [|? ? Ha N']; subst. constructor.
  - intros I. apply in_map_iff in I. destruct I as (x & E & Hx).
    apply Ha. rewrite <- (Inj x a); auto; [now right | now left].
  - apply IH; [|exact N']. intros x y Hx Hy. apply Inj; now right.
Qed.

Section LocatedPaths.

Variable w : world.

Lemma has_nul_path_str (p rel : path) :
  wf_path p -> has_nul (path_str p) = false ->
  Forall (fun k => name_ok (w_name_max w) k = true) rel ->
  rel <> []%list ->
  has_nul (path_str (p ++ rel)%list) = false.
Proof.
  intros W Hp F N.
  assert (Fp : Forall (fun k => part_ok k = true) rel)
    by (eapply Forall_impl; [|exact F]; intros x; apply name_is_part).
  assert (Fn : has_nul (join "/" rel) = false).
  { apply has_nul_join. eapply Forall_impl; [|exact F].
    intros x Hx. unfold name_ok in Hx. rewrite !andb_true_iff in Hx.
    now destruct (has_nul x); [destruct Hx as [[_ Hx] _]|]. }
  destruct W as [q Fq|a q A Fq].
  - destruct q as [|k q].
    + cbn [app]. now rewrite (path_str_relative rel Fp N).
    + rewrite path_str_relative;
        [| apply Forall_app; now split | discriminate].
      rewrite join_app by (auto; discriminate).
      rewrite (path_str_relative (k :: q) Fq) in Hp by discriminate.
      rewrite has_nul_app, Hp. exact Fn.
  - change ((a :: q) ++ rel)%list with (a :: (q ++ rel))%list.
    rewrite path_str_absolute in * by exact A.
    rewrite has_nul_app in *. apply orb_false_iff in Hp as [Ha Hq].
    rewrite Ha. cbn [orb].
    destruct q as [|k q]; [exact Fn|].
    rewrite join_app by (auto; discriminate).
    rewrite has_nul_app, Hq. exact Fn.
Qed.

Lemma descend_parent (rel : list string) (n t : node) :
  rel <> []%list -> descend n rel = Found t ->
  exists es, descend n (removelast rel) = Found (Dir es).
Proof.
  intros N D. rewrite (app_removelast_last "" N), descend_app in D.
  destruct (descend n (removelast rel)) as [c| | |]; try discriminate D.
  destruct c as [f|es]; [discriminate D|]. now exists es.
Qed.

(** The paths the locator returns, as paths. *)
Lemma located_paths (hls_dir : string) (logs : list (string * string)) :
  wf_node (w_root w) = true ->
  names_ok (w_name_max w) (w_root w) = true ->
  fst (find_catapult_logs w hls_dir initial_state) = Ok logs ->
  exists paths : list path,
    logs = map (fun p => (path_name (path_parent p), path_str p)) paths /\
    NoDup paths /\
    forall p, In p paths ->
      wf_path p /\
      path_name p = "catapult.log" /\
      has_nul (path_str p) = false /\
      exists target, os_resolve w (path_str p) = Found target.
Proof.
  intros W O H. rewrite find_catapult_logs_cases in H.
  assert (Z : exists paths : list path,
            [] = map (fun p => (path_name (path_parent p), path_str p)) paths /\
            NoDup paths /\
            forall p, In p paths ->
              wf_path p /\
              path_name p = "catapult.log" /\
              has_nul (path_str p) = false /\
              exists target, os_resolve w (path_str p) = Found target)
    by (exists []; split; [reflexivity|]; split; [constructor|]; intros p []).
  unfold path_exists, path_rglob in H.
  destruct (has_nul (path_str (Path hls_dir))) eqn:Hn;
    [injection H as <-; exact Z|].
  destruct (os_resolve w (path_str (Path hls_dir))) as [root| | |] eqn:R;
    try (injection H as <-; exact Z); try discriminate H.
  destruct (walk_error w "catapult.log" 0 (Path hls_dir) root) as [e|] eqn:WE;
    [discriminate H|].
  injection H as <-. clear Z.
  pose proof (os_resolve_wf _ _ _ W R) as Wr.
  pose proof (os_resolve_names _ _ _ O R) as Or.
  exists (rglob "catapult.log" (Path hls_dir) root).
  split; [reflexivity|]. split; [now apply rglob_nodup|].
  intros p Hp. apply (rglob_spec _ _ _ Wr) in Hp.
  destruct Hp as (rel & t & -> & Hr & Hl & D).
  destruct (descend_names_ok _ _ _ _ Or D) as [F _].
  assert (Fp : Forall (fun k => part_ok k = true) rel)
    by (eapply Forall_impl; [|exact F]; intros x; apply name_is_part).
  split; [apply wf_path_app; [apply Path_wf | exact Fp]|].
  split.
  { rewrite (app_removelast_last "" Hr), Hl, app_assoc.
    now apply path_name_app. }
  split; [apply has_nul_path_str; auto using Path_wf|].
  exists t. apply (os_resolve_under _ _ _ root); auto using Path_wf.
  destruct (descend_parent _ _ _ Hr D) as [es De].
  pose proof (proj1 (walk_error_none w "catapult.log" root 0 (Path hls_dir) Wr)
                WE _ _ De) as (_ & L & _).
  unfold path_child in L.
  now rewrite <- app_assoc, <- Hl, <- (app_removelast_last "" Hr) in L.
Qed.

End LocatedPaths.

(** X12. What the locator returns, the parser finds again. In a world
    whose tree has proper names, distinct in each directory, and whose
    working directory exists, the path strings the locator returns are
    distinct; each ends with the name [catapult.log], the name of its
    parent is the design name it is paired with, and the operating system
    finds an entry under it, so that [open] never reports it missing: it
    gives the file, which is then scanned, or fails because the entry is
    a directory. *)
Theorem X12_located_logs_are_found_again
    (w : world) (hls_dir : string) (logfiles : list (string * string)) :
  wf_world w = true ->
  fst (find_catapult_logs w hls_dir initial_state) = Ok logfiles ->
  NoDup (map snd logfiles) /\
  forall design_name logfile_path,
    In (design_name, logfile_path) logfiles ->
    path_name (Path logfile_path) = "catapult.log" /\
    path_name (path_parent (Path logfile_path)) = design_name /\
    exists target,
      os_resolve w logfile_path = Found target /\
      match target with
      | File f =>
          open_read w logfile_path = Ok f /\
          (f_error f = None ->
           forall st,
             fst (parse_hls_runtimes w logfile_path st)
             = scan_lines (f_lines f) [])
      | Dir _ =>
          open_read w logfile_path
          = Raise (mkExn IsADirectoryError
                     ("[Errno 21] Is a directory: " ++ py_repr logfile_path))
      end.
Proof.
  intros Ww H. unfold wf_world in Ww. rewrite !andb_true_iff in Ww.
  destruct Ww as [[W O] _].
  destruct (located_paths w hls_dir logfiles W O H) as (paths & -> & N & Hp).
  split.
  - rewrite map_map. cbn [snd]. apply NoDup_map_on; [|exact N].
    intros x y Hx Hy E.
    rewrite <- (Path_of_str x), <- (Path_of_str y), E;
      [reflexivity | apply Hp, Hy | apply Hp, Hx].
  - intros d s Hin. apply in_map_iff in Hin.
    destruct Hin as (p & E & Hin). injection E as <- <-.
    destruct (Hp p Hin) as (F & Hn & Hz & t & R).
    rewrite (Path_of_str p F). split; [exact Hn|]. split; [reflexivity|].
    exists t. split; [exact R|].
    assert (Op : open_read w (path_str p)
                 = match t with
                   | File f => Ok f
                   | Dir _ =>
                       Raise (mkExn IsADirectoryError
                                ("[Errno 21] Is a directory: "
                                 ++ py_repr (path_str p)))
                   end).
    { unfold open_read. now rewrite Hz, R. }
    destruct t as [f|es]; [|exact Op].
    split; [exact Op|]. intros He st.
    rewrite parse_result_fst. unfold parse_result.
    rewrite (scan_file_ok w _ _ Op He).
    destruct (scan_lines_ok (f_lines f) [] (NoDup_nil _)) as (d & -> & _).
    reflexivity.
Qed.

(** ** The first occurrence of the pattern *)

Section FirstOccurrence.

Local Open Scope string_scope.

(** [re.search] returns the match at the first position that has one. *)
Lemma re_search_leftmost (p : pattern) (s : string) (m : list string) :
  match_here p s = Some m ->
  forall pre,
    (forall a b, pre = a ++ b -> b <> "" -> match_here p (b ++ s) = None) ->
    re_search p (pre ++ s) = Some m.
Proof.
  intros Hm. induction pre as [|c pre IH]; intros H.
  - simpl. destruct s; simpl; now rewrite Hm.
  - pose proof (H "" (String c pre) eq_refl) as H0.
    cbn [append] in *. cbn [re_search]. rewrite H0 by discriminate.
    apply IH. intros a b -> Hb. apply (H (String c a) b); auto.
Qed.

Lemma match_here_at_shape (s : string) (m : list string) :
  match_here runtime_pattern s = Some m -> elapsed_at s (group_1 m).
Proof.
  intros H. unfold runtime_pattern in H.
  apply match_lit_inv in H. destruct H as (e & s1 & m1 & -> & He & H & ->).
  cbn [app] in H.
  apply match_many_inv in H. destruct H as (w1 & s2 & m2 & -> & Hw1 & Aw1 & H & ->).
  apply match_many_inv in H. destruct H as (tok & s3 & m3 & -> & Ht & At & H & ->).
  apply match_many_inv in H. destruct H as (w2 & s4 & m4 & -> & Hw2 & Aw2 & H & ->).
  apply match_lit_inv in H. destruct H as (sec & s5 & m5 & -> & Hs & H & ->).
  assert (Hg : group_1 (chars e ++ w1 :: tok :: w2 :: chars sec ++ m5)%list = tok).
  { unfold group_1, group1.
    assert (L : List.length (chars e) = 12)
      by (now rewrite chars_length, <- lower_length, He).
    rewrite app_nth2 by lia. rewrite L. reflexivity. }
  rewrite Hg. exists e, w1, w2, sec, s5. repeat split; auto.
Qed.

Lemma shape_matches_here (s tok : string) :
  elapsed_at s tok -> match_here runtime_pattern s <> None.
Proof.
  intros (e & w1 & w2 & sec & rest & -> & He & Hw1 & Aw1 & Ht & At
          & Hw2 & Aw2 & Hs).
  unfold runtime_pattern. rewrite match_lit by exact He. cbn [app].
  match goal with |- option_map _ ?x <> None =>
    assert (x <> None); [|destruct x; [discriminate | congruence]] end.
  apply match_many; auto. apply match_many; auto. apply match_many; auto.
  rewrite match_lit by exact Hs.
  match goal with |- option_map _ ?x <> None =>
    assert (x <> None); [|destruct x; [discriminate | congruence]] end.
  apply match_opt_last.
Qed.

Lemma app_str_inv_length (a b x y : string) :
  String.length a = String.length b -> a ++ x = b ++ y -> a = b /\ x = y.
Proof.
  revert b; induction a as [|c a IH]; intros [|d b] L E; simpl in *;
    try discriminate; [auto|].
  injection L as L. injection E as -> E.
  destruct (IH _ L E) as [-> ->]. auto.
Qed.

(** A run of a class ends where the class ends. *)
Lemma run_unique (P : ascii -> bool) (a b x y : string) :
  all_chars P a = true -> all_chars P b = true ->
  (forall c x', x = String c x' -> P c = false) ->
  (forall c y', y = String c y' -> P c = false) ->
  x <> "" -> y <> "" ->
  a ++ x = b ++ y -> a = b /\ x = y.
Proof.
  revert b; induction a as [|c a IH]; intros [|d b] Ha Hb Hx Hy Nx Ny E;
    simpl in *.
  - auto.
  - subst x. apply andb_true_iff in Hb.
    rewrite (Hx d (b ++ y) eq_refl) in Hb. destruct Hb; discriminate.
  - subst y. apply andb_true_iff in Ha.
    rewrite (Hy c (a ++ x) eq_refl) in Ha. destruct Ha; discriminate.
  - injection E as -> E. apply andb_true_iff in Ha, Hb.
    destruct (IH b) as [-> ->]; tauto.
Qed.

Lemma digit_or_dot_is_no_space (c : ascii) :
  is_digit_or_dot c = true -> is_space c = false.
Proof.
  destruct c as [[] [] [] [] [] [] [] []]; vm_compute; congruence.
Qed.

Lemma space_is_no_digit_or_dot (c : ascii) :
  is_space c = true -> is_digit_or_dot c = false.
Proof.
  intros H. destruct (is_digit_or_dot c) eqn:E; [|reflexivity].
  apply digit_or_dot_is_no_space in E. congruence.
Qed.

(** At one position the token is determined. *)
Lemma elapsed_at_unique (s t1 t2 : string) :
  elapsed_at s t1 -> elapsed_at s t2 -> t1 = t2.
Proof.
  intros (e & w1 & w2 & sec & rest & E1 & He & Hw1 & Aw1 & Ht & At
          & Hw2 & Aw2 & _)
         (e' & w1' & w2' & sec' & rest' & E2 & He' & Hw1' & Aw1' & Ht' & At'
          & Hw2' & Aw2' & _).
  rewrite E1 in E2.
  apply app_str_inv_length in E2;
    [|now rewrite <- (lower_length e), <- (lower_length e'), He, He'].
  destruct E2 as [_ E2].
  assert (F : forall (t w r : string) c x',
             t <> "" -> all_chars is_digit_or_dot t = true ->
             t ++ w ++ r = String c x' -> is_space c = false).
  { intros t w r c x' Nt Hall E. destruct t as [|d t]; [congruence|].
    simpl in E. injection E as <- _. simpl in Hall.
    apply andb_true_iff in Hall. now apply digit_or_dot_is_no_space. }
  assert (G : forall (w r : string) c x',
             w <> "" -> all_chars is_space w = true ->
             w ++ r = String c x' -> is_digit_or_dot c = false).
  { intros w r c x' Nw Hall E. destruct w as [|d w]; [congruence|].
    simpl in E. injection E as <- _. simpl in Hall.
    apply andb_true_iff in Hall. now apply space_is_no_digit_or_dot. }
  assert (N1 : forall t r : string, t <> "" -> t ++ r <> "")
    by (intros [|c t] r N; [congruence | discriminate]).
  destruct (run_unique is_space _ _ _ _ Aw1 Aw1'
              (fun c x' E => F _ _ _ c x' Ht At E)
              (fun c x' E => F _ _ _ c x' Ht' At' E)
              (N1 _ _ Ht) (N1 _ _ Ht') E2) as [_ E3].
  destruct (run_unique is_digit_or_dot _ _ _ _ At At'
              (fun c x' E => G _ _ c x' Hw2 Aw2 E)
              (fun c x' E => G _ _ c x' Hw2' Aw2' E)
              (N1 _ _ Hw2) (N1 _ _ Hw2') E3) as [E4 _].
  exact E4.
Qed.

End FirstOccurrence.

(** X13. The first occurrence of the pattern in a line decides: when a
    line has the shape "elapsed time", white space, token, white space,
    "second" at some position and at no position before it, the
    extraction is [float] of that token, or nothing when [float] rejects
    it, whatever follows in the line. *)
Theorem X13_first_occurrence_decides (pre s tok : string) :
  elapsed_at s tok ->
  (forall a b tok', pre = (a ++ b)%string -> b <> "" ->
                    ~ elapsed_at (b ++ s) tok') ->
  parse_runtime_from_line (pre ++ s)
  = match py_float tok with
    | Ok v => Ok (Some v)
    | Raise _ => Ok None
    end.
Proof.
  intros Hs Hpre.
  pose proof (shape_matches_here _ _ Hs) as M.
  destruct (match_here runtime_pattern s) as [m|] eqn:E; [|congruence].
  pose proof (elapsed_at_unique _ _ _ (match_here_at_shape _ _ E) Hs) as G.
  unfold parse_runtime_from_line.
  rewrite (re_search_leftmost _ _ _ E).
  - rewrite G. destruct (py_float tok) as [v|e] eqn:F; [reflexivity|].
    now rewrite (py_float_raise _ _ F).
  - intros a b Hab Hb.
    destruct (match_here runtime_pattern (b ++ s)) as [m'|] eqn:E'; [|reflexivity].
    destruct (Hpre a b _ Hab Hb (match_here_at_shape _ _ E')).
Qed.

(** X14. A successful export replaces whatever the path held: after
    an export of one mapping and then of another to the same path, the
    file is the table of the second alone (header and one row per
    design), as if the first export had never run, and every other file
    is as before. *)
Theorem X14_export_replaces_the_file
    (w : world) (earlier design_runtimes : dict (dict float))
    (csv_path : string) (st : state) :
  w_write_error w csv_path = None ->
  let st1 := snd (export_to_csv w earlier csv_path st) in
  let st2 := snd (export_to_csv w design_runtimes csv_path st1) in
  files st2 = files (snd (export_to_csv w design_runtimes csv_path st)) /\
  (exists rows,
      dict_get (files st2) csv_path = Some (csv_header :: rows) /\
      rows = map csv_row (sorted_items design_runtimes) /\
      List.length rows = List.length design_runtimes) /\
  forall other,
    other <> csv_path ->
    dict_get (files st2) other = dict_get (files st) other.
Proof.
  intros H st1 st2. subst st2 st1.
  rewrite !(export_to_csv_run w _ csv_path _ H). cbn [snd files].
  rewrite dict_set_set. split; [reflexivity|]. split.
  - exists (map csv_row (sorted_items design_runtimes)).
    split; [apply dict_get_set_same|]. split; [reflexivity|].
    rewrite length_map.
    apply Permutation_length, sorted_items_perm.
  - intros other Ho. apply dict_get_set_other. congruence.
Qed.

(* ================================================================= *)
(** * The further properties on sample inputs *)

(** X1 on the log with two completion lines of [compile]: the value
    comes from the second line. *)
Lemma X1_witness :
  open_read sample_world "hls/twice/catapult.log" = Ok log_twice /\
  f_error log_twice = None /\
  exists step_runtimes st',
    parse_hls_runtimes sample_world "hls/twice/catapult.log" initial_state
    = (Ok step_runtimes, st') /\
    (forall v,
        dict_get step_runtimes "compile" = Some v ->
        exists before line after,
          f_lines log_twice = before ++ line :: after /\
          marks line "compile" v /\
          forall l v', In l after -> ~ marks l "compile" v').
Proof.
  split; [reflexivity|]. split; [reflexivity|].
  destruct (X1_recorded_values_come_from_lines sample_world
              "hls/twice/catapult.log" log_twice initial_state "compile"
              eq_refl eq_refl)
    as (d & st' & E & H & _).
  exists d, st'. split; [exact E | exact H].
Defined.

(** X2 on a log without completion lines. *)
Lemma X2_witness :
  open_read barren_world "hls/silent/catapult.log" = Ok log_silent /\
  f_error log_silent = None /\
  (forall l, In l (f_lines log_silent) -> contains marker l = false) /\
  exists st',
    parse_hls_runtimes barren_world "hls/silent/catapult.log" initial_state
    = (Ok [], st') /\
    stdout st'
    = [ "Warning: Design 'silent' is missing steps: analyze, compile, libraries, assembly, loops, memories, cluster, architect, allocate, schedule, dpfsm, instance, extract" ].
Proof.
  assert (H : forall l, In l (f_lines log_silent) -> contains marker l = false).
  { intros l [<-|[<-|[]]]; reflexivity. }
  split; [reflexivity|]. split; [reflexivity|]. split; [exact H|].
  destruct (X2_lines_without_marker_are_ignored barren_world
              "hls/silent/catapult.log" log_silent initial_state
              eq_refl eq_refl)
    as (d & st' & E & _ & K).
  destruct (K H) as [-> Hout].
  exists st'. split; [exact E | exact Hout].
Defined.

(** X3 on the first log of the sample tree: two steps recorded, eleven
    missing. *)
Lemma X3_witness :
  open_read sample_world "hls/designA/catapult.log" = Ok log_designA /\
  f_error log_designA = None /\
  exists step_runtimes st',
    parse_hls_runtimes sample_world "hls/designA/catapult.log" initial_state
    = (Ok step_runtimes, st') /\
    List.length (dict_keys step_runtimes)
    + List.length (filter (fun step => negb (dict_mem step_runtimes step))
                          expected_steps_parse) = 13 /\
    files st' = files initial_state.
Proof.
  split; [reflexivity|]. split; [reflexivity|].
  destruct (X3_completeness_check sample_world "hls/designA/catapult.log"
              log_designA initial_state eq_refl eq_refl)
    as (d & st' & E & _ & _ & L & _ & _ & F).
  exists d, st'. split; [exact E|]. split; [exact L | exact F].
Defined.

(** X4 on a directory that does not exist. *)
Lemma X4_witness :
  fst (find_catapult_logs sample_world "nowhere" initial_state) = Ok [] /\
  main Py311 sample_world "nowhere" (Some "out.csv") initial_state
  = (Ok tt,
     mkState
       [ "Searching for catapult.log files in: nowhere";
         "Warning: HLS directory 'nowhere' does not exist";
         "No catapult.log files found!" ]
       []).
Proof.
  split; [reflexivity|].
  exact (X4_no_logs_found Py311 sample_world "nowhere" (Some "out.csv")
           initial_state eq_refl).
Defined.

(** X5 on a tree whose two logs give no runtime. *)
Lemma X5_witness :
  fst (find_catapult_logs barren_world "hls" initial_state)
  = Ok (located barren_world "hls") /\
  located barren_world "hls" <> [] /\
  (forall d p, In (d, p) (located barren_world "hls") ->
               fst (parse_hls_runtimes barren_world p initial_state) = Ok []) /\
  exists out,
    main Py312 barren_world "hls" (Some "out.csv") initial_state
    = (Ok tt, mkState out []) /\
    last out "" = "No valid runtime data found!".
Proof.
  assert (H1 : fst (find_catapult_logs barren_world "hls" initial_state)
               = Ok (located barren_world "hls")) by reflexivity.
  assert (H2 : located barren_world "hls" <> []) by (vm_compute; discriminate).
  assert (H3 : forall d p, In (d, p) (located barren_world "hls") ->
                 fst (parse_hls_runtimes barren_world p initial_state) = Ok []).
  { intros d p Hp. vm_compute in Hp.
    destruct Hp as [Hp|[Hp|[]]]; injection Hp as <- <-; reflexivity. }
  split; [exact H1|]. split; [exact H2|]. split; [exact H3|].
  eexists. split.
  - exact (X5_no_valid_runtime_data Py312 barren_world "hls" (Some "out.csv")
             _ initial_state H1 H2 H3).
  - vm_compute. reflexivity.
Defined.

(** X6 on the sample tree: a root of 300 letters ends [main] with an
    [OSError], the root [hls] lets it end normally. *)
Lemma X6_witness :
  fst (find_catapult_logs sample_world (repeat_str "a" 300) initial_state)
  = Raise (too_long (repeat_str "a" 300)) /\
  main Py311 sample_world (repeat_str "a" 300) (Some "out.csv") initial_state
  = (Raise (too_long (repeat_str "a" 300)),
     mkState [("Searching for catapult.log files in: "
               ++ repeat_str "a" 300)%string] []) /\
  fst (find_catapult_logs sample_world "hls" initial_state)
  = Ok (located sample_world "hls") /\
  exists st',
    main Py311 sample_world "hls" None initial_state = (Ok tt, st') /\
    files st' = [].
Proof.
  assert (H1 : fst (find_catapult_logs sample_world (repeat_str "a" 300)
                      initial_state)
               = Raise (too_long (repeat_str "a" 300)))
    by (vm_compute; reflexivity).
  assert (H2 : fst (find_catapult_logs sample_world "hls" initial_state)
               = Ok (located sample_world "hls")) by reflexivity.
  split; [exact H1|]. split.
  - exact (proj2 (proj1 (X6_only_the_locator_ends_main_with_an_exception
                           Py311 sample_world (repeat_str "a" 300)
                           (Some "out.csv") initial_state) _ H1)).
  - split; [exact H2|].
    destruct (proj2 (X6_only_the_locator_ends_main_with_an_exception
                       Py311 sample_world "hls" None initial_state) _ H2)
      as (st' & M & _ & _ & F).
    exists st'. split; [exact M|]. apply F. now left.
Defined.

(** X7 on the sample tree. *)
Lemma X7_witness :
  fst (find_catapult_logs sample_world "hls" initial_state)
  = Ok (located sample_world "hls") /\
  "out.csv" <> "" /\
  w_write_error sample_world "out.csv" = None /\
  exists design_runtimes st0 st1,
    fst (collect sample_world (located sample_world "hls") [] initial_state)
    = Ok design_runtimes /\
    design_runtimes <> [] /\
    main Py311 sample_world "hls" None initial_state = (Ok tt, st0) /\
    main Py311 sample_world "hls" (Some "out.csv") initial_state
    = (Ok tt, st1) /\
    stdout st1
    = stdout st0 ++ [(newline ++ "CSV report exported to: out.csv")%string] /\
    files st1
    = [("out.csv", csv_header :: map csv_row (sorted_items design_runtimes))].
Proof.
  assert (L : fst (find_catapult_logs sample_world "hls" initial_state)
              = Ok (located sample_world "hls")) by reflexivity.
  assert (H : "out.csv" <> "") by discriminate.
  split; [exact L|]. split; [exact H|]. split; [reflexivity|].
  destruct (X7_export_follows_the_report Py311 sample_world "hls" "out.csv"
              (located sample_world "hls") initial_state L H)
    as (dr & st0 & st1 & C & M0 & M1 & K).
  exists dr, st0, st1.
  assert (N : dr <> []).
  { intros ->. vm_compute in C. discriminate C. }
  split; [exact C|]. split; [exact N|]. split; [exact M0|]. split; [exact M1|].
  destruct dr as [|item dr]; [congruence|].
  exact K.
Defined.

(** X9 on the total 13.5. *)
Lemma X9_witness :
  nonneg_float (S754_finite false 7599824371187712 (-49)) = true /\
  is_finite (S754_finite false 7599824371187712 (-49)) = true /\
  format_2f (S754_finite false 7599824371187712 (-49)) = "13.50" /\
  py_float "13.50" = Ok (round2 (S754_finite false 7599824371187712 (-49))).
Proof.
  split; [reflexivity|]. split; [reflexivity|]. split; [reflexivity|].
  exact (X9_printed_total_reads_back_as_rounded_total
           (S754_finite false 7599824371187712 (-49)) eq_refl eq_refl).
Defined.

(** X10 on the mapping of the first log of the sample tree: the report
    prints 13.50 and the file holds 13.5. *)
Lemma X10_witness :
  subseq (dict_keys (parse_result sample_world "hls/designA/catapult.log"))
         expected_steps_export = true /\
  w_write_error sample_world "out.csv" = None /\
  stdout (snd (generate_report Py311
                 [("designA",
                   parse_result sample_world "hls/designA/catapult.log")]
                 initial_state))
  = [ (newline ++ "HLS Runtime Summary:")%string;
      "------------------------------------------------------------";
      "designA                           13.50 seconds" ] /\
  exists cells,
    files (snd (export_to_csv sample_world
                  [("designA",
                    parse_result sample_world "hls/designA/catapult.log")]
                  "out.csv" initial_state))
    = [("out.csv",
        [ csv_header;
          CStr "designA"
          :: CFloat (S754_finite false 7599824371187712 (-49)) :: cells ])].
Proof.
  split; [reflexivity|]. split; [reflexivity|].
  destruct (X10_totals_agree_in_schedule_order sample_world
              [("designA",
                parse_result sample_world "hls/designA/catapult.log")]
              "out.csv" initial_state initial_state) as [R E].
  { intros d s [K|[]]. injection K as _ <-. reflexivity. }
  { reflexivity. }
  rewrite R, E. split; [vm_compute; reflexivity|].
  eexists. vm_compute. reflexivity.
Defined.

(** X11 on two logs of the sample tree, in both orders. *)
Lemma X11_witness :
  distinct (map fst [("designA", "hls/designA/catapult.log");
                     ("twice", "hls/twice/catapult.log")]) = true /\
  Permutation [("designA", "hls/designA/catapult.log");
               ("twice", "hls/twice/catapult.log")]
              [("twice", "hls/twice/catapult.log");
               ("designA", "hls/designA/catapult.log")] /\
  exists design_runtimes design_runtimes',
    (forall st,
        fst (collect sample_world
               [("designA", "hls/designA/catapult.log");
                ("twice", "hls/twice/catapult.log")] [] st)
        = Ok design_runtimes) /\
    (forall st,
        fst (collect sample_world
               [("twice", "hls/twice/catapult.log");
                ("designA", "hls/designA/catapult.log")] [] st)
        = Ok design_runtimes') /\
    (forall version st,
        generate_report version design_runtimes st
        = generate_report version design_runtimes' st).
Proof.
  assert (P : Permutation [("designA", "hls/designA/catapult.log");
                           ("twice", "hls/twice/catapult.log")]
                          [("twice", "hls/twice/catapult.log");
                           ("designA", "hls/designA/catapult.log")])
    by apply perm_swap.
  split; [reflexivity|]. split; [exact P|].
  destruct (X11_output_does_not_depend_on_traversal_order sample_world
              [("designA", "hls/designA/catapult.log");
               ("twice", "hls/twice/catapult.log")]
              [("twice", "hls/twice/catapult.log");
               ("designA", "hls/designA/catapult.log")] eq_refl P)
    as (dr & dr' & H1 & H2 & _ & H3 & _).
  exists dr, dr'. split; [exact H1|]. split; [exact H2 | exact H3].
Defined.

(** X12 on the sample tree. *)
Lemma X12_witness :
  wf_world sample_world = true /\
  fst (find_catapult_logs sample_world "hls" initial_state)
  = Ok (located sample_world "hls") /\
  In ("A", "hls/x/A/catapult.log") (located sample_world "hls") /\
  NoDup (map snd (located sample_world "hls")) /\
  path_name (path_parent (Path "hls/x/A/catapult.log")) = "A" /\
  exists target,
    os_resolve sample_world "hls/x/A/catapult.log" = Found target.
Proof.
  assert (I : In ("A", "hls/x/A/catapult.log") (located sample_world "hls"))
    by (vm_compute; tauto).
  split; [reflexivity|]. split; [reflexivity|]. split; [exact I|].
  destruct (X12_located_logs_are_found_again sample_world "hls"
              (located sample_world "hls") eq_refl eq_refl)
    as [N H].
  split; [exact N|].
  destruct (H "A" "hls/x/A/catapult.log" I) as (_ & Hd & target & Ht & _).
  split; [exact Hd|]. exists target. exact Ht.
Defined.

(** X13 on a line with two occurrences of the pattern. *)
Lemma X13_witness :
  elapsed_at "elapsed time 7.25 seconds, then elapsed time 9.0 seconds" "7.25" /\
  (forall a b tok',
      "done: " = (a ++ b)%string -> b <> "" ->
      ~ elapsed_at
          (b ++ "elapsed time 7.25 seconds, then elapsed time 9.0 seconds")
          tok') /\
  parse_runtime_from_line
    "done: elapsed time 7.25 seconds, then elapsed time 9.0 seconds"
  = Ok (Some (S754_finite false 8162774324609024 (-50))).
Proof.
  assert (H1 : elapsed_at
                 "elapsed time 7.25 seconds, then elapsed time 9.0 seconds"
                 "7.25").
  { exists "elapsed time", " ", " ", "second",
           "s, then elapsed time 9.0 seconds".
    repeat split; try reflexivity; discriminate. }
  assert (H2 : forall a b tok',
             "done: " = (a ++ b)%string -> b <> "" ->
             ~ elapsed_at
                 (b ++ "elapsed time 7.25 seconds, then elapsed time 9.0 seconds")
                 tok').
  { intros a b tok' E N H. apply shape_matches_here in H. apply H. clear H.
    repeat (destruct a as [|? a];
            [cbn [append] in E; subst b; vm_compute; reflexivity
            |cbn [append] in E; injection E as <- E]).
    destruct a; cbn [append] in E; [congruence | discriminate E]. }
  split; [exact H1|]. split; [exact H2|].
  exact (X13_first_occurrence_decides "done: " _ "7.25" H1 H2).
Defined.

(** X14 on the sample tree: an export over an earlier one. *)
Lemma X14_witness :
  w_write_error sample_world "out.csv" = None /\
  files (snd (export_to_csv sample_world
                (collected sample_world (located sample_world "hls") [])
                "out.csv"
                (snd (export_to_csv sample_world
                        (collected barren_world (located barren_world "hls") [])
                        "out.csv" initial_state))))
  = files (snd (export_to_csv sample_world
                  (collected sample_world (located sample_world "hls") [])
                  "out.csv" initial_state)).
Proof.
  split; [reflexivity|].
  exact (proj1 (X14_export_replaces_the_file sample_world
                  (collected barren_world (located barren_world "hls") [])
                  (collected sample_world (located sample_world "hls") [])
                  "out.csv" initial_state eq_refl)).
Defined.
